(** * Contract-validation engine of synapse-spec-first

    A shallow embedding of [internal/conformance]: the two validators
    ([AsyncAPIValidator] in asyncapi.go, [OpenAPIValidator] in openapi.go),
    their schema translators, their loaders and validation facades, and the
    two contract test suites.

    Go values decoded from YAML/JSON are modelled by the tree type [any];
    Go maps by [gmap]; library calls (os, yaml, json, jsonschema, net/http)
    are the events of a small free monad [Prog], so that the order and the
    arguments of the calls a function makes can be stated and proved for
    every behaviour of the libraries. *)

From Stdlib Require Import Strings.Byte Strings.Ascii.
From stdpp Require Import gmap strings list fin_maps pretty.

Set Warnings "-register-all".
Set Default Proof Using "Type".

(** ** Go values *)

(** [float64]: only the split between finite and non-finite values matters
    here ([encoding/json] refuses NaN and the infinities). *)
Inductive float64 : Type :=
| FFinite (bits : Z)
| FInf (negative : bool)
| FNaN.

(** The dynamic type [any] as [yaml.v3] and [encoding/json] populate it:
    [nil], [bool], [int], [float64], [string], [[]any], [map[string]any]
    and, for a YAML mapping with a key that is not a string,
    [map[any]any]. *)
Inductive any : Type :=
| VNil
| VBool (b : bool)
| VInt (z : Z)
| VFloat (f : float64)
| VString (s : string)
| VSeq (l : list any)
| VMap (m : gmap string any)
| VMapAny (l : list (any * any)).

#[export] Instance byte_eq_decision : EqDecision byte := Byte.byte_eq_dec.

(** A Go [error] is represented by its message ([err.Error()]). *)
Abbreviation error := string.

(** The [(value, error)] return pair of a fallible Go function. *)
Inductive Result (A : Type) : Type :=
| Ok (a : A)
| Err (e : error).
Arguments Ok {A} a.
Arguments Err {A} e.

Definition is_Ok {A} (r : Result A) : bool :=
  match r with Ok _ => true | Err _ => false end.

(** A pure Go computation either returns or panics at run time. *)
Inductive Go (A : Type) : Type :=
| Returns (a : A)
| Panics (msg : string).
Arguments Returns {A} a.
Arguments Panics {A} msg.

Definition go_bind {A B} (x : Go A) (f : A → Go B) : Go B :=
  match x with
  | Returns a => f a
  | Panics msg => Panics msg
  end.

Definition returns {A} (x : Go A) : bool :=
  match x with Returns _ => true | Panics _ => false end.

(** ** Strings *)

(** [strings.Split(s, "/")]: the pieces of [s] between the separators; the
    result is never empty. *)
Fixpoint strings_Split_slash (s : string) : list string :=
  match s with
  | EmptyString => [EmptyString]
  | String c rest =>
      if Ascii.eqb c "/"%char then EmptyString :: strings_Split_slash rest
      else match strings_Split_slash rest with
           | [] => [String c EmptyString]
           | piece :: pieces => String c piece :: pieces
           end
  end.

(** [strings.HasSuffix]. *)
Definition strings_HasSuffix (s suffix : string) : bool :=
  bool_decide (String.length suffix ≤ String.length s) &&
  String.eqb
    (String.substring (String.length s - String.length suffix) (String.length suffix) s)
    suffix.

(** [parts[len(parts)-1]]: indexing panics on an empty slice. *)
Definition last_part (parts : list string) : Go string :=
  match last parts with
  | Some p => Returns p
  | None => Panics "index out of range [-1]"
  end.

(** ** Schema Dialect Translator *)

Definition draft_2020_12 : string := "https://json-schema.org/draft/2020-12/schema".

(** The resource-naming namespaces of the two validators
    ([fmt.Sprintf("synapse://asyncapi/%s", name)] and
    [fmt.Sprintf("synapse://schemas/%s", name)]). *)
Definition asyncapi_ns : string := "synapse://asyncapi/".
Definition openapi_ns : string := "synapse://schemas/".

Definition schemaID (ns name : string) : string := ns +:+ name.

(** The name of the dynamic type of a value, as the runtime prints it. *)
Definition dynamic_type (val : any) : string :=
  match val with
  | VNil => "nil"
  | VBool _ => "bool"
  | VInt _ => "int"
  | VFloat _ => "float64"
  | VString _ => "string"
  | VSeq _ => "[]interface {}"
  | VMap _ => "map[string]interface {}"
  | VMapAny _ => "map[interface {}]interface {}"
  end.

(** [val.(string)]: the unchecked type assertion panics on any other
    dynamic type, with the runtime's [TypeAssertionError]. *)
Definition assert_string (val : any) : Go string :=
  match val with
  | VString s => Returns s
  | _ => Panics ("interface conversion: interface {} is " +:+ dynamic_type val +:+
                 ", not string")
  end.

(** The [$ref] case of the switch. *)
Definition rewrite_ref (ns : string) (val : any) : Go any :=
  go_bind (assert_string val) (λ ref,
  go_bind (last_part (strings_Split_slash ref)) (λ schemaName,
  Returns (VString (schemaID ns schemaName)))).

(** [convertProperties], over the translator [tr] it calls back: entries
    that are not mappings are left out of the result. *)
Definition convertProperties_with (tr : any → Go (gmap string any))
    (props : gmap string any) : Go (gmap string any) :=
  map_fold (λ name propDef acc,
    go_bind acc (λ result,
      match propDef with
      | VMap _ => go_bind (tr propDef) (λ r, Returns (<[name := VMap r]> result))
      | _ => Returns result
      end)) (Returns ∅) props.

(** The [allOf] loop: [converted] has the length of [allOf]; a position
    whose item is not a mapping keeps the zero value [nil]. *)
Fixpoint convertAllOf_with (tr : any → Go (gmap string any))
    (allOf : list any) : Go (list any) :=
  match allOf with
  | [] => Returns []
  | item :: rest =>
      go_bind (match item with
               | VMap _ => go_bind (tr item) (λ r, Returns (VMap r))
               | _ => Returns VNil
               end) (λ c,
      go_bind (convertAllOf_with tr rest) (λ cs, Returns (c :: cs)))
  end.

(** One iteration of [for k, val := range schema { switch k { ... } }]. *)
Definition translate_key (ns : string) (tr : any → Go (gmap string any))
    (k : string) (val : any) (result : gmap string any) : Go (gmap string any) :=
  if decide (k = "$ref") then
    go_bind (rewrite_ref ns val) (λ r, Returns (<["$ref" := r]> result))
  else if decide (k = "properties") then
    match val with
    | VMap props =>
        go_bind (convertProperties_with tr props) (λ r,
        Returns (<["properties" := VMap r]> result))
    | _ => Returns result
    end
  else if decide (k = "items") then
    match val with
    | VMap _ => go_bind (tr val) (λ r, Returns (<["items" := VMap r]> result))
    | _ => Returns result
    end
  else if decide (k = "allOf") then
    match val with
    | VSeq allOf =>
        go_bind (convertAllOf_with tr allOf) (λ converted,
        Returns (<["allOf" := VSeq converted]> result))
    | _ => Returns result
    end
  else Returns (<[k := val]> result).

(** [toJSONSchema] on the node [VMap schema]; the recursion is on the tree. *)
Fixpoint toJSONSchema_node (ns : string) (node : any) : Go (gmap string any) :=
  match node with
  | VMap schema =>
      map_fold (λ k val acc,
        go_bind acc (translate_key ns (toJSONSchema_node ns) k val))
        (Returns {["$schema" := VString draft_2020_12]}) schema
  | _ => Returns ∅
  end.

Definition toJSONSchema (ns : string) (schema : gmap string any) : Go (gmap string any) :=
  toJSONSchema_node ns (VMap schema).

Definition convertProperties (ns : string) (props : gmap string any) : Go (gmap string any) :=
  convertProperties_with (toJSONSchema_node ns) props.

(** ** JSON serialisation *)

(** What [json.Marshal] accepts: it fails with [UnsupportedValueError] on a
    non-finite float and with [UnsupportedTypeError] on [map[any]any]. *)
Fixpoint marshalable (x : any) : bool :=
  match x with
  | VFloat (FFinite _) => true
  | VFloat _ => false
  | VSeq l => forallb marshalable l
  | VMap m => map_fold (λ _ y ok, marshalable y && ok) true m
  | VMapAny _ => false
  | _ => true
  end.

(** [json.Marshal]. The JSON text is represented by the document it
    encodes, which is also what the schema compiler decodes it to. *)
Definition json_Marshal (x : any) : Result any :=
  if marshalable x then Ok x else Err "json: unsupported value".

(** ** Library calls *)

(** [*jsonschema.Compiler], [*http.Client], [context.Context] and response
    bodies are references to objects owned by their libraries. *)
Definition Compiler : Type := nat.
Definition Client : Type := nat.
Definition Context : Type := nat.
Definition ReadCloser : Type := nat.

(** [*jsonschema.Schema]: a compiled schema, known by its location. *)
Record Schema : Type := { Location : string }.

Record DirEntry : Type := { Name_ : string; IsDir : bool }.

Record Request : Type := {
  req_Method : string;
  req_URL : string;
  req_Body : option (list byte);
  req_Header : list (string * string)
}.

Record Response : Type := { StatusCode : Z; Body : ReadCloser }.

(** [req.Header.Set(key, value)]. *)
Definition Header_Set (req : Request) (key value : string) : Request :=
  {| req_Method := req_Method req; req_URL := req_URL req; req_Body := req_Body req;
     req_Header := (key, value) :: filter (λ kv, kv.1 ≠ key) (req_Header req) |}.

(** The calls the package makes into the Go runtime and its libraries,
    indexed by what each returns. [range_map] is the evaluation of a
    [range] clause over a map, whose order the runtime chooses. *)
Inductive Call : Type → Type :=
| os_ReadFile (name : string) : Call (Result (list byte))
| os_ReadDir (name : string) : Call (Result (list DirEntry))
| filepath_Dir (path : string) : Call string
| filepath_Join (elem : list string) : Call string
| yaml_Unmarshal (data : list byte) : Call (Result (gmap string any))
| range_map (m : gmap string any) : Call (list (string * any))
| jsonschema_NewCompiler : Call Compiler
| Compiler_AddResource (c : Compiler) (url : string) (doc : any) : Call (option error)
| Compiler_Compile (c : Compiler) (url : string) : Call (Result Schema)
| json_Unmarshal (data : list byte) : Call (Result any)
| Schema_Validate (s : Schema) (data : any) : Call (option error)
| http_NewRequestWithContext (ctx : Context) (method url : string)
    (body : option (list byte)) : Call (Result Request)
| Client_Do (client : Client) (req : Request) : Call (Result Response)
| io_ReadAll (r : ReadCloser) : Call (list byte * option error)
| Body_Close (r : ReadCloser) : Call (option error).

(** Programs over these calls. *)
Inductive Prog (A : Type) : Type :=
| Ret (a : A)
| Panic (msg : string)
| Do {T : Type} (c : Call T) (k : T → Prog A).
Arguments Ret {A} a.
Arguments Panic {A} msg.
Arguments Do {A T} c k.

Fixpoint prog_bind {A B} (f : A → Prog B) (p : Prog A) : Prog B :=
  match p with
  | Ret a => f a
  | Panic msg => Panic msg
  | Do c k => Do c (λ t, prog_bind f (k t))
  end.

#[export] Instance prog_ret : MRet Prog := λ A a, Ret a.
#[export] Instance prog_mbind : MBind Prog := λ A B f p, prog_bind f p.

Definition call {T} (c : Call T) : Prog T := Do c Ret.

Definition lift {A} (x : Go A) : Prog A :=
  match x with
  | Returns a => Ret a
  | Panics msg => Panic msg
  end.

(** A library is a state and an answer to every call. *)
Record Lib : Type := {
  World : Type;
  handle : ∀ T, Call T → World → T * World
}.
Arguments handle l {T} c w : rename.

(** A call together with its answer. *)
Definition Event : Type := { T : Type & (Call T * T)%type }.
Definition event {T} (c : Call T) (t : T) : Event := existT T (c, t).

Inductive Outcome (A : Type) : Type :=
| Done (a : A)
| Panicked (msg : string).
Arguments Done {A} a.
Arguments Panicked {A} msg.

(** Running a program against a library: the outcome, the library's final
    state and the calls made, in order. *)
Fixpoint run (L : Lib) {A} (p : Prog A) (w : World L) : Outcome A * World L * list Event :=
  match p with
  | Ret a => (Done a, w, [])
  | Panic msg => (Panicked msg, w, [])
  | Do c k =>
      let '(t, w1) := handle L c w in
      let '(o, w2, evs) := run L (k t) w1 in
      (o, w2, event c t :: evs)
  end.

(** ** Registration and compilation passes, shared by both loaders *)

(** The body of [for name, schemaDef := range schemas] (first pass), over
    the order [entries] of the iteration; [Err] is the early [return]. *)
Fixpoint addResources (ns : string) (c : Compiler) (entries : list (string * any))
    (schemaNames : list string) : Prog (Result (list string)) :=
  match entries with
  | [] => mret (Ok schemaNames)
  | (name, schemaDef) :: rest =>
      match schemaDef with
      | VMap schemaMap =>
          jsonSchema ← lift (toJSONSchema ns schemaMap);
          match json_Marshal (VMap jsonSchema) with
          | Err _ => addResources ns c rest schemaNames
          | Ok jsonBytes =>
              err ← call (Compiler_AddResource c (schemaID ns name) jsonBytes);
              match err with
              | Some e => mret (Err ("adding schema " +:+ name +:+ ": " +:+ e))
              | None => addResources ns c rest (schemaNames ++ [name])
              end
          end
      | _ => addResources ns c rest schemaNames
      end
  end.

(** [for _, name := range schemaNames] (second pass), over the validator's
    [schemas] map. *)
Fixpoint compileAll (ns : string) (c : Compiler) (schemaNames : list string)
    (schemas : gmap string Schema) : Prog (gmap string Schema * option error) :=
  match schemaNames with
  | [] => mret (schemas, None)
  | name :: rest =>
      r ← call (Compiler_Compile c (schemaID ns name));
      match r with
      | Err e => mret (schemas, Some ("compiling schema " +:+ name +:+ ": " +:+ e))
      | Ok compiled => compileAll ns c rest (<[name := compiled]> schemas)
      end
  end.

(** ** Event dialect: asyncapi.go *)

Module AsyncAPI.

Record ChannelInfo : Type := {
  Name : string;
  Address : string;
  Description : string;
  MessageName : string
}.

Record AsyncAPIValidator : Type := {
  schemas : gmap string Schema;
  channels : gmap string ChannelInfo;
  compiler : Compiler;
  specPath : string
}.

Definition set_schemas (v : AsyncAPIValidator) (s : gmap string Schema) : AsyncAPIValidator :=
  {| schemas := s; channels := channels v; compiler := compiler v; specPath := specPath v |}.

Definition set_channels (v : AsyncAPIValidator) (ch : gmap string ChannelInfo) : AsyncAPIValidator :=
  {| schemas := schemas v; channels := ch; compiler := compiler v; specPath := specPath v |}.

Definition toJSONSchema : gmap string any → Go (gmap string any) :=
  toJSONSchema asyncapi_ns.

Definition getString (m : gmap string any) (key : string) : string :=
  match m !! key with
  | Some (VString val) => val
  | _ => ""
  end.

(** The [channels] block of [loadSpec]. *)
Definition parseChannels (v : AsyncAPIValidator) (spec : gmap string any) : Prog AsyncAPIValidator :=
  match spec !! "channels" with
  | Some (VMap chans) =>
      entries ← call (range_map chans);
      mret (foldl (λ v '(name, chDef),
              match chDef with
              | VMap chMap =>
                  let info := {| Name := name;
                                 Address := getString chMap "address";
                                 Description := getString chMap "description";
                                 MessageName := "" |} in
                  set_channels v (<[name := info]> (channels v))
              | _ => v
              end) v entries)
  | _ => mret v
  end.

(** The first pass of [loadSpec]. *)
Definition addComponentSchemas (v : AsyncAPIValidator) (spec : gmap string any)
    : Prog (Result (list string)) :=
  match spec !! "components" with
  | Some (VMap components) =>
      match components !! "schemas" with
      | Some (VMap schemas) =>
          entries ← call (range_map schemas);
          addResources asyncapi_ns (compiler v) entries []
      | _ => mret (Ok [])
      end
  | _ => mret (Ok [])
  end.

(** [loadSpec] returns the receiver's state after the call and the error. *)
Definition loadSpec (v : AsyncAPIValidator) : Prog (AsyncAPIValidator * option error) :=
  r ← call (os_ReadFile (specPath v));
  match r with
  | Err e => mret (v, Some ("reading spec: " +:+ e))
  | Ok data =>
      r ← call (yaml_Unmarshal data);
      match r with
      | Err e => mret (v, Some ("parsing spec: " +:+ e))
      | Ok spec =>
          v ← parseChannels v spec;
          r ← addComponentSchemas v spec;
          match r with
          | Err e => mret (v, Some e)
          | Ok schemaNames =>
              '(compiled, err) ← compileAll asyncapi_ns (compiler v) schemaNames (schemas v);
              mret (set_schemas v compiled, err)
          end
      end
  end.

(** [NewAsyncAPIValidator]: the pair [(validator, error)], [None] for nil. *)
Definition NewAsyncAPIValidator (specPath : string)
    : Prog (option AsyncAPIValidator * option error) :=
  c ← call jsonschema_NewCompiler;
  let v := {| schemas := ∅; channels := ∅; compiler := c; specPath := specPath |} in
  '(v, err) ← loadSpec v;
  match err with
  | Some e => mret (None, Some e)
  | None => mret (Some v, None)
  end.

(** [ValidateMessage], with the receiver's state after the call. *)
Definition ValidateMessage (v : AsyncAPIValidator) (schemaName : string)
    (payload : list byte) : Prog (AsyncAPIValidator * option error) :=
  match schemas v !! schemaName with
  | None => mret (v, Some ("schema not found: " +:+ schemaName))
  | Some schema =>
      r ← call (json_Unmarshal payload);
      match r with
      | Err e => mret (v, Some ("parsing message payload: " +:+ e))
      | Ok data =>
          err ← call (Schema_Validate schema data);
          match err with
          | Some e => mret (v, Some ("schema validation failed: " +:+ e))
          | None => mret (v, None)
          end
      end
  end.

Definition Channels (v : AsyncAPIValidator) : gmap string ChannelInfo := channels v.

Record EventTestResult : Type := {
  Channel : string;
  Schema_ : string;
  Passed : bool;
  Error : string;
  Payload : string
}.

Record EventContractTestSuite : Type := {
  validator : AsyncAPIValidator;
  results : list EventTestResult
}.

(** [NewEventContractTestSuite]. A nil validator never comes with a nil
    error; that combination would only fail at the first use of the suite. *)
Definition NewEventContractTestSuite (specPath : string)
    : Prog (option EventContractTestSuite * option error) :=
  '(validator, err) ← NewAsyncAPIValidator specPath;
  match validator, err with
  | Some validator, None => mret (Some {| validator := validator; results := [] |}, None)
  | _, Some e => mret (None, Some e)
  | None, None => Panic "nil pointer dereference"
  end.

(** [ValidateEvent]: the result and the suite's state after the call. *)
Definition ValidateEvent (s : EventContractTestSuite) (channel schema : string)
    (payload : list byte) : Prog (EventTestResult * EventContractTestSuite) :=
  let result := {| Channel := channel; Schema_ := schema; Passed := false;
                   Error := ""; Payload := String.string_of_list_byte payload |} in
  '(v, err) ← ValidateMessage (validator s) schema payload;
  let result :=
    match err with
    | Some e => {| Channel := Channel result; Schema_ := Schema_ result;
                   Passed := Passed result; Error := e; Payload := Payload result |}
    | None => {| Channel := Channel result; Schema_ := Schema_ result;
                 Passed := true; Error := Error result; Payload := Payload result |}
    end in
  mret (result, {| validator := v; results := results s ++ [result] |}).

Definition Results (s : EventContractTestSuite) : list EventTestResult := results s.

(** [Summary]: the two counters after the loop. *)
Definition Summary (s : EventContractTestSuite) : nat * nat :=
  foldl (λ '(passed, failed) r,
    if Passed r then (S passed, failed) else (passed, S failed)) (0, 0) (results s).

End AsyncAPI.

(** ** REST dialect: openapi.go *)

Module OpenAPI.

Record OpenAPIValidator : Type := {
  schemas : gmap string Schema;
  compiler : Compiler;
  specPath : string;
  components : gmap string any
}.

Definition set_schemas (v : OpenAPIValidator) (s : gmap string Schema) : OpenAPIValidator :=
  {| schemas := s; compiler := compiler v; specPath := specPath v;
     components := components v |}.

Definition toJSONSchema : gmap string any → Go (gmap string any) :=
  toJSONSchema openapi_ns.

(** The first pass of [loadComponentSchemas]: [for _, file := range files]. *)
Fixpoint addFiles (c : Compiler) (schemasDir : string) (files : list DirEntry)
    (schemaNames : list string) : Prog (Result (list string)) :=
  match files with
  | [] => mret (Ok schemaNames)
  | file :: rest =>
      if IsDir file || negb (strings_HasSuffix (Name_ file) ".yaml") then
        addFiles c schemasDir rest schemaNames
      else if decide (Name_ file = "_index.yaml") then
        addFiles c schemasDir rest schemaNames
      else
        filePath ← call (filepath_Join [schemasDir; Name_ file]);
        r ← call (os_ReadFile filePath);
        match r with
        | Err e => mret (Err ("reading schema file " +:+ Name_ file +:+ ": " +:+ e))
        | Ok data =>
            r ← call (yaml_Unmarshal data);
            match r with
            | Err e => mret (Err ("parsing schema file " +:+ Name_ file +:+ ": " +:+ e))
            | Ok schemas =>
                entries ← call (range_map schemas);
                r ← addResources openapi_ns c entries schemaNames;
                match r with
                | Err e => mret (Err e)
                | Ok schemaNames => addFiles c schemasDir rest schemaNames
                end
            end
        end
  end.

Definition loadComponentSchemas (v : OpenAPIValidator) (baseDir : string)
    : Prog (OpenAPIValidator * option error) :=
  schemasDir ← call (filepath_Join [baseDir; "components"; "schemas"]);
  r ← call (os_ReadDir schemasDir);
  match r with
  | Err e => mret (v, Some ("reading schemas dir: " +:+ e))
  | Ok files =>
      r ← addFiles (compiler v) schemasDir files [];
      match r with
      | Err e => mret (v, Some e)
      | Ok schemaNames =>
          '(compiled, err) ← compileAll openapi_ns (compiler v) schemaNames (schemas v);
          mret (set_schemas v compiled, err)
      end
  end.

Definition loadSpec (v : OpenAPIValidator) : Prog (OpenAPIValidator * option error) :=
  r ← call (os_ReadFile (specPath v));
  match r with
  | Err e => mret (v, Some ("reading spec: " +:+ e))
  | Ok data =>
      r ← call (yaml_Unmarshal data);
      match r with
      | Err e => mret (v, Some ("parsing spec: " +:+ e))
      | Ok spec =>
          baseDir ← call (filepath_Dir (specPath v));
          loadComponentSchemas v baseDir
      end
  end.

Definition NewOpenAPIValidator (specPath : string)
    : Prog (option OpenAPIValidator * option error) :=
  c ← call jsonschema_NewCompiler;
  let v := {| schemas := ∅; compiler := c; specPath := specPath; components := ∅ |} in
  '(v, err) ← loadSpec v;
  match err with
  | Some e => mret (None, Some e)
  | None => mret (Some v, None)
  end.

Definition ValidateResponse (v : OpenAPIValidator) (schemaName : string)
    (body : list byte) : Prog (OpenAPIValidator * option error) :=
  match schemas v !! schemaName with
  | None => mret (v, Some ("schema not found: " +:+ schemaName))
  | Some schema =>
      r ← call (json_Unmarshal body);
      match r with
      | Err e => mret (v, Some ("parsing response body: " +:+ e))
      | Ok data =>
          err ← call (Schema_Validate schema data);
          match err with
          | Some e => mret (v, Some ("schema validation failed: " +:+ e))
          | None => mret (v, None)
          end
      end
  end.

Record ContractTestResult : Type := {
  Endpoint : string;
  Method : string;
  Schema_ : string;
  Passed : bool;
  Error : string;
  RequestBody : string;
  Response_ : string
}.

Definition set_Error (r : ContractTestResult) (e : string) : ContractTestResult :=
  {| Endpoint := Endpoint r; Method := Method r; Schema_ := Schema_ r; Passed := Passed r;
     Error := e; RequestBody := RequestBody r; Response_ := Response_ r |}.

Definition set_Response (r : ContractTestResult) (b : string) : ContractTestResult :=
  {| Endpoint := Endpoint r; Method := Method r; Schema_ := Schema_ r; Passed := Passed r;
     Error := Error r; RequestBody := RequestBody r; Response_ := b |}.

Definition set_Passed (r : ContractTestResult) (b : bool) : ContractTestResult :=
  {| Endpoint := Endpoint r; Method := Method r; Schema_ := Schema_ r; Passed := b;
     Error := Error r; RequestBody := RequestBody r; Response_ := Response_ r |}.

Record ContractTestSuite : Type := {
  validator : OpenAPIValidator;
  results : list ContractTestResult
}.

Definition NewContractTestSuite (specPath : string)
    : Prog (option ContractTestSuite * option error) :=
  '(validator, err) ← NewOpenAPIValidator specPath;
  match validator, err with
  | Some validator, None => mret (Some {| validator := validator; results := [] |}, None)
  | _, Some e => mret (None, Some e)
  | None, None => Panic "nil pointer dereference"
  end.

(** [s.results = append(s.results, result); return result] *)
Definition record (v : OpenAPIValidator) (rs : list ContractTestResult)
    (result : ContractTestResult) : ContractTestResult * ContractTestSuite :=
  (result, {| validator := v; results := rs ++ [result] |}).

(** [RunTest]: the result and the suite's state after the call. A nil
    [body] is [None]. The deferred [resp.Body.Close()] runs on every return
    that follows a successful [client.Do]. *)
Definition RunTest (s : ContractTestSuite) (ctx : Context) (client : Client)
    (baseURL method path : string) (body : option (list byte)) (expectedStatus : Z)
    (responseSchema : string) : Prog (ContractTestResult * ContractTestSuite) :=
  let result := {| Endpoint := path; Method := method; Schema_ := responseSchema;
                   Passed := false; Error := "";
                   RequestBody := String.string_of_list_byte (default [] body);
                   Response_ := "" |} in
  let url := baseURL +:+ path in
  r ← call (http_NewRequestWithContext ctx method url body);
  match r with
  | Err e => mret (record (validator s) (results s) (set_Error result ("creating request: " +:+ e)))
  | Ok req =>
      let req := Header_Set req "Content-Type" "application/json" in
      r ← call (Client_Do client req);
      match r with
      | Err e =>
          mret (record (validator s) (results s) (set_Error result ("executing request: " +:+ e)))
      | Ok resp =>
          '(respBody, _) ← call (io_ReadAll (Body resp));
          let result := set_Response result (String.string_of_list_byte respBody) in
          if decide (StatusCode resp ≠ expectedStatus) then
            let result := set_Error result
              ("expected status " +:+ pretty expectedStatus +:+ ", got " +:+
               pretty (StatusCode resp)) in
            _ ← call (Body_Close (Body resp));
            mret (record (validator s) (results s) result)
          else if decide (responseSchema ≠ "" ∧ 0 < length respBody) then
            '(v, err) ← ValidateResponse (validator s) responseSchema respBody;
            match err with
            | Some e =>
                _ ← call (Body_Close (Body resp));
                mret (record v (results s) (set_Error result ("schema validation: " +:+ e)))
            | None =>
                _ ← call (Body_Close (Body resp));
                mret (record v (results s) (set_Passed result true))
            end
          else
            _ ← call (Body_Close (Body resp));
            mret (record (validator s) (results s) (set_Passed result true))
      end
  end.

Definition Results (s : ContractTestSuite) : list ContractTestResult := results s.

Definition Summary (s : ContractTestSuite) : nat * nat :=
  foldl (λ '(passed, failed) r,
    if Passed r then (S passed, failed) else (passed, S failed)) (0, 0) (results s).

End OpenAPI.

(** ** A model of the libraries *)

(** References of a translated schema, at the positions the translator
    rewrites: the node's own [$ref] and, recursively, the nodes under
    [properties], [items] and [allOf]. *)
Fixpoint schema_refs (doc : any) : list string :=
  match doc with
  | VMap m =>
      map_fold (λ k val acc,
        (if decide (k = "$ref") then
           match val with VString r => [r] | _ => [] end
         else if decide (k = "properties") then
           match val with
           | VMap props => map_fold (λ _ p acc, schema_refs p ++ acc) [] props
           | _ => []
           end
         else if decide (k = "items") then schema_refs val
         else if decide (k = "allOf") then
           match val with
           | VSeq allOf => flat_map schema_refs allOf
           | _ => []
           end
         else []) ++ acc) [] m
  | _ => []
  end.

(** The resource a reference points into: the reference up to its
    fragment. *)
Fixpoint ref_resource (r : string) : string :=
  match r with
  | EmptyString => EmptyString
  | String c rest =>
      if Ascii.eqb c "#"%char then EmptyString else String c (ref_resource rest)
  end.

(** Modelled from the spec: the schema compiler
    (github.com/santhosh-tekuri/jsonschema/v5) and the other libraries are
    not part of this repository. Following §4.2 and §9, a compiler is a
    registry from resource identifiers to documents: registration only
    stores the resource under its identifier, and the outcome of compiling
    an identifier is decided by the registry's content. Files, decoders and
    validators are functions of their arguments; [lib_range] is the order
    in which the runtime iterates over a map. *)
Record Library : Type := {
  lib_ReadFile : string → Result (list byte);
  lib_ReadDir : string → Result (list DirEntry);
  lib_Dir : string → string;
  lib_Join : list string → string;
  lib_yaml : list byte → Result (gmap string any);
  lib_range : gmap string any → list (string * any);
  lib_add_error : string → any → option error;
  lib_compile_error : gmap string any → string → option error;
  lib_json : list byte → Result any;
  lib_validate : Schema → any → option error;
  lib_NewRequest : Context → string → string → option (list byte) → Result Request;
  lib_Do : Client → Request → Result Response;
  lib_ReadAll : ReadCloser → list byte * option error
}.

(** The compilers created so far, by reference. *)
Definition Compilers : Type := list (gmap string any).

Definition cs_add (L : Library) (c : Compiler) (url : string) (doc : any)
    (w : Compilers) : option error * Compilers :=
  match w !! c with
  | None => (Some "invalid compiler", w)
  | Some R =>
      match lib_add_error L url doc with
      | Some e => (Some e, w)
      | None => (None, <[c := <[url := doc]> R]> w)
      end
  end.

Definition cs_compile (L : Library) (c : Compiler) (url : string)
    (w : Compilers) : Result Schema :=
  match w !! c with
  | None => Err "invalid compiler"
  | Some R =>
      match lib_compile_error L R url with
      | Some e => Err e
      | None => Ok {| Location := url |}
      end
  end.

Definition lib_handle (L : Library) (T : Type) (c : Call T) (w : Compilers) : T * Compilers :=
  match c in Call T return T * Compilers with
  | os_ReadFile name => (lib_ReadFile L name, w)
  | os_ReadDir name => (lib_ReadDir L name, w)
  | filepath_Dir path => (lib_Dir L path, w)
  | filepath_Join elem => (lib_Join L elem, w)
  | yaml_Unmarshal data => (lib_yaml L data, w)
  | range_map m => (lib_range L m, w)
  | jsonschema_NewCompiler => (length w, w ++ [∅])
  | Compiler_AddResource c url doc => cs_add L c url doc w
  | Compiler_Compile c url => (cs_compile L c url w, w)
  | json_Unmarshal data => (lib_json L data, w)
  | Schema_Validate s data => (lib_validate L s data, w)
  | http_NewRequestWithContext ctx method url body => (lib_NewRequest L ctx method url body, w)
  | Client_Do client req => (lib_Do L client req, w)
  | io_ReadAll r => (lib_ReadAll L r, w)
  | Body_Close r => (None, w)
  end.

Definition lib_of (L : Library) : Lib :=
  {| World := Compilers; handle := lib_handle L |}.

(** The runtime iterates over every entry of a map exactly once. *)
Definition range_complete (L : Library) : Prop :=
  ∀ m, lib_range L m ≡ₚ map_to_list m.

(** A reference into a [synapse://] resource that is not registered. *)
Definition dangling (R : gmap string any) (doc : any) : Prop :=
  ∃ r, r ∈ schema_refs doc ∧ String.prefix "synapse://" r = true ∧
       R !! ref_resource r = None.

(** §4.2: compiling a schema that references an unregistered resource
    fails. *)
Definition resolves_references (L : Library) : Prop :=
  ∀ R url doc, R !! url = Some doc → dangling R doc →
    is_Some (lib_compile_error L R url).

(** Which library an event calls into. *)
Definition is_AddResource (ev : Event) : bool :=
  match ev with
  | existT _ (c, _) => match c with Compiler_AddResource _ _ _ => true | _ => false end
  end.

Definition is_Compile (ev : Event) : bool :=
  match ev with
  | existT _ (c, _) => match c with Compiler_Compile _ _ => true | _ => false end
  end.

Definition is_Validate (ev : Event) : bool :=
  match ev with
  | existT _ (c, _) => match c with Schema_Validate _ _ => true | _ => false end
  end.

Definition is_compiler_call (ev : Event) : bool :=
  match ev with
  | existT _ (c, _) =>
      match c with
      | jsonschema_NewCompiler | Compiler_AddResource _ _ _ | Compiler_Compile _ _ => true
      | _ => false
      end
  end.

(** ** A small library instance, for running examples *)

Module Stub.

(** Resources reached from [todo] in at most [fuel] reference steps. *)
Fixpoint reached (fuel : nat) (R : gmap string any) (todo : list string) : list string :=
  match fuel with
  | O => todo
  | S fuel =>
      todo ++ reached fuel R
        (flat_map (λ u, match R !! u with
                        | Some doc => ref_resource <$> schema_refs doc
                        | None => []
                        end) todo)
  end.

(** Compilation resolves references transitively and fails on the first
    resource that is not registered. *)
Definition compile_error (R : gmap string any) (url : string) : option error :=
  match List.find (λ u, bool_decide (R !! u = None)) (reached (S (size R)) R [url]) with
  | Some u => Some ("jsonschema: no resource " +:+ u)
  | None => None
  end.

(** File contents stand for the position of the document they decode to. *)
Definition content (i : nat) : list byte := replicate (S i) Byte.x01.

Fixpoint position (name : string) (files : list (string * gmap string any)) : option nat :=
  match files with
  | [] => None
  | (n, _) :: rest => if decide (n = name) then Some 0 else S <$> position name rest
  end.

Definition join (elem : list string) : string :=
  foldr (λ e acc, if decide (acc = "") then e else e +:+ "/" +:+ acc) "" elem.

(** A library over the files [files] (path and decoded document) and one
    directory listing [dir]; the JSON decoder knows the payloads [payloads]
    and a compiled schema accepts exactly the mappings. *)
Definition library (files : list (string * gmap string any)) (dir : list DirEntry)
    (payloads : list (list byte * any))
    (range : gmap string any → list (string * any)) : Library :=
  {| lib_ReadFile name :=
       match position name files with
       | Some i => Ok (content i)
       | None => Err ("open " +:+ name +:+ ": no such file or directory")
       end;
     lib_ReadDir name := Ok dir;
     lib_Dir path := "spec";
     lib_Join := join;
     lib_yaml data :=
       match files !! pred (length data) with
       | Some (_, doc) => Ok doc
       | None => Err "yaml: unmarshal errors"
       end;
     lib_range := range;
     lib_add_error url doc := None;
     lib_compile_error := compile_error;
     lib_json data :=
       match List.find (λ p, bool_decide (p.1 = data)) payloads with
       | Some p => Ok p.2
       | None => Err "invalid character"
       end;
     lib_validate s data :=
       match data with
       | VMap _ => None
       | _ => Some "jsonschema: expected object"
       end;
     lib_NewRequest ctx method url body :=
       if decide (method = "") then Err "net/http: invalid method"
       else Ok {| req_Method := method; req_URL := url; req_Body := body; req_Header := [] |};
     lib_Do client req :=
       if decide (req_Method req = "GET") then Ok {| StatusCode := 200; Body := 0 |}
       else Err "connection refused";
     lib_ReadAll r := ([], None) |}.

End Stub.


(** ** Programs and data used in the statements below *)

(** Two validation calls in a row on the same validator. *)
Definition ValidateMessage_twice (v : AsyncAPI.AsyncAPIValidator) (schemaName : string)
    (payload : list byte) : Prog (AsyncAPI.AsyncAPIValidator * option error * option error) :=
  '(v, err1) ← AsyncAPI.ValidateMessage v schemaName payload;
  '(v, err2) ← AsyncAPI.ValidateMessage v schemaName payload;
  mret (v, err1, err2).

Definition ValidateResponse_twice (v : OpenAPI.OpenAPIValidator) (schemaName : string)
    (body : list byte) : Prog (OpenAPI.OpenAPIValidator * option error * option error) :=
  '(v, err1) ← OpenAPI.ValidateResponse v schemaName body;
  '(v, err2) ← OpenAPI.ValidateResponse v schemaName body;
  mret (v, err1, err2).

Module Examples.

Definition bytes (s : string) : list byte := String.list_byte_of_string s.

(** A validator holding one compiled schema, [Order]. *)
Definition event_validator : AsyncAPI.AsyncAPIValidator :=
  {| AsyncAPI.schemas := {["Order" := {| Location := "synapse://asyncapi/Order" |}]};
     AsyncAPI.channels := ∅; AsyncAPI.compiler := 0; AsyncAPI.specPath := "asyncapi.yaml" |}.

Definition rest_validator : OpenAPI.OpenAPIValidator :=
  {| OpenAPI.schemas := {["Order" := {| Location := "synapse://schemas/Order" |}]};
     OpenAPI.compiler := 0; OpenAPI.specPath := "openapi.yaml"; OpenAPI.components := ∅ |}.

(** A library whose JSON decoder accepts the payloads [{}] and [[]]. *)
Definition plain : Library :=
  Stub.library [] [] [(bytes "{}", VMap ∅); (bytes "[]", VSeq [])] map_to_list.

(** A node that refers to another schema, and its translation. *)
Definition item_ref : gmap string any :=
  {["$ref" := VString "#/components/schemas/OrderItem";
    "description" := VString "one line of the order"]}.

Definition item_ref_translated : gmap string any :=
  {["$schema" := VString draft_2020_12;
    "$ref" := VString "synapse://asyncapi/OrderItem";
    "description" := VString "one line of the order"]}.

(** An object schema with nested nodes under [properties], [items] and
    [allOf], and values of other shapes where nodes are expected. *)
Definition order_node : gmap string any :=
  {["type" := VString "object";
    "required" := VSeq [VString "items"];
    "properties" := VMap {["items" := VMap {["type" := VString "array";
                                             "items" := VMap item_ref]};
                           "note" := VInt 7]};
    "allOf" := VSeq [VMap item_ref; VBool true]]}.

Definition order_node_translated : gmap string any :=
  {["$schema" := VString draft_2020_12;
    "type" := VString "object";
    "required" := VSeq [VString "items"];
    "properties" := VMap {["items" := VMap {["$schema" := VString draft_2020_12;
                                             "type" := VString "array";
                                             "items" := VMap item_ref_translated]}]};
    "allOf" := VSeq [VMap item_ref_translated; VNil]]}.

(** A node whose [$ref] is a number (YAML [$ref: 42]). *)
Definition numeric_ref : gmap string any := {["$ref" := VInt 42]}.

(** A node whose other structural keywords have unexpected shapes. *)
Definition odd_shapes : gmap string any :=
  {["properties" := VInt 1; "items" := VString "x"; "allOf" := VBool false]}.

End Examples.

(** The arguments of one [RunTest] call. *)
Record RunTestArgs : Type := {
  arg_ctx : Context;
  arg_client : Client;
  arg_baseURL : string;
  arg_method : string;
  arg_path : string;
  arg_body : option (list byte);
  arg_expectedStatus : Z;
  arg_responseSchema : string
}.

Definition RunTest_with (s : OpenAPI.ContractTestSuite) (a : RunTestArgs)
    : Prog (OpenAPI.ContractTestResult * OpenAPI.ContractTestSuite) :=
  OpenAPI.RunTest s (arg_ctx a) (arg_client a) (arg_baseURL a) (arg_method a) (arg_path a)
    (arg_body a) (arg_expectedStatus a) (arg_responseSchema a).

(** A test run: a sequence of calls on one suite. *)
Fixpoint ValidateEvents (s : AsyncAPI.EventContractTestSuite)
    (calls : list (string * string * list byte)) : Prog AsyncAPI.EventContractTestSuite :=
  match calls with
  | [] => mret s
  | (channel, schema, payload) :: rest =>
      '(_, s) ← AsyncAPI.ValidateEvent s channel schema payload;
      ValidateEvents s rest
  end.

Fixpoint RunTests (s : OpenAPI.ContractTestSuite) (calls : list RunTestArgs)
    : Prog OpenAPI.ContractTestSuite :=
  match calls with
  | [] => mret s
  | a :: rest => '(_, s) ← RunTest_with s a; RunTests s rest
  end.

(** What the switch of [toJSONSchema] stores under key [k] for the value
    [val] of the source node: [None] when it stores nothing. *)
Definition translated_value (ns : string) (k : string) (val : any) : Go (option any) :=
  if decide (k = "$ref") then go_bind (rewrite_ref ns val) (λ r, Returns (Some r))
  else if decide (k = "properties") then
    match val with
    | VMap props => go_bind (convertProperties ns props) (λ r, Returns (Some (VMap r)))
    | _ => Returns None
    end
  else if decide (k = "items") then
    match val with
    | VMap items => go_bind (toJSONSchema ns items) (λ r, Returns (Some (VMap r)))
    | _ => Returns None
    end
  else if decide (k = "allOf") then
    match val with
    | VSeq allOf =>
        go_bind (convertAllOf_with (toJSONSchema_node ns) allOf) (λ r, Returns (Some (VSeq r)))
    | _ => Returns None
    end
  else Returns (Some val).

(** [strings.Join(parts, "/")]. *)
Fixpoint strings_Join_slash (parts : list string) : string :=
  match parts with
  | [] => ""
  | [p] => p
  | p :: ps => p +:+ "/" +:+ strings_Join_slash ps
  end.

Fixpoint has_slash (s : string) : bool :=
  match s with
  | EmptyString => false
  | String c rest => Ascii.eqb c "/"%char || has_slash rest
  end.

(** ** Observations on runs, for the properties of the loaders *)

Definition is_error (o : option error) : bool :=
  match o with Some _ => true | None => false end.

(** The calls that reported an error to their caller. *)
Definition is_failure (ev : Event) : bool :=
  match ev with
  | existT _ (c, t) =>
      match c in Call T return T → bool with
      | os_ReadFile _ => λ r, negb (is_Ok r)
      | os_ReadDir _ => λ r, negb (is_Ok r)
      | yaml_Unmarshal _ => λ r, negb (is_Ok r)
      | Compiler_AddResource _ _ _ => is_error
      | Compiler_Compile _ _ => λ r, negb (is_Ok r)
      | json_Unmarshal _ => λ r, negb (is_Ok r)
      | Schema_Validate _ _ => is_error
      | http_NewRequestWithContext _ _ _ _ => λ r, negb (is_Ok r)
      | Client_Do _ _ => λ r, negb (is_Ok r)
      | io_ReadAll _ => λ r, is_error r.2
      | Body_Close _ => is_error
      | filepath_Dir _ => λ _, false
      | filepath_Join _ => λ _, false
      | range_map _ => λ _, false
      | jsonschema_NewCompiler => λ _, false
      end t
  end.

(** No call of the run failed. *)
Definition clean (t : list Event) : Prop := Forall (λ ev, is_failure ev = false) t.

(** The run ended on a failed call, all earlier ones having succeeded. *)
Definition ends_in_failure (t : list Event) : Prop :=
  ∃ t0 ev, t = t0 ++ [ev] ∧ clean t0 ∧ is_failure ev = true.

(** The calls of a load come in two passes: once the compiler has been
    asked to compile, nothing else is called but [Compile]. *)
Definition two_pass (t : list Event) : Prop :=
  ∃ t1 t2, t = t1 ++ t2 ∧
           Forall (λ ev, is_Compile ev = false) t1 ∧
           Forall (λ ev, is_Compile ev = true) t2.

(** What a load reports, read off the calls it made: an error exactly when
    its last call failed, and the calls in two passes. *)
Definition load_report {V} (o : Outcome (V * option error)) (t : list Event) : Prop :=
  two_pass t ∧
  match o with
  | Done (_, None) => clean t
  | Done (_, Some e) => ends_in_failure t ∧ e ≠ ""
  | Panicked _ => clean t
  end.

Definition trace {L : Lib} {A} (r : Outcome A * World L * list Event) : list Event := r.2.
Definition outcome {L : Lib} {A} (r : Outcome A * World L * list Event) : Outcome A := r.1.1.

(** ** What a mapping of named schemas registers *)

(** The document the first pass registers for the value [val] of an entry:
    none when the value is not a mapping, when its translation panics, or
    when the translation cannot be serialised. *)
Definition resource_of (ns : string) (val : any) : option any :=
  match val with
  | VMap schemaMap =>
      match toJSONSchema ns schemaMap with
      | Returns jsonSchema =>
          match json_Marshal (VMap jsonSchema) with
          | Ok jsonBytes => Some jsonBytes
          | Err _ => None
          end
      | Panics _ => None
      end
  | _ => None
  end.

(** The entries on which the translator panics. *)
Definition entry_panics (ns : string) (val : any) : bool :=
  match val with
  | VMap schemaMap => negb (returns (toJSONSchema ns schemaMap))
  | _ => false
  end.

(** The names and documents registered for a sequence of entries. *)
Definition registered (ns : string) (entries : list (string * any)) : list (string * any) :=
  omap (λ e, (λ d, (e.1, d)) <$> resource_of ns e.2) entries.

(** The registry after registering [rs] on top of [R], in order. *)
Definition register_all (ns : string) (R : gmap string any) (rs : list (string * any))
    : gmap string any :=
  foldl (λ R e, <[schemaID ns e.1 := e.2]> R) R rs.

(** The validator's map after compiling [names], in order. *)
Definition compiled_all (ns : string) (schemas : gmap string Schema) (names : list string)
    : gmap string Schema :=
  foldl (λ s name, <[name := {| Location := schemaID ns name |}]> s) schemas names.

(** [components.schemas] of an event specification, empty when either level
    is missing or is not a mapping. *)
Definition component_schemas (spec : gmap string any) : gmap string any :=
  match spec !! "components" with
  | Some (VMap components) =>
      match components !! "schemas" with
      | Some (VMap schemas) => schemas
      | _ => ∅
      end
  | _ => ∅
  end.

#[export] Instance schemaID_inj (ns : string) : Inj (=) (=) (schemaID ns).
Proof. unfold schemaID. apply _. Qed.

(** The registry a mapping of named schemas leads to, whatever the order of
    iteration: each registered document under the identifier of its name. *)
Definition registry (ns : string) (schemas : gmap string any) : gmap string any :=
  kmap (schemaID ns) (omap (resource_of ns) schemas).

(** The three conditions under which a mapping of named schemas loads. *)
Definition translates (ns : string) (schemas : gmap string any) : Prop :=
  ∀ name val, schemas !! name = Some val → entry_panics ns val = false.

Definition registers (L : Library) (ns : string) (schemas : gmap string any) : Prop :=
  ∀ name val d, schemas !! name = Some val → resource_of ns val = Some d →
    lib_add_error L (schemaID ns name) d = None.

Definition compiles (L : Library) (ns : string) (schemas R : gmap string any) : Prop :=
  ∀ name val d, schemas !! name = Some val → resource_of ns val = Some d →
    lib_compile_error L R (schemaID ns name) = None.

(** The compiled schema a validator holds for a registered name. *)
Definition compiled_for (ns : string) (schemas : gmap string any) (name : string)
    : option Schema :=
  (λ _, {| Location := schemaID ns name |}) <$> (schemas !! name ≫= resource_of ns).

(** ** The component files of the REST loader *)

(** The directory entries [loadComponentSchemas] opens: regular entries
    with the suffix [.yaml], except the index file. *)
Definition is_schema_file (file : DirEntry) : bool :=
  negb (IsDir file || negb (strings_HasSuffix (Name_ file) ".yaml")) &&
  negb (bool_decide (Name_ file = "_index.yaml")).

(** The file [file] of the directory [dir] reads and parses as [doc]. *)
Definition reads_as (L : Library) (dir : string) (file : DirEntry)
    (doc : gmap string any) : Prop :=
  ∃ data, lib_ReadFile L (lib_Join L [dir; Name_ file]) = Ok data ∧
          lib_yaml L data = Ok doc.

(** The registry after the documents [docs], registered in this order: a
    name defined again replaces the earlier document. *)
Definition registry_of_files (ns : string) (R : gmap string any)
    (docs : list (gmap string any)) : gmap string any :=
  foldl (λ R doc, registry ns doc ∪ R) R docs.

(** The compiled schema held for a name that some document registers. *)
Definition compiled_for_files (ns : string) (docs : list (gmap string any))
    (name : string) : option Schema :=
  if bool_decide (Exists (λ doc, is_Some (doc !! name ≫= resource_of ns)) docs)
  then Some {| Location := schemaID ns name |} else None.

(** ** Specifications used to run the loaders *)

Module Samples.

Definition ref_to (target : string) : any :=
  VMap {["$ref" := VString ("#/components/schemas/" +:+ target)]}.

(** Two schemas that refer to each other, an entry that is not a mapping
    and an entry whose translation cannot be serialised. *)
Definition mutual : gmap string any :=
  {["A" := VMap {["type" := VString "object";
                  "properties" := VMap {["b" := ref_to "B"]}]};
    "B" := VMap {["type" := VString "object";
                  "properties" := VMap {["a" := ref_to "A"]}]};
    "note" := VInt 3;
    "bad" := VMap {["default" := VFloat FNaN]}]}.

Definition event_spec : gmap string any :=
  {["channels" := VMap {["orders" := VMap {["address" := VString "orders.ingest"]};
                         "draft" := VString "todo"]};
    "components" := VMap {["schemas" := VMap mutual]}]}.

(** A schema that refers to a name the document does not declare. *)
Definition broken_spec : gmap string any :=
  {["components" := VMap {["schemas" := VMap {["A" := ref_to "Missing"]}]}]}.

Definition payloads : list (list byte * any) :=
  [(Examples.bytes "{}", VMap ∅); (Examples.bytes "[]", VSeq [])].

(** The runtime visits the entries in the order of [map_to_list], or in the
    opposite order. *)
Definition event_library : Library :=
  Stub.library [("asyncapi.yaml", event_spec)] [] payloads map_to_list.

Definition event_library_reversed : Library :=
  Stub.library [("asyncapi.yaml", event_spec)] [] payloads (λ m, reverse (map_to_list m)).

Definition broken_library : Library :=
  Stub.library [("asyncapi.yaml", broken_spec)] [] payloads map_to_list.

(** Two component files that both define [Dup], next to entries of the
    directory that are not schema files. *)
Definition file_a : gmap string any :=
  {["Dup" := VMap {["type" := VString "string"]};
    "OnlyA" := VMap {["type" := VString "object"]}]}.

Definition file_b : gmap string any :=
  {["Dup" := VMap {["type" := VString "integer"]}]}.

Definition listing : list DirEntry :=
  [{| Name_ := "_index.yaml"; IsDir := false |};
   {| Name_ := "a.yaml"; IsDir := false |};
   {| Name_ := "b.yaml"; IsDir := false |};
   {| Name_ := "notes.md"; IsDir := false |};
   {| Name_ := "old.yaml"; IsDir := true |}].

Definition rest_library : Library :=
  Stub.library [("openapi.yaml", ∅);
                ("spec/components/schemas/a.yaml", file_a);
                ("spec/components/schemas/b.yaml", file_b)]
    listing payloads map_to_list.

(** The validator of [event_spec]. *)
Definition event_validator : AsyncAPI.AsyncAPIValidator :=
  {| AsyncAPI.schemas := {["A" := {| Location := "synapse://asyncapi/A" |};
                           "B" := {| Location := "synapse://asyncapi/B" |}]};
     AsyncAPI.channels := {["orders" := {| AsyncAPI.Name := "orders";
                                           AsyncAPI.Address := "orders.ingest";
                                           AsyncAPI.Description := "";
                                           AsyncAPI.MessageName := "" |}]};
     AsyncAPI.compiler := 0; AsyncAPI.specPath := "asyncapi.yaml" |}.

Definition rest_validator : OpenAPI.OpenAPIValidator :=
  {| OpenAPI.schemas := {["Dup" := {| Location := "synapse://schemas/Dup" |};
                          "OnlyA" := {| Location := "synapse://schemas/OnlyA" |}]};
     OpenAPI.compiler := 0; OpenAPI.specPath := "openapi.yaml"; OpenAPI.components := ∅ |}.

End Samples.

(** ** When the translator returns *)

(** The check of one key: a [$ref] must hold a string; nodes under
    [properties], [items] and [allOf] are checked in turn, values of other
    shapes and other keys are not looked at. *)
Definition ref_check (check : any → bool) (k : string) (val : any) : bool :=
  if decide (k = "$ref") then
    match val with VString _ => true | _ => false end
  else if decide (k = "properties") then
    match val with
    | VMap props => map_fold (λ _ p ok, check p && ok) true props
    | _ => true
    end
  else if decide (k = "items") then check val
  else if decide (k = "allOf") then
    match val with
    | VSeq allOf => forallb check allOf
    | _ => true
    end
  else true.

(** Every [$ref] the translator reaches in [node] holds a string. *)
Fixpoint refs_are_strings (node : any) : bool :=
  match node with
  | VMap m => map_fold (λ k val ok, ref_check refs_are_strings k val && ok) true m
  | _ => true
  end.

(** Nesting depth of a value. *)
Fixpoint depth (x : any) : nat :=
  match x with
  | VSeq l => S (foldr (λ y n, depth y `max` n) 0 l)
  | VMap m => S (map_fold (λ _ y n, depth y `max` n) 0 m)
  | _ => 0
  end.

(** ** Observations on the runs of the test suites *)

Definition is_parse_or_validate (ev : Event) : bool :=
  match ev with
  | existT _ (c, _) =>
      match c with
      | json_Unmarshal _ | Schema_Validate _ _ => true
      | _ => false
      end
  end.

Definition is_Close (ev : Event) : bool :=
  match ev with
  | existT _ (c, _) => match c with Body_Close _ => true | _ => false end
  end.

(** A [client.Do] that returned a response. *)
Definition is_response (ev : Event) : bool :=
  match ev with
  | existT _ (c, t) =>
      match c in Call T return T → bool with
      | Client_Do _ _ => λ r, is_Ok r
      | _ => λ _, false
      end t
  end.

(** A request sent with [client.Do], whatever the answer. *)
Definition is_request (ev : Event) : bool :=
  match ev with
  | existT _ (c, _) => match c with Client_Do _ _ => true | _ => false end
  end.

Definition count (p : Event → bool) (t : list Event) : nat := length (filter (λ ev, p ev = true) t).

(** The result [RunTest] starts from. *)
Definition blank_result (method path : string) (body : option (list byte))
    (responseSchema : string) : OpenAPI.ContractTestResult :=
  {| OpenAPI.Endpoint := path; OpenAPI.Method := method; OpenAPI.Schema_ := responseSchema;
     OpenAPI.Passed := false; OpenAPI.Error := "";
     OpenAPI.RequestBody := String.string_of_list_byte (default [] body);
     OpenAPI.Response_ := "" |}.

(** ** Channels of an event specification *)

(** The metadata [loadSpec] keeps for the channel [name] defined by
    [chDef]: none when the definition is not a mapping. *)
Definition channel_info (name : string) (chDef : any) : option AsyncAPI.ChannelInfo :=
  match chDef with
  | VMap chMap =>
      Some {| AsyncAPI.Name := name;
              AsyncAPI.Address := AsyncAPI.getString chMap "address";
              AsyncAPI.Description := AsyncAPI.getString chMap "description";
              AsyncAPI.MessageName := "" |}
  | _ => None
  end.

(** The [channels] section, empty when missing or not a mapping. *)
Definition channel_entries (spec : gmap string any) : gmap string any :=
  match spec !! "channels" with
  | Some (VMap chans) => chans
  | _ => ∅
  end.

(** The file a call opens, when the call is [os.ReadFile]. *)
Definition read_path (ev : Event) : option string :=
  match ev with
  | existT _ (c, _) => match c with os_ReadFile name => Some name | _ => None end
  end.

(** A component file whose schema refers to a file the directory does not
    have. *)
Definition dangling_file : gmap string any :=
  {["Order" := VMap {["$ref" := VString "./Customer.yaml#/Customer"]}]}.

Definition broken_rest_library : Library :=
  Stub.library [("openapi.yaml", ∅); ("spec/components/schemas/order.yaml", dangling_file)]
    [{| Name_ := "order.yaml"; IsDir := false |}] Samples.payloads map_to_list.

(** ** Libraries that answer by argument *)

(** [json.Unmarshal] and [Schema.Validate] are functions of their arguments:
    what they answer does not depend on the state the library is in. The
    library may still change its state at every call. *)
Definition answers_by_argument (L : Lib) : Prop :=
  (∀ data w w', (handle L (json_Unmarshal data) w).1 = (handle L (json_Unmarshal data) w').1) ∧
  (∀ s x w w', (handle L (Schema_Validate s x) w).1 = (handle L (Schema_Validate s x) w').1).

(** A library with a state of its own: it counts the calls it has answered,
    next to the compilers of [L], and answers as [L] does. *)
Definition counting (L : Library) : Lib :=
  {| World := nat * Compilers;
     handle T c w := let '(r, cs) := lib_handle L T c w.2 in (r, (S w.1, cs)) |}.

(** ** Entries the first pass passes over *)

(** The value of a named entry that the first pass of a loader passes over
    with [continue]: it is not a mapping, or it is a mapping whose
    translation [json.Marshal] refuses. *)
Definition skipped (ns : string) (val : any) : Prop :=
  match val with
  | VMap schemaMap =>
      ∃ jsonSchema, toJSONSchema ns schemaMap = Returns jsonSchema ∧
                    is_Ok (json_Marshal (VMap jsonSchema)) = false
  | _ => True
  end.

(** An entry that loads: it is registered, [AddResource] accepts its
    document and its name compiles against the registry [R]. *)
Definition entry_loads (L : Library) (ns : string) (R : gmap string any)
    (name : string) (val : any) : Prop :=
  ∃ d, resource_of ns val = Some d ∧
       lib_add_error L (schemaID ns name) d = None ∧
       lib_compile_error L R (schemaID ns name) = None.
(** ** Running programs *)

Lemma run_bind (L : Lib) {A B} (p : Prog A) (f : A → Prog B) (w : World L) :
  run L (p ≫= f) w =
  match run L p w with
  | (Done a, w1, t1) => let '(o, w2, t2) := run L (f a) w1 in (o, w2, t1 ++ t2)
  | (Panicked msg, w1, t1) => (Panicked msg, w1, t1)
  end.
Proof.
  revert w. induction p as [a|msg|T c k IH]; intros w; simpl.
  - by destruct (run L (f a) w) as [[o w2] t2].
  - done.
  - destruct (handle L c w) as [t w1]. unfold mbind, prog_mbind in IH.
    rewrite IH. destruct (run L (k t) w1) as [[[a|msg] w2] t2]; [|done].
    by destruct (run L (f a) w2) as [[o w3] t3].
Qed.

Lemma run_prog_bind (L : Lib) {A B} (p : Prog A) (f : A → Prog B) (w : World L) :
  run L (prog_bind f p) w =
  match run L p w with
  | (Done a, w1, t1) => let '(o, w2, t2) := run L (f a) w1 in (o, w2, t1 ++ t2)
  | (Panicked msg, w1, t1) => (Panicked msg, w1, t1)
  end.
Proof. apply run_bind. Qed.

Lemma run_call (L : Lib) {T} (c : Call T) (w : World L) :
  run L (call c) w = (Done (handle L c w).1, (handle L c w).2, [event c (handle L c w).1]).
Proof. simpl. by destruct (handle L c w). Qed.

Lemma run_lift (L : Lib) {A} (x : Go A) (w : World L) :
  run L (lift x) w =
  (match x with Returns a => Done a | Panics msg => Panicked msg end, w, []).
Proof. by destruct x. Qed.

(** ** Validation facade *)

Section facade.
Context (L : Lib).
Implicit Types (w : World L) (payload body : list byte).

(** What a call to [ValidateMessage] does, by cases on the lookup and on
    the answers of the two library calls it can make. *)
Lemma run_ValidateMessage v name payload w :
  run L (AsyncAPI.ValidateMessage v name payload) w =
  match AsyncAPI.schemas v !! name with
  | None => (Done (v, Some ("schema not found: " +:+ name)), w, [])
  | Some schema =>
      let '(r, w1) := handle L (json_Unmarshal payload) w in
      match r with
      | Err e =>
          (Done (v, Some ("parsing message payload: " +:+ e)), w1,
           [event (json_Unmarshal payload) (Err e)])
      | Ok data =>
          let '(err, w2) := handle L (Schema_Validate schema data) w1 in
          (Done (v, match err with
                    | Some e => Some ("schema validation failed: " +:+ e)
                    | None => None
                    end), w2,
           [event (json_Unmarshal payload) (Ok data);
            event (Schema_Validate schema data) err])
      end
  end.
Proof.
  unfold AsyncAPI.ValidateMessage. destruct (AsyncAPI.schemas v !! name) as [schema|]; [|done].
  simpl. destruct (handle L (json_Unmarshal payload) w) as [[data|e] w1]; simpl; [|done].
  by destruct (handle L (Schema_Validate schema data) w1) as [[e|] w2].
Qed.

Lemma run_ValidateResponse v name body w :
  run L (OpenAPI.ValidateResponse v name body) w =
  match OpenAPI.schemas v !! name with
  | None => (Done (v, Some ("schema not found: " +:+ name)), w, [])
  | Some schema =>
      let '(r, w1) := handle L (json_Unmarshal body) w in
      match r with
      | Err e =>
          (Done (v, Some ("parsing response body: " +:+ e)), w1,
           [event (json_Unmarshal body) (Err e)])
      | Ok data =>
          let '(err, w2) := handle L (Schema_Validate schema data) w1 in
          (Done (v, match err with
                    | Some e => Some ("schema validation failed: " +:+ e)
                    | None => None
                    end), w2,
           [event (json_Unmarshal body) (Ok data);
            event (Schema_Validate schema data) err])
      end
  end.
Proof.
  unfold OpenAPI.ValidateResponse. destruct (OpenAPI.schemas v !! name) as [schema|]; [|done].
  simpl. destruct (handle L (json_Unmarshal body) w) as [[data|e] w1]; simpl; [|done].
  by destruct (handle L (Schema_Validate schema data) w1) as [[e|] w2].
Qed.

(** The error of a validation call is never the empty message. *)
Lemma ValidateMessage_error_nonempty v name payload w v' e w' t :
  run L (AsyncAPI.ValidateMessage v name payload) w = (Done (v', Some e), w', t) → e ≠ "".
Proof.
  rewrite run_ValidateMessage. destruct (AsyncAPI.schemas v !! name); [|by intros [= <- <-]].
  destruct (handle L (json_Unmarshal payload) w) as [[data|?] w1]; [|by intros [= <- <-]].
  destruct (handle L _ w1) as [[?|] ?]; by intros [= <- <-].
Qed.

Lemma ValidateResponse_error_nonempty v name body w v' e w' t :
  run L (OpenAPI.ValidateResponse v name body) w = (Done (v', Some e), w', t) → e ≠ "".
Proof.
  rewrite run_ValidateResponse. destruct (OpenAPI.schemas v !! name); [|by intros [= <- <-]].
  destruct (handle L (json_Unmarshal body) w) as [[data|?] w1]; [|by intros [= <- <-]].
  destruct (handle L _ w1) as [[?|] ?]; by intros [= <- <-].
Qed.

(** A validation call returns, and leaves the receiver as it was. *)
Lemma ValidateMessage_returns v name payload w :
  ∃ err, (run L (AsyncAPI.ValidateMessage v name payload) w).1.1 = Done (v, err).
Proof.
  rewrite run_ValidateMessage. destruct (AsyncAPI.schemas v !! name); [|by eexists].
  destruct (handle L (json_Unmarshal payload) w) as [[data|?] w1]; [|by eexists].
  destruct (handle L _ w1) as [? ?]; by eexists.
Qed.

Lemma ValidateResponse_returns v name body w :
  ∃ err, (run L (OpenAPI.ValidateResponse v name body) w).1.1 = Done (v, err).
Proof.
  rewrite run_ValidateResponse. destruct (OpenAPI.schemas v !! name); [|by eexists].
  destruct (handle L (json_Unmarshal body) w) as [[data|?] w1]; [|by eexists].
  destruct (handle L _ w1) as [? ?]; by eexists.
Qed.

Lemma ValidateMessage_no_compiler_call v name payload w :
  Forall (λ ev, is_compiler_call ev = false)
    (run L (AsyncAPI.ValidateMessage v name payload) w).2.
Proof.
  rewrite run_ValidateMessage. destruct (AsyncAPI.schemas v !! name); [|by constructor].
  destruct (handle L (json_Unmarshal payload) w) as [[data|?] w1]; [|by repeat constructor].
  destruct (handle L _ w1) as [? ?]; by repeat constructor.
Qed.

Lemma ValidateResponse_no_compiler_call v name body w :
  Forall (λ ev, is_compiler_call ev = false)
    (run L (OpenAPI.ValidateResponse v name body) w).2.
Proof.
  rewrite run_ValidateResponse. destruct (OpenAPI.schemas v !! name); [|by constructor].
  destruct (handle L (json_Unmarshal body) w) as [[data|?] w1]; [|by repeat constructor].
  destruct (handle L _ w1) as [? ?]; by repeat constructor.
Qed.
End facade.

(** C4. For a schema name that is not in the validator's map of compiled
    schemas, and every payload, [ValidateMessage] and [ValidateResponse]
    return the error "schema not found: <name>", whatever the libraries do
    (no library is called at all); they never return a nil error. *)
Theorem unknown_schema_is_error (L : Lib) (w : World L) (name : string) (payload : list byte) :
  (∀ v, AsyncAPI.schemas v !! name = None →
     run L (AsyncAPI.ValidateMessage v name payload) w =
     (Done (v, Some ("schema not found: " +:+ name)), w, [])) ∧
  (∀ v, OpenAPI.schemas v !! name = None →
     run L (OpenAPI.ValidateResponse v name payload) w =
     (Done (v, Some ("schema not found: " +:+ name)), w, [])).
Proof.
  split; intros v Hv.
  - by rewrite run_ValidateMessage, Hv.
  - by rewrite run_ValidateResponse, Hv.
Qed.

Lemma unknown_schema_is_error_witness :
  run (lib_of Examples.plain)
    (AsyncAPI.ValidateMessage Examples.event_validator "NoSuchSchema" (Examples.bytes "{}")) [] =
  (Done (Examples.event_validator, Some "schema not found: NoSuchSchema"), [], []) ∧
  run (lib_of Examples.plain)
    (OpenAPI.ValidateResponse Examples.rest_validator "NoSuchSchema" (Examples.bytes "{}")) [] =
  (Done (Examples.rest_validator, Some "schema not found: NoSuchSchema"), [], []).
Proof.
  split.
  - apply (proj1 (unknown_schema_is_error (lib_of Examples.plain) [] "NoSuchSchema"
                    (Examples.bytes "{}"))).
    vm_compute. reflexivity.
  - apply (proj2 (unknown_schema_is_error (lib_of Examples.plain) [] "NoSuchSchema"
                    (Examples.bytes "{}"))).
    vm_compute. reflexivity.
Defined.

(** Under [answers_by_argument] the error and the calls of a validation
    call are the same from every state of the library. *)
Lemma ValidateMessage_any_state (L : Lib) v name payload (w w' : World L) :
  answers_by_argument L →
  ∃ err t w1 w1',
    run L (AsyncAPI.ValidateMessage v name payload) w = (Done (v, err), w1, t) ∧
    run L (AsyncAPI.ValidateMessage v name payload) w' = (Done (v, err), w1', t).
Proof.
  intros [Hjson Hvalidate]. rewrite !run_ValidateMessage.
  destruct (AsyncAPI.schemas v !! name) as [schema|]; [|by eauto 6].
  specialize (Hjson payload w w').
  destruct (handle L (json_Unmarshal payload) w) as [r w1].
  destruct (handle L (json_Unmarshal payload) w') as [r' w1'].
  simpl in Hjson. subst r'. destruct r as [data|e]; [|by eauto 6].
  specialize (Hvalidate schema data w1 w1').
  destruct (handle L (Schema_Validate schema data) w1) as [err w2].
  destruct (handle L (Schema_Validate schema data) w1') as [err' w2'].
  simpl in Hvalidate. subst err'. by eauto 6.
Qed.

Lemma ValidateResponse_any_state (L : Lib) v name body (w w' : World L) :
  answers_by_argument L →
  ∃ err t w1 w1',
    run L (OpenAPI.ValidateResponse v name body) w = (Done (v, err), w1, t) ∧
    run L (OpenAPI.ValidateResponse v name body) w' = (Done (v, err), w1', t).
Proof.
  intros [Hjson Hvalidate]. rewrite !run_ValidateResponse.
  destruct (OpenAPI.schemas v !! name) as [schema|]; [|by eauto 6].
  specialize (Hjson body w w').
  destruct (handle L (json_Unmarshal body) w) as [r w1].
  destruct (handle L (json_Unmarshal body) w') as [r' w1'].
  simpl in Hjson. subst r'. destruct r as [data|e]; [|by eauto 6].
  specialize (Hvalidate schema data w1 w1').
  destruct (handle L (Schema_Validate schema data) w1) as [err w2].
  destruct (handle L (Schema_Validate schema data) w1') as [err' w2'].
  simpl in Hvalidate. subst err'. by eauto 6.
Qed.

(** C6. A validation call returns the validator as it received it (schema
    map, channel map and compiler) and makes no call into the schema
    compiler, whatever the libraries do. And for every library, with
    whatever state of its own, in which [json.Unmarshal] and
    [Schema.Validate] answer by their arguments: two calls in a row with the
    same schema name and payload return the same error, make the same
    library calls with the same answers, and leave the validator as it
    was. *)
Theorem validate_idempotent (v : AsyncAPI.AsyncAPIValidator) (v' : OpenAPI.OpenAPIValidator)
    (S : string) (P : list byte) (L : Lib) (w : World L) :
  ((∃ err, (run L (AsyncAPI.ValidateMessage v S P) w).1.1 = Done (v, err)) ∧
   (∃ err, (run L (OpenAPI.ValidateResponse v' S P) w).1.1 = Done (v', err)) ∧
   Forall (λ ev, is_compiler_call ev = false) (run L (AsyncAPI.ValidateMessage v S P) w).2 ∧
   Forall (λ ev, is_compiler_call ev = false) (run L (OpenAPI.ValidateResponse v' S P) w).2) ∧
  (answers_by_argument L →
   (∃ err t w1 w2,
      run L (AsyncAPI.ValidateMessage v S P) w = (Done (v, err), w1, t) ∧
      run L (ValidateMessage_twice v S P) w = (Done (v, err, err), w2, t ++ t)) ∧
   (∃ err t w1 w2,
      run L (OpenAPI.ValidateResponse v' S P) w = (Done (v', err), w1, t) ∧
      run L (ValidateResponse_twice v' S P) w = (Done (v', err, err), w2, t ++ t))).
Proof.
  split.
  - split_and!.
    + apply ValidateMessage_returns.
    + apply ValidateResponse_returns.
    + apply ValidateMessage_no_compiler_call.
    + apply ValidateResponse_no_compiler_call.
  - intros Hanswers. split.
    + destruct (ValidateMessage_any_state L v S P w w Hanswers)
        as (err & t & w1 & _ & Hfirst & _).
      destruct (ValidateMessage_any_state L v S P w w1 Hanswers)
        as (err' & t' & w1' & w2 & Hfirst' & Hsecond).
      rewrite Hfirst in Hfirst'. injection Hfirst' as <- <- <-.
      exists err, t, w1, w2. split; [done|].
      unfold ValidateMessage_twice. rewrite run_bind, Hfirst. simpl.
      rewrite run_bind, Hsecond. simpl. by rewrite app_nil_r.
    + destruct (ValidateResponse_any_state L v' S P w w Hanswers)
        as (err & t & w1 & _ & Hfirst & _).
      destruct (ValidateResponse_any_state L v' S P w w1 Hanswers)
        as (err' & t' & w1' & w2 & Hfirst' & Hsecond).
      rewrite Hfirst in Hfirst'. injection Hfirst' as <- <- <-.
      exists err, t, w1, w2. split; [done|].
      unfold ValidateResponse_twice. rewrite run_bind, Hfirst. simpl.
      rewrite run_bind, Hsecond. simpl. by rewrite app_nil_r.
Qed.

Lemma validate_idempotent_witness :
  ∃ err t w1 w2,
    run (counting Examples.plain)
      (AsyncAPI.ValidateMessage Examples.event_validator "Order" (Examples.bytes "[]"))
      (0, []) = (Done (Examples.event_validator, err), w1, t) ∧
    run (counting Examples.plain)
      (ValidateMessage_twice Examples.event_validator "Order" (Examples.bytes "[]"))
      (0, []) = (Done (Examples.event_validator, err, err), w2, t ++ t).
Proof.
  apply (proj2 (validate_idempotent Examples.event_validator Examples.rest_validator
                  "Order" (Examples.bytes "[]") (counting Examples.plain) (0, []))).
  split; intros; reflexivity.
Defined.

(** C7. For a registered schema name, a payload that does not parse makes
    [ValidateMessage] / [ValidateResponse] return the parse error
    ("parsing message payload: ..." / "parsing response body: ...") after the
    single call to [json.Unmarshal]: the compiled schema is not run, and the
    validator is returned unchanged. An error "schema validation failed: ..."
    is returned only when the payload parsed and the compiled schema
    rejected the parsed value. *)
Theorem parse_error_before_validation (L : Lib) (w : World L) (name : string)
    (payload : list byte) (schema : Schema) :
  (∀ v, AsyncAPI.schemas v !! name = Some schema →
     (∀ e w1, handle L (json_Unmarshal payload) w = (Err e, w1) →
        run L (AsyncAPI.ValidateMessage v name payload) w =
        (Done (v, Some ("parsing message payload: " +:+ e)), w1,
         [event (json_Unmarshal payload) (Err e)])) ∧
     (∀ v1 msg w2 t,
        run L (AsyncAPI.ValidateMessage v name payload) w = (Done (v1, Some msg), w2, t) →
        String.prefix "schema validation failed: " msg = true →
        ∃ data w1 e, handle L (json_Unmarshal payload) w = (Ok data, w1) ∧
                     handle L (Schema_Validate schema data) w1 = (Some e, w2) ∧
                     msg = "schema validation failed: " +:+ e ∧ v1 = v)) ∧
  (∀ v, OpenAPI.schemas v !! name = Some schema →
     (∀ e w1, handle L (json_Unmarshal payload) w = (Err e, w1) →
        run L (OpenAPI.ValidateResponse v name payload) w =
        (Done (v, Some ("parsing response body: " +:+ e)), w1,
         [event (json_Unmarshal payload) (Err e)])) ∧
     (∀ v1 msg w2 t,
        run L (OpenAPI.ValidateResponse v name payload) w = (Done (v1, Some msg), w2, t) →
        String.prefix "schema validation failed: " msg = true →
        ∃ data w1 e, handle L (json_Unmarshal payload) w = (Ok data, w1) ∧
                     handle L (Schema_Validate schema data) w1 = (Some e, w2) ∧
                     msg = "schema validation failed: " +:+ e ∧ v1 = v)).
Proof.
  split; intros v Hv; split.
  - intros e w1 Hparse. by rewrite run_ValidateMessage, Hv, Hparse.
  - intros v1 msg w2 t. rewrite run_ValidateMessage, Hv.
    destruct (handle L (json_Unmarshal payload) w) as [[data|e] w1].
    + destruct (handle L (Schema_Validate schema data) w1) as [[e|] w3] eqn:Hval; [|done].
      intros [= <- <- <- <-] _. by exists data, w1, e.
    + by intros [= <- <- <- <-].
  - intros e w1 Hparse. by rewrite run_ValidateResponse, Hv, Hparse.
  - intros v1 msg w2 t. rewrite run_ValidateResponse, Hv.
    destruct (handle L (json_Unmarshal payload) w) as [[data|e] w1].
    + destruct (handle L (Schema_Validate schema data) w1) as [[e|] w3] eqn:Hval; [|done].
      intros [= <- <- <- <-] _. by exists data, w1, e.
    + by intros [= <- <- <- <-].
Qed.

Lemma parse_error_before_validation_witness :
  run (lib_of Examples.plain)
    (AsyncAPI.ValidateMessage Examples.event_validator "Order" (Examples.bytes "{")) [] =
  (Done (Examples.event_validator, Some "parsing message payload: invalid character"), [],
   [event (json_Unmarshal (Examples.bytes "{")) (Err "invalid character")]) ∧
  (∃ data w1 e,
     handle (lib_of Examples.plain) (json_Unmarshal (Examples.bytes "[]")) [] = (Ok data, w1) ∧
     handle (lib_of Examples.plain)
       (Schema_Validate {| Location := "synapse://schemas/Order" |} data) w1 = (Some e, []) ∧
     "schema validation failed: jsonschema: expected object" =
       "schema validation failed: " +:+ e ∧
     Examples.rest_validator = Examples.rest_validator).
Proof.
  split.
  - apply (proj1 (proj1 (parse_error_before_validation (lib_of Examples.plain) []
                           "Order" (Examples.bytes "{")
                           {| Location := "synapse://asyncapi/Order" |})
                   Examples.event_validator ltac:(vm_compute; reflexivity))).
    vm_compute. reflexivity.
  - eapply (proj2 (proj2 (parse_error_before_validation (lib_of Examples.plain) []
                            "Order" (Examples.bytes "[]")
                            {| Location := "synapse://schemas/Order" |})
                    Examples.rest_validator ltac:(vm_compute; reflexivity))).
    + vm_compute. reflexivity.
    + vm_compute. reflexivity.
Defined.

(** ** Contract test suites *)

Lemma Summary_counts {A} (passed : A → bool) (rs : list A) (p f : nat) :
  let '(p', f') := foldl (λ '(passed_, failed_) r,
      if passed r then (S passed_, failed_) else (passed_, S failed_)) (p, f) rs in
  p' + f' = p + f + length rs.
Proof.
  revert p f. induction rs as [|r rs IH]; intros p f; simpl; [lia|].
  destruct (passed r).
  - specialize (IH (S p) f). destruct (foldl _ _ rs). lia.
  - specialize (IH p (S f)). destruct (foldl _ _ rs). lia.
Qed.

Lemma event_Summary_total (s : AsyncAPI.EventContractTestSuite) :
  (AsyncAPI.Summary s).1 + (AsyncAPI.Summary s).2 = length (AsyncAPI.results s).
Proof.
  unfold AsyncAPI.Summary.
  pose proof (Summary_counts AsyncAPI.Passed (AsyncAPI.results s) 0 0) as H.
  destruct (foldl _ _ _). simpl. lia.
Qed.

Lemma rest_Summary_total (s : OpenAPI.ContractTestSuite) :
  (OpenAPI.Summary s).1 + (OpenAPI.Summary s).2 = length (OpenAPI.results s).
Proof.
  unfold OpenAPI.Summary.
  pose proof (Summary_counts OpenAPI.Passed (OpenAPI.results s) 0 0) as H.
  destruct (foldl _ _ _). simpl. lia.
Qed.

(** A validation call, as a whole. *)
Lemma ValidateMessage_run (L : Lib) (w : World L) v name payload :
  ∃ err w1 t1, run L (AsyncAPI.ValidateMessage v name payload) w = (Done (v, err), w1, t1) ∧
               err ≠ Some "".
Proof.
  destruct (run L (AsyncAPI.ValidateMessage v name payload) w) as [[o w1] t1] eqn:Hrun.
  destruct (ValidateMessage_returns L v name payload w) as [err Herr].
  rewrite Hrun in Herr. simpl in Herr. subst o. exists err, w1, t1. split; [done|].
  intros ->. by apply ValidateMessage_error_nonempty in Hrun.
Qed.

Lemma ValidateResponse_run (L : Lib) (w : World L) v name body :
  ∃ err w1 t1, run L (OpenAPI.ValidateResponse v name body) w = (Done (v, err), w1, t1) ∧
               err ≠ Some "".
Proof.
  destruct (run L (OpenAPI.ValidateResponse v name body) w) as [[o w1] t1] eqn:Hrun.
  destruct (ValidateResponse_returns L v name body w) as [err Herr].
  rewrite Hrun in Herr. simpl in Herr. subst o. exists err, w1, t1. split; [done|].
  intros ->. by apply ValidateResponse_error_nonempty in Hrun.
Qed.

(** One [ValidateEvent] call. *)
Lemma run_ValidateEvent (L : Lib) (w : World L) s channel schema payload :
  ∃ r w' t,
    run L (AsyncAPI.ValidateEvent s channel schema payload) w =
    (Done (r, {| AsyncAPI.validator := AsyncAPI.validator s;
                 AsyncAPI.results := AsyncAPI.results s ++ [r] |}), w', t) ∧
    (AsyncAPI.Passed r = true ↔ AsyncAPI.Error r = "").
Proof.
  unfold AsyncAPI.ValidateEvent. rewrite run_bind.
  destruct (ValidateMessage_run L w (AsyncAPI.validator s) schema payload)
    as (err & w1 & t1 & -> & Hne).
  destruct err as [e|]; simpl.
  - eexists _, _, _. split; [reflexivity|]. simpl. split; [done|]. by intros ->.
  - eexists _, _, _. split; [reflexivity|]. done.
Qed.

(** One [RunTest] call, on each of its return paths. *)
Lemma run_RunTest (L : Lib) (w : World L) s a :
  ∃ r w' t,
    run L (RunTest_with s a) w =
    (Done (r, {| OpenAPI.validator := OpenAPI.validator s;
                 OpenAPI.results := OpenAPI.results s ++ [r] |}), w', t) ∧
    (OpenAPI.Passed r = true ↔ OpenAPI.Error r = "").
Proof.
  destruct a as [ctx client baseURL method path body expectedStatus responseSchema].
  unfold RunTest_with, OpenAPI.RunTest. simpl.
  destruct (handle L (http_NewRequestWithContext _ _ _ _) w) as [[req|e] w1]; simpl.
  { destruct (handle L (Client_Do _ _) w1) as [[resp|e] w2]; simpl.
    - destruct (handle L (io_ReadAll _) w2) as [[respBody ?] w3]; simpl.
      destruct (decide (StatusCode resp ≠ expectedStatus)); simpl.
      { destruct (handle L (Body_Close _) w3) as [? w4]. simpl.
        eexists _, _, _. split; [reflexivity|]. simpl. done. }
      destruct (decide (responseSchema ≠ "" ∧ 0 < length respBody)); simpl.
      + rewrite run_prog_bind.
        destruct (ValidateResponse_run L w3 (OpenAPI.validator s) responseSchema respBody)
          as (err & w4 & t4 & -> & Hne).
        destruct err as [e|]; simpl.
        * destruct (handle L (Body_Close _) w4) as [? w5]. simpl.
          eexists _, _, _. split; [reflexivity|]. simpl. done.
        * destruct (handle L (Body_Close _) w4) as [? w5]. simpl.
          eexists _, _, _. split; [reflexivity|]. simpl. done.
      + destruct (handle L (Body_Close _) w3) as [? w4]. simpl.
        eexists _, _, _. split; [reflexivity|]. simpl. done.
    - eexists _, _, _. split; [reflexivity|]. simpl. done. }
  eexists _, _, _. split; [reflexivity|]. simpl. done.
Qed.

Lemma run_ValidateEvents (L : Lib) calls : ∀ (w : World L) s,
  ∃ s' rs w' t,
    run L (ValidateEvents s calls) w = (Done s', w', t) ∧
    AsyncAPI.results s' = AsyncAPI.results s ++ rs ∧ length rs = length calls.
Proof.
  induction calls as [|[[channel schema] payload] calls IH]; intros w s.
  - exists s, [], w, []. by rewrite app_nil_r.
  - cbn [ValidateEvents]. rewrite run_bind.
    destruct (run_ValidateEvent L w s channel schema payload) as (r & w1 & t1 & -> & _).
    destruct (IH w1 {| AsyncAPI.validator := AsyncAPI.validator s;
                       AsyncAPI.results := AsyncAPI.results s ++ [r] |})
      as (s' & rs & w2 & t2 & -> & Hrs & Hlen).
    exists s', (r :: rs), w2, (t1 ++ t2). split; [done|]. simpl in *.
    rewrite Hrs, <-app_assoc. split; [done|]. by rewrite Hlen.
Qed.

Lemma run_RunTests (L : Lib) calls : ∀ (w : World L) s,
  ∃ s' rs w' t,
    run L (RunTests s calls) w = (Done s', w', t) ∧
    OpenAPI.results s' = OpenAPI.results s ++ rs ∧ length rs = length calls.
Proof.
  induction calls as [|a calls IH]; intros w s.
  - exists s, [], w, []. by rewrite app_nil_r.
  - cbn [RunTests]. rewrite run_bind.
    destruct (run_RunTest L w s a) as (r & w1 & t1 & -> & _).
    destruct (IH w1 {| OpenAPI.validator := OpenAPI.validator s;
                       OpenAPI.results := OpenAPI.results s ++ [r] |})
      as (s' & rs & w2 & t2 & -> & Hrs & Hlen).
    exists s', (r :: rs), w2, (t1 ++ t2). split; [done|]. simpl in *.
    rewrite Hrs, <-app_assoc. split; [done|]. by rewrite Hlen.
Qed.

(** C9. Whatever the libraries answer, a call to [ValidateEvent] or to
    [RunTest] returns (on each of its paths) a result [r] and leaves the
    suite with the same validator and with [r] appended to its earlier
    results, which are kept as they were; in [r], [Passed] is true exactly
    when [Error] is the empty string. After any sequence of such calls the
    two counts of [Summary] add up to the number of results held before plus
    the number of calls made (so to the number of calls, for a new suite). *)
Theorem suite_records_every_call (L : Lib) (w : World L) :
  (∀ s channel schema payload, ∃ r w' t,
     run L (AsyncAPI.ValidateEvent s channel schema payload) w =
     (Done (r, {| AsyncAPI.validator := AsyncAPI.validator s;
                  AsyncAPI.results := AsyncAPI.results s ++ [r] |}), w', t) ∧
     (AsyncAPI.Passed r = true ↔ AsyncAPI.Error r = "")) ∧
  (∀ s ctx client baseURL method path body expectedStatus responseSchema, ∃ r w' t,
     run L (OpenAPI.RunTest s ctx client baseURL method path body expectedStatus
              responseSchema) w =
     (Done (r, {| OpenAPI.validator := OpenAPI.validator s;
                  OpenAPI.results := OpenAPI.results s ++ [r] |}), w', t) ∧
     (OpenAPI.Passed r = true ↔ OpenAPI.Error r = "")) ∧
  (∀ s calls, ∃ s' rs w' t,
     run L (ValidateEvents s calls) w = (Done s', w', t) ∧
     AsyncAPI.results s' = AsyncAPI.results s ++ rs ∧ length rs = length calls ∧
     (AsyncAPI.Summary s').1 + (AsyncAPI.Summary s').2 =
       length (AsyncAPI.results s) + length calls) ∧
  (∀ s calls, ∃ s' rs w' t,
     run L (RunTests s calls) w = (Done s', w', t) ∧
     OpenAPI.results s' = OpenAPI.results s ++ rs ∧ length rs = length calls ∧
     (OpenAPI.Summary s').1 + (OpenAPI.Summary s').2 =
       length (OpenAPI.results s) + length calls).
Proof.
  split_and!.
  - intros. apply run_ValidateEvent.
  - intros s ctx client baseURL method path body expectedStatus responseSchema.
    apply (run_RunTest L w s
             {| arg_ctx := ctx; arg_client := client; arg_baseURL := baseURL;
                arg_method := method; arg_path := path; arg_body := body;
                arg_expectedStatus := expectedStatus;
                arg_responseSchema := responseSchema |}).
  - intros s calls.
    destruct (run_ValidateEvents L calls w s) as (s' & rs & w' & t & Hrun & Hrs & Hlen).
    exists s', rs, w', t. split_and!; [done..|].
    rewrite event_Summary_total, Hrs, length_app. lia.
  - intros s calls.
    destruct (run_RunTests L calls w s) as (s' & rs & w' & t & Hrun & Hrs & Hlen).
    exists s', rs, w', t. split_and!; [done..|].
    rewrite rest_Summary_total, Hrs, length_app. lia.
Qed.

(** ** Schema Dialect Translator *)

Lemma go_bind_Returns {A B} (x : Go A) (f : A → Go B) (b : B) :
  go_bind x f = Returns b → ∃ a, x = Returns a ∧ f a = Returns b.
Proof. destruct x as [a|]; [|done]. intros. by exists a. Qed.

Lemma strings_Split_slash_nonempty s : strings_Split_slash s ≠ [].
Proof.
  destruct s as [|c s]; [done|]. simpl.
  destruct (Ascii.eqb c "/"); [done|]. by destruct (strings_Split_slash s).
Qed.

Lemma strings_Split_slash_pieces s : Forall (λ p, has_slash p = false) (strings_Split_slash s).
Proof.
  induction s as [|c s IH]; simpl; [by repeat constructor|].
  destruct (Ascii.eqb c "/") eqn:Hc; [by constructor|].
  destruct (strings_Split_slash s) as [|p ps]; [by repeat constructor; simpl; rewrite Hc|].
  inversion_clear IH. constructor; [|done]. simpl. by rewrite Hc.
Qed.

Lemma strings_Join_Split_slash s : strings_Join_slash (strings_Split_slash s) = s.
Proof.
  induction s as [|c s IH]; [done|]. simpl.
  destruct (Ascii.eqb c "/") eqn:Hc.
  - apply Ascii.eqb_eq in Hc as ->.
    pose proof (strings_Split_slash_nonempty s).
    simpl. destruct (strings_Split_slash s) as [|p ps] eqn:Hs; [done|].
    by rewrite IH.
  - destruct (strings_Split_slash s) as [|p ps] eqn:Hs.
    + by destruct (strings_Split_slash_nonempty s).
    + simpl in *. destruct ps; simpl; by rewrite <-IH.
Qed.

Lemma string_append_assoc (s1 s2 s3 : string) : (s1 +:+ s2) +:+ s3 = s1 +:+ s2 +:+ s3.
Proof.
  induction s1 as [|c s1 IH]; [done|].
  change (String c ((s1 +:+ s2) +:+ s3) = String c (s1 +:+ s2 +:+ s3)). by rewrite IH.
Qed.

Lemma last_of_joined parts :
  parts ≠ [] → Forall (λ p, has_slash p = false) parts →
  ∃ name, last parts = Some name ∧ has_slash name = false ∧
          (strings_Join_slash parts = name ∨
           ∃ before, strings_Join_slash parts = before +:+ "/" +:+ name).
Proof.
  induction parts as [|p ps IH]; intros Hne Hpieces; [done|].
  inversion_clear Hpieces as [|?? Hp Hps].
  destruct ps as [|q ps].
  - exists p. eauto.
  - destruct IH as (name & Hlast & Hname & Href); [done..|].
    exists name. rewrite last_cons, Hlast.
    split; [done|]. split; [done|]. right.
    change (strings_Join_slash (p :: q :: ps)) with
      (p +:+ "/" +:+ strings_Join_slash (q :: ps)).
    destruct Href as [->|[before ->]].
    + by exists p.
    + exists (p +:+ "/" +:+ before).
      by rewrite !string_append_assoc.
Qed.

(** The last piece of a split is the text after the last separator. *)
Lemma last_part_segment ref :
  ∃ name, last_part (strings_Split_slash ref) = Returns name ∧
          has_slash name = false ∧
          (ref = name ∨ ∃ before, ref = before +:+ "/" +:+ name).
Proof.
  destruct (last_of_joined (strings_Split_slash ref)) as (name & Hlast & Hname & Href).
  - apply strings_Split_slash_nonempty.
  - apply strings_Split_slash_pieces.
  - exists name. unfold last_part. rewrite Hlast.
    by rewrite strings_Join_Split_slash in Href.
Qed.

Lemma translate_key_value ns k val result :
  translate_key ns (toJSONSchema_node ns) k val result =
  go_bind (translated_value ns k val)
    (λ o, Returns (match o with Some x => <[k := x]> result | None => result end)).
Proof.
  unfold translate_key, translated_value, convertProperties, toJSONSchema.
  repeat case_decide; subst; try done; destruct val; try done.
  all: match goal with |- context [go_bind ?x _] => by destruct x end.
Qed.

Lemma translated_value_None ns k val :
  translated_value ns k val = Returns None → k ∈ ["properties"; "items"; "allOf"].
Proof.
  unfold translated_value. repeat case_decide; subst; try set_solver.
  all: by destruct (rewrite_ref ns val).
Qed.

(** The result of the translator, key by key: it does not depend on the
    order in which the keys of the source node are visited. *)
Lemma toJSONSchema_lookup ns schema result :
  toJSONSchema ns schema = Returns result →
  ∀ k, match schema !! k with
       | Some val => ∃ o, translated_value ns k val = Returns o ∧ result !! k = o
       | None => result !! k =
                 ({["$schema" := VString draft_2020_12]} : gmap string any) !! k
       end.
Proof.
  unfold toJSONSchema. simpl. revert result.
  apply (map_fold_weak_ind (λ r m, ∀ result, r = Returns result → ∀ k,
    match m !! k with
    | Some val => ∃ o, translated_value ns k val = Returns o ∧ result !! k = o
    | None => result !! k = ({["$schema" := VString draft_2020_12]} : gmap string any) !! k
    end)).
  - intros result [= <-] k. by rewrite lookup_empty.
  - intros i x m r Hi IH result Hres k.
    apply go_bind_Returns in Hres as (result0 & -> & Hres).
    rewrite translate_key_value in Hres.
    apply go_bind_Returns in Hres as (o & Ho & [= <-]).
    specialize (IH result0 eq_refl).
    destruct (decide (k = i)) as [->|Hne].
    + rewrite lookup_insert_eq. exists o. split; [done|].
      destruct o as [y|]; [by rewrite lookup_insert_eq|].
      specialize (IH i). rewrite Hi in IH. rewrite IH.
      apply translated_value_None in Ho. apply lookup_singleton_ne.
      intros <-. rewrite !elem_of_cons, elem_of_nil in Ho.
      by destruct Ho as [?|[?|[?|[]]]].
    + rewrite lookup_insert_ne by done. specialize (IH k).
      destruct o as [y|]; [by rewrite lookup_insert_ne|done].
Qed.

Lemma convertProperties_lookup ns props result :
  convertProperties ns props = Returns result →
  ∀ name, match props !! name with
          | Some (VMap p) => ∃ r, toJSONSchema ns p = Returns r ∧
                                  result !! name = Some (VMap r)
          | _ => result !! name = None
          end.
Proof.
  unfold convertProperties, convertProperties_with. revert result.
  apply (map_fold_weak_ind (λ r m, ∀ result, r = Returns result → ∀ name,
    match m !! name with
    | Some (VMap p) => ∃ r, toJSONSchema ns p = Returns r ∧ result !! name = Some (VMap r)
    | _ => result !! name = None
    end)).
  - intros result [= <-] name. by rewrite !lookup_empty.
  - intros i x m r Hi IH result Hres name.
    apply go_bind_Returns in Hres as (result0 & -> & Hres).
    specialize (IH result0 eq_refl).
    destruct (decide (name = i)) as [->|Hne].
    + rewrite lookup_insert_eq. specialize (IH i). rewrite Hi in IH.
      destruct x; try (by injection Hres as <-).
      apply go_bind_Returns in Hres as (t & Ht & [= <-]).
      exists t. by rewrite lookup_insert_eq.
    + rewrite lookup_insert_ne by done. specialize (IH name).
      destruct x; try (by injection Hres as <-).
      apply go_bind_Returns in Hres as (t & Ht & [= <-]).
      by rewrite lookup_insert_ne.
Qed.

Lemma convertAllOf_lookup ns allOf : ∀ converted,
  convertAllOf_with (toJSONSchema_node ns) allOf = Returns converted →
  length converted = length allOf ∧
  ∀ i item, allOf !! i = Some item →
    match item with
    | VMap p => ∃ r, toJSONSchema ns p = Returns r ∧ converted !! i = Some (VMap r)
    | _ => converted !! i = Some VNil
    end.
Proof.
  induction allOf as [|x allOf IH]; intros converted Hc; simpl in Hc.
  - injection Hc as <-. split; [done|]. intros i item. by rewrite lookup_nil.
  - apply go_bind_Returns in Hc as (c & Hx & Hc).
    apply go_bind_Returns in Hc as (cs & Hcs & [= <-]).
    destruct (IH cs Hcs) as [Hlen Hall]. split; [simpl; by rewrite Hlen|].
    intros [|i] item; simpl; [|by apply Hall].
    intros [= ->]. destruct item; try (by injection Hx as <-).
    apply go_bind_Returns in Hx as (r & Hr & [= <-]). by exists r.
Qed.

(** The nested example translates as expected: nested nodes are translated
    in place, a property that is not a mapping is left out, and an [allOf]
    element that is not a mapping leaves [nil] at its position. *)
Example translate_order_node :
  toJSONSchema asyncapi_ns Examples.order_node = Returns Examples.order_node_translated.
Proof. vm_compute. reflexivity. Qed.

(** A [$ref] whose value is not a string makes the translator panic. *)
Lemma toJSONSchema_panics ns schema val :
  schema !! "$ref" = Some val → (∀ ref, val ≠ VString ref) →
  returns (toJSONSchema ns schema) = false.
Proof.
  intros Href Hval. destruct (toJSONSchema ns schema) as [result|msg] eqn:Hres; [|done].
  pose proof (toJSONSchema_lookup ns schema result Hres "$ref") as Hlook.
  rewrite Href in Hlook. destruct Hlook as (o & Ho & _).
  unfold translated_value, rewrite_ref in Ho. simpl in Ho.
  destruct val; try done. by destruct (Hval s).
Qed.

(** C8. The translator is not total: on the node [{"$ref": 42}] the
    unchecked assertion [val.(string)] panics and no node is returned,
    under either namespace; the checked assertions of the sibling cases do
    return on values of unexpected shapes. *)
Theorem translator_panics_on_numeric_ref :
  toJSONSchema asyncapi_ns Examples.numeric_ref =
    Panics "interface conversion: interface {} is int, not string" ∧
  toJSONSchema openapi_ns Examples.numeric_ref =
    Panics "interface conversion: interface {} is int, not string" ∧
  toJSONSchema asyncapi_ns Examples.odd_shapes =
    Returns {["$schema" := VString draft_2020_12]}.
Proof. split_and!; vm_compute; reflexivity. Qed.

(** ** Loaders: the calls they make, for every behaviour of the libraries *)

Lemma clean_app t1 t2 : clean t1 → clean t2 → clean (t1 ++ t2).
Proof. apply Forall_app_2. Qed.

Lemma ends_in_failure_app t1 t2 : clean t1 → ends_in_failure t2 → ends_in_failure (t1 ++ t2).
Proof.
  intros H1 (t0 & ev & -> & H0 & Hev). exists (t1 ++ t0), ev.
  split; [by rewrite app_assoc|]. split; [by apply clean_app|done].
Qed.

Lemma ends_in_failure_not_clean t : ends_in_failure t → ¬ clean t.
Proof.
  intros (t0 & ev & -> & _ & Hev) Hclean. unfold clean in Hclean.
  rewrite Forall_app, Forall_singleton in Hclean. destruct Hclean as [_ Hclean].
  by rewrite Hev in Hclean.
Qed.

Lemma two_pass_first_pass t : Forall (λ ev, is_Compile ev = false) t → two_pass t.
Proof. intros Ht. exists t, []. by rewrite app_nil_r. Qed.

Lemma two_pass_cons ev t : is_Compile ev = false → two_pass t → two_pass (ev :: t).
Proof.
  intros Hev (t1 & t2 & -> & H1 & H2). exists (ev :: t1), t2.
  split; [done|]. split; [by constructor|done].
Qed.

Lemma two_pass_app t1 t2 :
  Forall (λ ev, is_Compile ev = false) t1 → two_pass t2 → two_pass (t1 ++ t2).
Proof. induction 1; simpl; [done|]. intros. by apply two_pass_cons; auto. Qed.

(** The first pass over the entries of one mapping. *)
Lemma addResources_run (L : Lib) ns c entries : ∀ names (w : World L) o w' t,
  run L (addResources ns c entries names) w = (o, w', t) →
  Forall (λ ev, is_AddResource ev = true) t ∧
  match o with
  | Done (Ok names') => clean t ∧ ∃ more, names' = names ++ more
  | Done (Err e) =>
      ends_in_failure t ∧
      ∃ name e0, name ∈ entries.*1 ∧ e = "adding schema " +:+ name +:+ ": " +:+ e0
  | Panicked _ => clean t
  end.
Proof.
  induction entries as [|[name schemaDef] entries IH]; intros names w o w' t; simpl.
  { intros [= <- <- <-]. split; [constructor|]. split; [constructor|].
    exists []. by rewrite app_nil_r. }
  assert (∀ names w o w' t,
    run L (addResources ns c entries names) w = (o, w', t) →
    Forall (λ ev, is_AddResource ev = true) t ∧
    match o with
    | Done (Ok names') => clean t ∧ ∃ more, names' = names ++ more
    | Done (Err e) =>
        ends_in_failure t ∧
        ∃ name0 e0, name0 ∈ name :: entries.*1 ∧
                    e = "adding schema " +:+ name0 +:+ ": " +:+ e0
    | Panicked _ => clean t
    end) as IH'.
  { intros names0 w0 o0 w0' t0 Hrun. apply IH in Hrun as [Hadd Ho]. split; [done|].
    destruct o0 as [[?|e]|?]; [done| |done].
    destruct Ho as [Hfail (name0 & e0 & Hin & ->)]. split; [done|].
    exists name0, e0. split; [by right|done]. }
  destruct schemaDef; try apply IH'.
  rewrite run_prog_bind, run_lift.
  destruct (toJSONSchema ns m) as [jsonSchema|msg]; simpl.
  2: { intros [= <- <- <-]. split; constructor. }
  destruct (json_Marshal (VMap jsonSchema)) as [jsonBytes|?].
  2: { destruct (run L (addResources ns c entries names) w) as [[o1 w1] t1] eqn:Hrun.
       intros [= <- <- <-]. by apply IH' in Hrun. }
  simpl. destruct (handle L (Compiler_AddResource c (schemaID ns name) jsonBytes) w)
    as [[e|] w1]; simpl.
  - intros [= <- <- <-]. split; [by repeat constructor|]. split.
    + eexists [], _. split; [reflexivity|]. split; [constructor|reflexivity].
    + exists name, e. split; [by left|done].
  - destruct (run L (addResources ns c entries (names ++ [name])) w1)
      as [[o2 w2] t2] eqn:Hrun.
    intros [= <- <- <-]. apply IH' in Hrun as [Hadd Ho].
    split; [by constructor|].
    destruct o2 as [[names'|e]|msg].
    + destruct Ho as [Hclean [more ->]]. split; [by constructor|].
      exists (name :: more). by rewrite <-app_assoc.
    + destruct Ho as [Hfail Hshape]. split; [|done].
      apply (ends_in_failure_app [_]); [by repeat constructor|done].
    + by constructor.
Qed.

(** The second pass. *)
Lemma compileAll_run (L : Lib) ns c names : ∀ schemas (w : World L) o w' t,
  run L (compileAll ns c names schemas) w = (o, w', t) →
  Forall (λ ev, is_Compile ev = true) t ∧
  match o with
  | Done (_, None) => clean t
  | Done (_, Some e) =>
      ends_in_failure t ∧
      ∃ name e0, name ∈ names ∧ e = "compiling schema " +:+ name +:+ ": " +:+ e0
  | Panicked _ => False
  end.
Proof.
  induction names as [|name names IH]; intros schemas w o w' t; simpl.
  { intros [= <- <- <-]. split; constructor. }
  destruct (handle L (Compiler_Compile c (schemaID ns name)) w) as [[compiled|e] w1]; simpl.
  - destruct (run L (compileAll ns c names (<[name:=compiled]> schemas)) w1)
      as [[o2 w2] t2] eqn:Hrun.
    intros [= <- <- <-]. apply IH in Hrun as [Hcomp Ho].
    split; [by constructor|].
    destruct o2 as [[schemas' [e|]]|msg]; [|by constructor|done].
    destruct Ho as [Hfail (name0 & e0 & Hin & ->)]. split.
    + apply (ends_in_failure_app [_]); [by repeat constructor|done].
    + exists name0, e0. split; [by right|done].
  - intros [= <- <- <-]. split; [by repeat constructor|]. split.
    + eexists [], _. split; [reflexivity|]. split; [constructor|reflexivity].
    + exists name, e. split; [by left|done].
Qed.

Lemma Forall_AddResource_not_Compile t :
  Forall (λ ev, is_AddResource ev = true) t → Forall (λ ev, is_Compile ev = false) t.
Proof.
  intros Ht. eapply Forall_impl; [exact Ht|].
  intros [T [c r]]; simpl. by destruct c.
Qed.

Lemma parseChannels_run (L : Lib) v spec (w : World L) :
  ∃ v' w' t, run L (AsyncAPI.parseChannels v spec) w = (Done v', w', t) ∧
    AsyncAPI.schemas v' = AsyncAPI.schemas v ∧
    AsyncAPI.compiler v' = AsyncAPI.compiler v ∧
    AsyncAPI.specPath v' = AsyncAPI.specPath v ∧
    clean t ∧ Forall (λ ev, is_Compile ev = false) t ∧
    w' = match spec !! "channels" with
         | Some (VMap chans) => (handle L (range_map chans) w).2
         | _ => w
         end.
Proof.
  unfold AsyncAPI.parseChannels.
  destruct (spec !! "channels") as [[| | | | | |chans|]|];
    try (exists v, w, []; split_and!; by try constructor).
  simpl. destruct (handle L (range_map chans) w) as [entries w1]. simpl.
  eexists _, w1, _. split; [reflexivity|].
  assert (∀ v0, let v' := foldl (λ v '(name, chDef),
              match chDef with
              | VMap chMap =>
                  AsyncAPI.set_channels v
                    (<[name := {| AsyncAPI.Name := name;
                                  AsyncAPI.Address := AsyncAPI.getString chMap "address";
                                  AsyncAPI.Description := AsyncAPI.getString chMap "description";
                                  AsyncAPI.MessageName := "" |}]> (AsyncAPI.channels v))
              | _ => v
              end) v0 entries in
            AsyncAPI.schemas v' = AsyncAPI.schemas v0 ∧
            AsyncAPI.compiler v' = AsyncAPI.compiler v0 ∧
            AsyncAPI.specPath v' = AsyncAPI.specPath v0) as Hfold.
  { induction entries as [|[name chDef] entries IH]; intros v0; simpl; [done|].
    destruct chDef; try apply IH.
    destruct (IH (AsyncAPI.set_channels v0
      (<[name := {| AsyncAPI.Name := name;
                    AsyncAPI.Address := AsyncAPI.getString m "address";
                    AsyncAPI.Description := AsyncAPI.getString m "description";
                    AsyncAPI.MessageName := "" |}]> (AsyncAPI.channels v0)))) as (? & ? & ?).
    done. }
  destruct (Hfold v) as (? & ? & ?). split_and!; try done; by repeat constructor.
Qed.

Lemma addComponentSchemas_run (L : Lib) v spec (w : World L) o w' t :
  run L (AsyncAPI.addComponentSchemas v spec) w = (o, w', t) →
  Forall (λ ev, is_Compile ev = false) t ∧
  match o with
  | Done (Ok names') => clean t
  | Done (Err e) =>
      ends_in_failure t ∧ ∃ name e0, e = "adding schema " +:+ name +:+ ": " +:+ e0
  | Panicked _ => clean t
  end.
Proof.
  unfold AsyncAPI.addComponentSchemas.
  destruct (spec !! "components") as [[| | | | | |components|]|];
    try (intros [= <- <- <-]; split; constructor).
  destruct (components !! "schemas") as [[| | | | | |schemas|]|];
    try (intros [= <- <- <-]; split; constructor).
  simpl. destruct (handle L (range_map schemas) w) as [entries w1].
  destruct (run L (addResources asyncapi_ns (AsyncAPI.compiler v) entries []) w1)
    as [[o1 w2] t1] eqn:Hrun.
  intros [= <- <- <-]. apply addResources_run in Hrun as [Hadd Ho].
  split; [constructor; [done|by apply Forall_AddResource_not_Compile]|].
  destruct o1 as [[names'|e]|msg].
  - destruct Ho as [Hclean _]. by constructor.
  - destruct Ho as [Hfail (name & e0 & _ & ->)]. split; [|by eauto].
    apply (ends_in_failure_app [_]); [by repeat constructor|done].
  - by constructor.
Qed.

Lemma load_report_cons {V} ev (o : Outcome (V * option error)) t :
  is_Compile ev = false → is_failure ev = false → load_report o t → load_report o (ev :: t).
Proof.
  intros Hc Hf [Htwo Ho]. split; [by apply two_pass_cons|].
  destruct o as [[? [e|]]|?].
  - destruct Ho as [Hfail ?]. split; [|done].
    apply (ends_in_failure_app [_]); [by repeat constructor|done].
  - by constructor.
  - by constructor.
Qed.

Lemma event_loadSpec_run (L : Lib) v (w : World L) o w' t :
  run L (AsyncAPI.loadSpec v) w = (o, w', t) → load_report o t.
Proof.
  unfold AsyncAPI.loadSpec. simpl.
  destruct (handle L (os_ReadFile (AsyncAPI.specPath v)) w) as [[data|e] w1]; simpl.
  2: { intros [= <- <- <-]. split; [apply two_pass_first_pass; by repeat constructor|].
       split; [|done]. eexists [], _. split; [reflexivity|]. by split; [constructor|]. }
  destruct (handle L (yaml_Unmarshal data) w1) as [[spec|e] w2]; simpl.
  2: { intros [= <- <- <-]. split; [apply two_pass_first_pass; by repeat constructor|].
       split; [|done]. eexists [_], _. split; [reflexivity|]. by split; [repeat constructor|]. }
  rewrite run_prog_bind.
  destruct (parseChannels_run L v spec w2)
    as (v1 & w3 & t3 & -> & _ & _ & _ & Hc3 & Hn3 & _).
  rewrite run_prog_bind.
  destruct (run L (AsyncAPI.addComponentSchemas v1 spec) w3) as [[o4 w4] t4] eqn:Hadd.
  apply addComponentSchemas_run in Hadd as [Hn4 Ho4].
  assert (∀ o5 t5, load_report o5 t5 →
            load_report (V:=AsyncAPI.AsyncAPIValidator) o5
              (event (os_ReadFile (AsyncAPI.specPath v)) (Ok data)
               :: event (yaml_Unmarshal data) (Ok spec) :: t3 ++ t5)) as Hwrap.
  { intros o5 t5 H5. do 2 (apply load_report_cons; [done..|]).
    clear -Hc3 Hn3 H5. induction t3 as [|ev t3 IH]; simpl; [done|].
    inversion_clear Hc3. inversion_clear Hn3. apply load_report_cons; auto. }
  destruct o4 as [[schemaNames|e]|msg]; simpl.
  - rewrite run_prog_bind.
    destruct (run L (compileAll asyncapi_ns (AsyncAPI.compiler v1) schemaNames
                       (AsyncAPI.schemas v1)) w4) as [[o5 w5] t5] eqn:Hcomp.
    apply compileAll_run in Hcomp as [Hc5 Ho5].
    destruct o5 as [[compiled err]|msg]; [|done]. simpl.
    intros [= <- <- <-]. apply Hwrap. rewrite app_nil_r. split.
    + exists t4, t5. done.
    + destruct err as [e|].
      * destruct Ho5 as [Hfail (name & e0 & _ & ->)]. split; [|done].
        by apply ends_in_failure_app.
      * by apply clean_app.
  - intros [= <- <- <-]. apply Hwrap. rewrite app_nil_r. split.
    + by apply two_pass_first_pass.
    + destruct Ho4 as [Hfail (name & e0 & ->)]. done.
  - intros [= <- <- <-]. apply Hwrap. split; [by apply two_pass_first_pass|done].
Qed.

Lemma addFiles_run (L : Lib) c dir files : ∀ names (w : World L) o w' t,
  run L (OpenAPI.addFiles c dir files names) w = (o, w', t) →
  Forall (λ ev, is_Compile ev = false) t ∧
  match o with
  | Done (Ok names') => clean t
  | Done (Err e) => ends_in_failure t ∧ e ≠ ""
  | Panicked _ => clean t
  end.
Proof.
  induction files as [|file files IH]; intros names w o w' t; simpl.
  { intros [= <- <- <-]. split; constructor. }
  destruct (IsDir file || negb (strings_HasSuffix (Name_ file) ".yaml")); [apply IH|].
  destruct (decide (Name_ file = "_index.yaml")); [apply IH|]. simpl.
  destruct (handle L (filepath_Join [dir; Name_ file]) w) as [filePath w1]. simpl.
  destruct (handle L (os_ReadFile filePath) w1) as [[data|e] w2]; simpl.
  2: { intros [= <- <- <-]. split; [by repeat constructor|]. split; [|done].
       eexists [_], _. split; [reflexivity|]. by split; [repeat constructor|]. }
  destruct (handle L (yaml_Unmarshal data) w2) as [[schemas|e] w3]; simpl.
  2: { intros [= <- <- <-]. split; [by repeat constructor|]. split; [|done].
       eexists [_; _], _. split; [reflexivity|]. by split; [repeat constructor|]. }
  destruct (handle L (range_map schemas) w3) as [entries w4]. simpl.
  rewrite run_prog_bind.
  destruct (run L (addResources openapi_ns c entries names) w4) as [[o5 w5] t5] eqn:Hadd.
  apply addResources_run in Hadd as [Hn5 Ho5].
  apply Forall_AddResource_not_Compile in Hn5.
  destruct o5 as [[names'|e]|msg]; simpl.
  - destruct (run L (OpenAPI.addFiles c dir files names') w5) as [[o6 w6] t6] eqn:Hrest.
    intros [= <- <- <-]. apply IH in Hrest as [Hn6 Ho6]. destruct Ho5 as [Hc5 _].
    split; [do 4 (constructor; [done|]); by apply Forall_app_2|].
    destruct o6 as [[names''|e]|msg].
    + do 4 (constructor; [done|]). by apply clean_app.
    + destruct Ho6 as [Hfail Hne]. split; [|done].
      apply (ends_in_failure_app [_; _; _; _]); [by repeat constructor|].
      by apply ends_in_failure_app.
    + do 4 (constructor; [done|]). by apply clean_app.
  - intros [= <- <- <-]. rewrite app_nil_r.
    split; [by do 4 (constructor; [done|])|].
    destruct Ho5 as [Hfail (name & e0 & _ & ->)]. split; [|done].
    apply (ends_in_failure_app [_; _; _; _]); [by repeat constructor|done].
  - intros [= <- <- <-].
    split; [by do 4 (constructor; [done|])|]. by do 4 (constructor; [done|]).
Qed.

Lemma loadComponentSchemas_run (L : Lib) v baseDir (w : World L) o w' t :
  run L (OpenAPI.loadComponentSchemas v baseDir) w = (o, w', t) → load_report o t.
Proof.
  unfold OpenAPI.loadComponentSchemas. simpl.
  destruct (handle L (filepath_Join [baseDir; "components"; "schemas"]) w)
    as [schemasDir w1]. simpl.
  destruct (handle L (os_ReadDir schemasDir) w1) as [[files|e] w2]; simpl.
  2: { intros [= <- <- <-]. split; [apply two_pass_first_pass; by repeat constructor|].
       split; [|done]. eexists [_], _. split; [reflexivity|]. by split; [repeat constructor|]. }
  rewrite run_prog_bind.
  destruct (run L (OpenAPI.addFiles (OpenAPI.compiler v) schemasDir files []) w2)
    as [[o3 w3] t3] eqn:Hadd.
  apply addFiles_run in Hadd as [Hn3 Ho3].
  destruct o3 as [[schemaNames|e]|msg]; simpl.
  - rewrite run_prog_bind.
    destruct (run L (compileAll openapi_ns (OpenAPI.compiler v) schemaNames
                       (OpenAPI.schemas v)) w3) as [[o4 w4] t4] eqn:Hcomp.
    apply compileAll_run in Hcomp as [Hc4 Ho4].
    destruct o4 as [[compiled err]|msg]; [|done]. simpl.
    intros [= <- <- <-]. do 2 (apply load_report_cons; [done..|]).
    rewrite app_nil_r. split; [by exists t3, t4|].
    destruct err as [e|].
    + destruct Ho4 as [Hfail (name & e0 & _ & ->)]. split; [|done].
      by apply ends_in_failure_app.
    + by apply clean_app.
  - intros [= <- <- <-]. do 2 (apply load_report_cons; [done..|]).
    rewrite app_nil_r. split; [by apply two_pass_first_pass|done].
  - intros [= <- <- <-]. do 2 (apply load_report_cons; [done..|]).
    split; [by apply two_pass_first_pass|done].
Qed.

Lemma rest_loadSpec_run (L : Lib) v (w : World L) o w' t :
  run L (OpenAPI.loadSpec v) w = (o, w', t) → load_report o t.
Proof.
  unfold OpenAPI.loadSpec. remember (OpenAPI.loadComponentSchemas v) as load eqn:Hl. simpl.
  destruct (handle L (os_ReadFile (OpenAPI.specPath v)) w) as [[data|e] w1]; simpl.
  2: { intros [= <- <- <-]. split; [apply two_pass_first_pass; by repeat constructor|].
       split; [|done]. eexists [], _. split; [reflexivity|]. by split; [constructor|]. }
  destruct (handle L (yaml_Unmarshal data) w1) as [[spec|e] w2]; simpl.
  2: { intros [= <- <- <-]. split; [apply two_pass_first_pass; by repeat constructor|].
       split; [|done]. eexists [_], _. split; [reflexivity|]. by split; [repeat constructor|]. }
  destruct (handle L (filepath_Dir (OpenAPI.specPath v)) w2) as [baseDir w3]. simpl.
  destruct (run L (load baseDir) w3) as [[o4 w4] t4] eqn:Hload.
  subst load. apply loadComponentSchemas_run in Hload.
  intros [= <- <- <-]. by do 3 (apply load_report_cons; [done..|]).
Qed.

(** What a constructor returns, read off the calls it made. *)
Lemma NewAsyncAPIValidator_run (L : Lib) specPath (w : World L) :
  let r := run L (AsyncAPI.NewAsyncAPIValidator specPath) w in
  two_pass (trace r) ∧
  match outcome r with
  | Done (Some v, None) => clean (trace r)
  | Done (None, Some e) => ends_in_failure (trace r) ∧ e ≠ ""
  | Done _ => False
  | Panicked _ => clean (trace r)
  end.
Proof.
  unfold AsyncAPI.NewAsyncAPIValidator, trace, outcome.
  remember AsyncAPI.loadSpec as load eqn:Hl. simpl.
  destruct (handle L jsonschema_NewCompiler w) as [c w1]. simpl.
  rewrite run_prog_bind.
  destruct (run L (load _) w1) as [[o2 w2] t2] eqn:Hload.
  subst load. apply event_loadSpec_run in Hload as [Htwo Ho].
  destruct o2 as [[v [e|]]|msg]; simpl; rewrite ?app_nil_r.
  - split; [by apply two_pass_cons|]. destruct Ho as [Hfail Hne]. split; [|done].
    apply (ends_in_failure_app [_]); [by repeat constructor|done].
  - split; [by apply two_pass_cons|]. by constructor.
  - split; [by apply two_pass_cons|]. by constructor.
Qed.

Lemma NewOpenAPIValidator_run (L : Lib) specPath (w : World L) :
  let r := run L (OpenAPI.NewOpenAPIValidator specPath) w in
  two_pass (trace r) ∧
  match outcome r with
  | Done (Some v, None) => clean (trace r)
  | Done (None, Some e) => ends_in_failure (trace r) ∧ e ≠ ""
  | Done _ => False
  | Panicked _ => clean (trace r)
  end.
Proof.
  unfold OpenAPI.NewOpenAPIValidator, trace, outcome.
  remember OpenAPI.loadSpec as load eqn:Hl. simpl.
  destruct (handle L jsonschema_NewCompiler w) as [c w1]. simpl.
  rewrite run_prog_bind.
  destruct (run L (load _) w1) as [[o2 w2] t2] eqn:Hload.
  subst load. apply rest_loadSpec_run in Hload as [Htwo Ho].
  destruct o2 as [[v [e|]]|msg]; simpl; rewrite ?app_nil_r.
  - split; [by apply two_pass_cons|]. destruct Ho as [Hfail Hne]. split; [|done].
    apply (ends_in_failure_app [_]); [by repeat constructor|done].
  - split; [by apply two_pass_cons|]. by constructor.
  - split; [by apply two_pass_cons|]. by constructor.
Qed.

(** ** Loaders against the registry model of the compiler *)

Lemma addResources_model (L : Library) ns c entries : ∀ names (w : Compilers) R o w' t,
  w !! c = Some R →
  run (lib_of L) (addResources ns c entries names) w = (o, w', t) →
  match o with
  | Done (Ok names') =>
      Forall (λ e, entry_panics ns e.2 = false) entries ∧
      Forall (λ e, lib_add_error L (schemaID ns e.1) e.2 = None) (registered ns entries) ∧
      names' = names ++ (registered ns entries).*1 ∧
      w' = <[c := register_all ns R (registered ns entries)]> w
  | Done (Err e) =>
      ∃ name val d e0, (name, val) ∈ entries ∧ resource_of ns val = Some d ∧
        lib_add_error L (schemaID ns name) d = Some e0 ∧
        e = "adding schema " +:+ name +:+ ": " +:+ e0
  | Panicked _ => ∃ name val, (name, val) ∈ entries ∧ entry_panics ns val = true
  end.
Proof.
  induction entries as [|[name schemaDef] entries IH]; intros names w R o w' t Hc; simpl.
  { intros [= <- <- <-]. split_and!; try constructor.
    - by rewrite app_nil_r.
    - symmetry. by apply list_insert_id. }
  assert (∀ o w' t, resource_of ns schemaDef = None → entry_panics ns schemaDef = false →
    run (lib_of L) (addResources ns c entries names) w = (o, w', t) →
    match o with
    | Done (Ok names') =>
        Forall (λ e, entry_panics ns e.2 = false) ((name, schemaDef) :: entries) ∧
        Forall (λ e, lib_add_error L (schemaID ns e.1) e.2 = None)
          (registered ns ((name, schemaDef) :: entries)) ∧
        names' = names ++ (registered ns ((name, schemaDef) :: entries)).*1 ∧
        w' = <[c := register_all ns R (registered ns ((name, schemaDef) :: entries))]> w
    | Done (Err e) =>
        ∃ name0 val d e0, (name0, val) ∈ (name, schemaDef) :: entries ∧
          resource_of ns val = Some d ∧
          lib_add_error L (schemaID ns name0) d = Some e0 ∧
          e = "adding schema " +:+ name0 +:+ ": " +:+ e0
    | Panicked _ =>
        ∃ name0 val, (name0, val) ∈ (name, schemaDef) :: entries ∧ entry_panics ns val = true
    end) as Hskip.
  { intros o0 w0 t0 Hnone Hpanic Hrun. apply (IH _ _ R) in Hrun; [|done].
    unfold registered in *. simpl. rewrite Hnone. simpl.
    destruct o0 as [[names'|e]|msg].
    - destruct Hrun as (? & ? & ? & ?). split_and!; try done. by constructor.
    - destruct Hrun as (name0 & val & d & e0 & Hin & ?). exists name0, val, d, e0.
      split; [by right|done].
    - destruct Hrun as (name0 & val & Hin & ?). exists name0, val. split; [by right|done]. }
  destruct schemaDef as [| | | | | |m|]; try (by apply Hskip).
  rewrite run_prog_bind, run_lift.
  destruct (toJSONSchema ns m) as [jsonSchema|msg] eqn:Htr; simpl.
  2: { intros [= <- <- <-]. exists name, (VMap m). split; [by left|]. simpl. by rewrite Htr. }
  destruct (json_Marshal (VMap jsonSchema)) as [jsonBytes|?] eqn:Hm.
  2: { destruct (run (lib_of L) (addResources ns c entries names) w) as [[o1 w1] t1] eqn:Hrun.
       intros [= <- <- <-]. apply (Hskip o1 w1 t1); [| |done].
       - simpl. by rewrite Htr, Hm.
       - simpl. by rewrite Htr. }
  simpl. unfold cs_add. rewrite Hc.
  destruct (lib_add_error L (schemaID ns name) jsonBytes) as [e|] eqn:Hadd; simpl.
  - intros [= <- <- <-]. exists name, (VMap m), jsonBytes, e. split; [by left|].
    split; [|done]. simpl. by rewrite Htr, Hm.
  - destruct (run (lib_of L) (addResources ns c entries (names ++ [name]))
                (<[c := <[schemaID ns name := jsonBytes]> R]> w)) as [[o2 w2] t2] eqn:Hrun.
    intros [= <- <- <-].
    apply (IH _ _ (<[schemaID ns name := jsonBytes]> R)) in Hrun.
    2: { apply list_lookup_insert_eq. by eapply lookup_lt_Some. }
    destruct o2 as [[names'|e]|msg].
    + destruct Hrun as (Hp & Ha & -> & ->).
      unfold registered in *. simpl. rewrite Htr, Hm. simpl. split_and!.
      * constructor; [|done]. simpl. by rewrite Htr.
      * by constructor.
      * by rewrite <-app_assoc.
      * apply list_insert_insert_eq.
    + destruct Hrun as (name0 & val & d & e0 & Hin & ?). exists name0, val, d, e0.
      split; [by right|done].
    + destruct Hrun as (name0 & val & Hin & ?). exists name0, val. split; [by right|done].
Qed.

Lemma compileAll_model (L : Library) ns c names : ∀ schemas (w : Compilers) R o w' t,
  w !! c = Some R →
  run (lib_of L) (compileAll ns c names schemas) w = (o, w', t) →
  w' = w ∧
  match o with
  | Done (schemas', None) =>
      Forall (λ name, lib_compile_error L R (schemaID ns name) = None) names ∧
      schemas' = compiled_all ns schemas names
  | Done (_, Some e) =>
      ∃ name e0, name ∈ names ∧ lib_compile_error L R (schemaID ns name) = Some e0 ∧
                 e = "compiling schema " +:+ name +:+ ": " +:+ e0
  | Panicked _ => False
  end.
Proof.
  induction names as [|name names IH]; intros schemas w R o w' t Hc; simpl.
  { intros [= <- <- <-]. split; [done|]. split; [constructor|done]. }
  unfold cs_compile. rewrite Hc.
  destruct (lib_compile_error L R (schemaID ns name)) as [e|] eqn:Hcomp; simpl.
  - intros [= <- <- <-]. split; [done|]. exists name, e. split; [by left|done].
  - destruct (run (lib_of L) (compileAll ns c names
                (<[name := {| Location := schemaID ns name |}]> schemas)) w)
      as [[o2 w2] t2] eqn:Hrun.
    intros [= <- <- <-]. apply (IH _ _ R) in Hrun as [-> Ho]; [|done].
    split; [done|]. destruct o2 as [[schemas' [e|]]|msg]; [| |done].
    + destruct Ho as (name0 & e0 & Hin & ?). exists name0, e0. split; [by right|done].
    + destruct Ho as [Hall ->]. split; [by constructor|done].
Qed.

Lemma elem_of_registered ns entries name d :
  (name, d) ∈ registered ns entries ↔
  ∃ val, (name, val) ∈ entries ∧ resource_of ns val = Some d.
Proof.
  unfold registered. rewrite list_elem_of_omap. split.
  - intros ([name0 val] & Hin & Hres). simpl in Hres.
    destruct (resource_of ns val) as [d0|] eqn:Hval; [|done].
    injection Hres as <- <-. by exists val.
  - intros (val & Hin & Hres). exists (name, val). split; [done|]. simpl. by rewrite Hres.
Qed.

Lemma registered_names_sublist ns entries : (registered ns entries).*1 `sublist_of` entries.*1.
Proof.
  induction entries as [|[name val] entries IH]; [done|].
  unfold registered in *. simpl. destruct (resource_of ns val); simpl.
  - by apply sublist_skip.
  - by apply sublist_cons.
Qed.

Lemma registered_NoDup ns entries : NoDup entries.*1 → NoDup (registered ns entries).*1.
Proof. intros Hnd. eapply sublist_NoDup; [exact Hnd|]. apply registered_names_sublist. Qed.

Lemma lookup_register_all ns rs : ∀ R k d,
  NoDup rs.*1 →
  register_all ns R rs !! k = Some d ↔
  (∃ name, k = schemaID ns name ∧ (name, d) ∈ rs) ∨
  (R !! k = Some d ∧ ∀ name d', (name, d') ∈ rs → schemaID ns name ≠ k).
Proof.
  induction rs as [|[name0 d0] rs IH]; intros R k d Hnd.
  { simpl. split.
    - intros HR. right. split; [done|]. intros ?? Hin. by apply elem_of_nil in Hin.
    - intros [(name & _ & Hin)|[HR _]]; [by apply elem_of_nil in Hin|done]. }
  simpl in Hnd. apply NoDup_cons in Hnd as [Hfresh Hnd].
  change (register_all ns R ((name0, d0) :: rs))
    with (register_all ns (<[schemaID ns name0 := d0]> R) rs).
  rewrite IH by done. split.
  - intros [(name & -> & Hin)|[HR Hrs]].
    + left. exists name. split; [done|]. by right.
    + destruct (decide (schemaID ns name0 = k)) as [<-|Hne].
      * rewrite lookup_insert_eq in HR. injection HR as <-.
        left. exists name0. split; [done|]. by left.
      * rewrite lookup_insert_ne in HR by done. right. split; [done|].
        intros name d' [[= -> ->]|Hin]%elem_of_cons; [done|]. by eapply Hrs.
  - intros [(name & -> & [[= -> ->]|Hin]%elem_of_cons)|[HR Hrs]].
    + right. split; [by rewrite lookup_insert_eq|].
      intros name d' Hin Heq. apply (inj (schemaID ns)) in Heq as ->.
      apply Hfresh. apply list_elem_of_fmap. by exists (name0, d').
    + left. by exists name.
    + right. split.
      * rewrite lookup_insert_ne; [done|]. apply (Hrs name0 d0). by left.
      * intros name d' Hin. apply (Hrs name d'). by right.
Qed.

Lemma lookup_registry ns schemas k d :
  registry ns schemas !! k = Some d ↔
  ∃ name val, k = schemaID ns name ∧ schemas !! name = Some val ∧
              resource_of ns val = Some d.
Proof.
  unfold registry. rewrite lookup_kmap_Some by apply _. split.
  - intros (name & -> & Hom). apply lookup_omap_Some in Hom as (val & ? & ?).
    by exists name, val.
  - intros (name & val & -> & ? & ?). exists name. split; [done|].
    apply lookup_omap_Some. by exists val.
Qed.

(** Registering the entries of a mapping in any order of iteration gives
    the same registry. *)
Lemma register_all_registry ns schemas entries R :
  entries ≡ₚ map_to_list schemas →
  register_all ns R (registered ns entries) = registry ns schemas ∪ R.
Proof.
  intros Hperm. apply map_eq. intros k. apply option_eq. intros d.
  assert (NoDup entries.*1) as Hnd.
  { rewrite Hperm. apply NoDup_fst_map_to_list. }
  rewrite lookup_register_all by by apply registered_NoDup.
  rewrite lookup_union_Some_raw, lookup_registry.
  assert (∀ name val, (name, val) ∈ entries ↔ schemas !! name = Some val) as Hin.
  { intros name val. by rewrite Hperm, elem_of_map_to_list. }
  split.
  - intros [(name & -> & Hreg)|[HR Hrs]].
    + left. apply elem_of_registered in Hreg as (val & Hval & Hres).
      exists name, val. by rewrite <-Hin.
    + right. split; [|done]. apply eq_None_not_Some. intros [d' Hd'].
      apply lookup_registry in Hd' as (name & val & -> & Hval & Hres).
      apply (Hrs name d'); [|done]. apply elem_of_registered. exists val. by rewrite Hin.
  - intros [(name & val & -> & Hval & Hres)|[Hnone HR]].
    + left. exists name. split; [done|]. apply elem_of_registered. exists val. by rewrite Hin.
    + right. split; [done|]. intros name d' Hreg <-.
      apply elem_of_registered in Hreg as (val & Hval & Hres).
      assert (registry ns schemas !! schemaID ns name = Some d') as Hsome; [|congruence].
      apply lookup_registry. exists name, val. by rewrite <-Hin.
Qed.

Lemma lookup_compiled_all ns names : ∀ schemas k,
  compiled_all ns schemas names !! k =
  if decide (k ∈ names) then Some {| Location := schemaID ns k |} else schemas !! k.
Proof.
  induction names as [|name names IH]; intros schemas k.
  { destruct (decide (k ∈ [])) as [Hin|]; [by apply elem_of_nil in Hin|done]. }
  change (compiled_all ns schemas (name :: names))
    with (compiled_all ns (<[name := {| Location := schemaID ns name |}]> schemas) names).
  rewrite IH. destruct (decide (k ∈ names)) as [Hin|Hnin].
  - rewrite decide_True; [done|by right].
  - destruct (decide (k = name)) as [->|Hne].
    + rewrite lookup_insert_eq. rewrite decide_True; [done|by left].
    + rewrite lookup_insert_ne by done. rewrite decide_False; [done|].
      intros Hin. apply elem_of_cons in Hin as [?|?]; done.
Qed.

(** The first pass over a mapping, against the registry model: which
    entries were registered does not depend on the order of iteration. *)
Lemma addResources_map_model (L : Library) ns c schemas entries names
    (w : Compilers) R o w' t :
  entries ≡ₚ map_to_list schemas →
  w !! c = Some R →
  run (lib_of L) (addResources ns c entries names) w = (o, w', t) →
  match o with
  | Done (Ok names') =>
      (∀ name val, schemas !! name = Some val → entry_panics ns val = false) ∧
      (∀ name val d, schemas !! name = Some val → resource_of ns val = Some d →
         lib_add_error L (schemaID ns name) d = None) ∧
      (∃ more, names' = names ++ more ∧
         ∀ name, name ∈ more ↔ is_Some (schemas !! name ≫= resource_of ns)) ∧
      w' = <[c := registry ns schemas ∪ R]> w
  | Done (Err e) =>
      ∃ name val d e0, schemas !! name = Some val ∧ resource_of ns val = Some d ∧
        lib_add_error L (schemaID ns name) d = Some e0 ∧
        e = "adding schema " +:+ name +:+ ": " +:+ e0
  | Panicked _ => ∃ name val, schemas !! name = Some val ∧ entry_panics ns val = true
  end.
Proof.
  intros Hperm Hc Hrun.
  assert (∀ name val, (name, val) ∈ entries ↔ schemas !! name = Some val) as Hin.
  { intros name val. by rewrite Hperm, elem_of_map_to_list. }
  apply (addResources_model L ns c entries names w R) in Hrun; [|done].
  destruct o as [[names'|e]|msg].
  - destruct Hrun as (Hp & Ha & -> & ->). split_and!.
    + intros name val Hval. apply Hin in Hval.
      rewrite Forall_forall in Hp. apply (Hp (name, val) Hval).
    + intros name val d Hval Hres. rewrite Forall_forall in Ha.
      apply (Ha (name, d)). apply elem_of_registered. exists val. by rewrite Hin.
    + eexists. split; [reflexivity|]. intros name.
      rewrite list_elem_of_fmap. split.
      * intros ([name0 d] & -> & Hreg). apply elem_of_registered in Hreg as (val & Hval & Hres).
        apply Hin in Hval. simpl. rewrite Hval. simpl. by rewrite Hres.
      * intros [d Hd]. destruct (schemas !! name) as [val|] eqn:Hval; [|done]. simpl in Hd.
        exists (name, d). split; [done|]. apply elem_of_registered. exists val.
        by rewrite Hin.
    + by rewrite (register_all_registry ns schemas).
  - destruct Hrun as (name & val & d & e0 & Hval & ?). exists name, val, d, e0.
    by rewrite <-Hin.
  - destruct Hrun as (name & val & Hval & ?). exists name, val. by rewrite <-Hin.
Qed.

Lemma addComponentSchemas_cases v spec :
  (∃ schemas, component_schemas spec = schemas ∧
     AsyncAPI.addComponentSchemas v spec =
     (entries ← call (range_map schemas);
      addResources asyncapi_ns (AsyncAPI.compiler v) entries [])) ∨
  (component_schemas spec = ∅ ∧ AsyncAPI.addComponentSchemas v spec = mret (Ok [])).
Proof.
  unfold AsyncAPI.addComponentSchemas, component_schemas.
  destruct (spec !! "components") as [[| | | | | |components|]|]; try (by right).
  destruct (components !! "schemas") as [[| | | | | |schemas|]|]; try (by right).
  left. by exists schemas.
Qed.

Lemma registry_empty ns : registry ns ∅ = ∅.
Proof. unfold registry. by rewrite omap_empty, kmap_empty. Qed.

(** The first pass of the event loader, against the registry model. *)
Lemma addComponentSchemas_model (L : Library) v spec (w : Compilers) R o w' t :
  range_complete L →
  w !! AsyncAPI.compiler v = Some R →
  run (lib_of L) (AsyncAPI.addComponentSchemas v spec) w = (o, w', t) →
  match o with
  | Done (Ok names') =>
      (∀ name val, component_schemas spec !! name = Some val →
         entry_panics asyncapi_ns val = false) ∧
      (∀ name val d, component_schemas spec !! name = Some val →
         resource_of asyncapi_ns val = Some d →
         lib_add_error L (schemaID asyncapi_ns name) d = None) ∧
      (∀ name, name ∈ names' ↔
         is_Some (component_schemas spec !! name ≫= resource_of asyncapi_ns)) ∧
      w' = <[AsyncAPI.compiler v := registry asyncapi_ns (component_schemas spec) ∪ R]> w
  | Done (Err e) =>
      ∃ name val d e0, component_schemas spec !! name = Some val ∧
        resource_of asyncapi_ns val = Some d ∧
        lib_add_error L (schemaID asyncapi_ns name) d = Some e0 ∧
        e = "adding schema " +:+ name +:+ ": " +:+ e0
  | Panicked _ =>
      ∃ name val, component_schemas spec !! name = Some val ∧
                  entry_panics asyncapi_ns val = true
  end.
Proof.
  intros Hrange Hc.
  destruct (addComponentSchemas_cases v spec) as [(schemas & -> & ->)|[-> ->]].
  - simpl.
    destruct (run (lib_of L) (addResources asyncapi_ns (AsyncAPI.compiler v)
                (lib_range L schemas) []) w) as [[o1 w1] t1] eqn:Hrun.
    intros [= <- <- <-].
    apply (addResources_map_model L asyncapi_ns _ schemas _ _ _ R) in Hrun;
      [|apply Hrange|done].
    destruct o1 as [[names'|e]|msg]; [|done..].
    destruct Hrun as (Hp & Ha & (more & -> & Hmore) & ->). done.
  - simpl. intros [= <- <- <-]. split_and!.
    + intros name val. by rewrite lookup_empty.
    + intros name val d. by rewrite lookup_empty.
    + intros name. rewrite lookup_empty. simpl. split.
      * intros Hin. by apply elem_of_nil in Hin.
      * by intros [? ?].
    + rewrite registry_empty, (left_id_L ∅ (∪)). symmetry. by apply list_insert_id.
Qed.

Lemma channels_foldl entries : ∀ v name,
  NoDup entries.*1 →
  AsyncAPI.channels (foldl (λ v '(name, chDef),
      match chDef with
      | VMap chMap =>
          AsyncAPI.set_channels v
            (<[name := {| AsyncAPI.Name := name;
                          AsyncAPI.Address := AsyncAPI.getString chMap "address";
                          AsyncAPI.Description := AsyncAPI.getString chMap "description";
                          AsyncAPI.MessageName := "" |}]> (AsyncAPI.channels v))
      | _ => v
      end) v entries) !! name =
  match (list_to_map entries : gmap string any) !! name ≫= channel_info name with
  | Some info => Some info
  | None => AsyncAPI.channels v !! name
  end.
Proof.
  induction entries as [|[k x] entries IH]; intros v name Hnd; [done|].
  simpl in Hnd. apply NoDup_cons in Hnd as [Hfresh Hnd]. simpl foldl.
  rewrite IH by done. simpl list_to_map.
  destruct (decide (name = k)) as [->|Hne].
  - rewrite lookup_insert_eq. apply not_elem_of_list_to_map_1 in Hfresh.
    rewrite Hfresh. simpl. destruct x; simpl; try done. by rewrite lookup_insert_eq.
  - rewrite lookup_insert_ne by done.
    destruct (_ ≫= channel_info name); [done|].
    destruct x; simpl; try done. by rewrite lookup_insert_ne.
Qed.

(** The channels block of [loadSpec], whatever the order of iteration. *)
Lemma parseChannels_model (L : Library) v spec (w : Compilers) :
  range_complete L →
  ∃ v' t, run (lib_of L) (AsyncAPI.parseChannels v spec) w = (Done v', w, t) ∧
    AsyncAPI.schemas v' = AsyncAPI.schemas v ∧
    AsyncAPI.compiler v' = AsyncAPI.compiler v ∧
    AsyncAPI.specPath v' = AsyncAPI.specPath v ∧
    ∀ name, AsyncAPI.channels v' !! name =
            match channel_entries spec !! name ≫= channel_info name with
            | Some info => Some info
            | None => AsyncAPI.channels v !! name
            end.
Proof.
  intros Hrange.
  destruct (parseChannels_run (lib_of L) v spec w)
    as (v1 & w1 & t1 & Hrun & Hs1 & Hc1 & Hp1 & _ & _ & Hw1).
  assert (w1 = w) as ->.
  { rewrite Hw1. by destruct (spec !! "channels") as [[]|]. }
  exists v1, t1. split_and!; try done.
  intros name. unfold AsyncAPI.parseChannels, channel_entries in *.
  destruct (spec !! "channels") as [[| | | | | |chans|]|];
    try (injection Hrun as <- _; by rewrite lookup_empty).
  simpl in Hrun. injection Hrun as <- _.
  assert (NoDup (lib_range L chans).*1) as Hnd.
  { rewrite (Hrange chans). apply NoDup_fst_map_to_list. }
  rewrite channels_foldl by done.
  rewrite (list_to_map_proper _ (map_to_list chans)), list_to_map_to_list; [done..|].
  apply Hrange.
Qed.

(** [loadSpec] of the event loader against the registry model, for a
    specification that reads and parses. *)
Lemma event_loadSpec_model (L : Library) v data spec (w : Compilers) R o w' t :
  range_complete L →
  lib_ReadFile L (AsyncAPI.specPath v) = Ok data →
  lib_yaml L data = Ok spec →
  w !! AsyncAPI.compiler v = Some R →
  run (lib_of L) (AsyncAPI.loadSpec v) w = (o, w', t) →
  let S := component_schemas spec in
  let R' := registry asyncapi_ns S ∪ R in
  match o with
  | Done (v', None) =>
      translates asyncapi_ns S ∧ registers L asyncapi_ns S ∧ compiles L asyncapi_ns S R' ∧
      (∀ name, AsyncAPI.schemas v' !! name =
               match compiled_for asyncapi_ns S name with
               | Some s => Some s
               | None => AsyncAPI.schemas v !! name
               end) ∧
      (∀ name, AsyncAPI.channels v' !! name =
               match channel_entries spec !! name ≫= channel_info name with
               | Some info => Some info
               | None => AsyncAPI.channels v !! name
               end) ∧
      w' = <[AsyncAPI.compiler v := R']> w
  | Done (_, Some e) =>
      ∃ name val d e0, S !! name = Some val ∧ resource_of asyncapi_ns val = Some d ∧
        ((lib_add_error L (schemaID asyncapi_ns name) d = Some e0 ∧
          e = "adding schema " +:+ name +:+ ": " +:+ e0) ∨
         (translates asyncapi_ns S ∧ registers L asyncapi_ns S ∧
          lib_compile_error L R' (schemaID asyncapi_ns name) = Some e0 ∧
          e = "compiling schema " +:+ name +:+ ": " +:+ e0))
  | Panicked _ => ∃ name val, S !! name = Some val ∧ entry_panics asyncapi_ns val = true
  end.
Proof.
  intros Hrange Hread Hyaml Hc. unfold AsyncAPI.loadSpec.
  remember (AsyncAPI.parseChannels v) as parse eqn:Hparse.
  remember AsyncAPI.addComponentSchemas as add eqn:Hadd.
  simpl. rewrite Hread. simpl. rewrite Hyaml. simpl.
  rewrite run_prog_bind. subst parse.
  destruct (parseChannels_model L v spec w Hrange) as (v1 & t1 & -> & Hs1 & Hc1 & _ & Hch1).
  rewrite run_prog_bind. subst add.
  destruct (run (lib_of L) (AsyncAPI.addComponentSchemas v1 spec) w) as [[o2 w2] t2] eqn:Hrun2.
  apply (addComponentSchemas_model L v1 spec w R) in Hrun2; [|done|by rewrite Hc1].
  rewrite Hc1 in Hrun2.
  destruct o2 as [[schemaNames|e]|msg]; simpl.
  - destruct Hrun2 as (Hp & Ha & Hnames & ->).
    rewrite run_prog_bind.
    destruct (run (lib_of L) (compileAll asyncapi_ns (AsyncAPI.compiler v1) schemaNames
                (AsyncAPI.schemas v1)) _) as [[o3 w3] t3] eqn:Hrun3.
    apply (compileAll_model L asyncapi_ns _ _ _ _
             (registry asyncapi_ns (component_schemas spec) ∪ R)) in Hrun3.
    2: { rewrite Hc1. apply list_lookup_insert_eq. by eapply lookup_lt_Some. }
    destruct Hrun3 as [-> Ho3].
    destruct o3 as [[compiled [e|]]|msg]; [| |done]; simpl; intros [= <- <- <-].
    + destruct Ho3 as (name & e0 & Hin & Hcomp & ->).
      apply Hnames in Hin as [d Hd].
      destruct (component_schemas spec !! name) as [val|] eqn:Hval; [|done].
      exists name, val, d, e0. split_and!; [done..|]. right. done.
    + destruct Ho3 as [Hall ->]. split_and!; [done..| | |done|done].
      * intros name val d Hval Hres. rewrite Forall_forall in Hall. apply Hall.
        apply Hnames. rewrite Hval. simpl. by rewrite Hres.
      * intros name. simpl. rewrite lookup_compiled_all, Hs1. unfold compiled_for.
        destruct (decide (name ∈ schemaNames)) as [Hin|Hnin].
        -- apply Hnames in Hin as [d Hd]. by rewrite Hd.
        -- destruct (component_schemas spec !! name ≫= resource_of asyncapi_ns)
             as [d|] eqn:Hd; [|done].
           destruct Hnin. apply Hnames. by rewrite Hd.
  - intros [= <- <- <-]. destruct Hrun2 as (name & val & d & e0 & ? & ? & ? & ->).
    exists name, val, d, e0. split_and!; [done..|]. by left.
  - intros [= <- <- <-]. done.
Qed.

(** [NewAsyncAPIValidator] against the registry model, for a specification
    that reads and parses: what each outcome says about the named schemas
    [components.schemas], in terms that do not mention the order in which
    the runtime iterated over them. *)
Lemma event_validator_model (L : Library) (w : Compilers) specPath data spec :
  range_complete L →
  lib_ReadFile L specPath = Ok data →
  lib_yaml L data = Ok spec →
  let S := component_schemas spec in
  let R := registry asyncapi_ns S in
  let r := run (lib_of L) (AsyncAPI.NewAsyncAPIValidator specPath) w in
  match outcome r with
  | Done (Some v, None) =>
      translates asyncapi_ns S ∧ registers L asyncapi_ns S ∧ compiles L asyncapi_ns S R ∧
      (∀ name, AsyncAPI.schemas v !! name = compiled_for asyncapi_ns S name) ∧
      (∀ name, AsyncAPI.channels v !! name = channel_entries spec !! name ≫= channel_info name) ∧
      r.1.2 = w ++ [R]
  | Done (None, Some e) =>
      ∃ name val d e0, S !! name = Some val ∧ resource_of asyncapi_ns val = Some d ∧
        ((lib_add_error L (schemaID asyncapi_ns name) d = Some e0 ∧
          e = "adding schema " +:+ name +:+ ": " +:+ e0) ∨
         (translates asyncapi_ns S ∧ registers L asyncapi_ns S ∧
          lib_compile_error L R (schemaID asyncapi_ns name) = Some e0 ∧
          e = "compiling schema " +:+ name +:+ ": " +:+ e0))
  | Done _ => False
  | Panicked _ => ∃ name val, S !! name = Some val ∧ entry_panics asyncapi_ns val = true
  end.
Proof.
  intros Hrange Hread Hyaml S R. unfold AsyncAPI.NewAsyncAPIValidator, outcome.
  remember AsyncAPI.loadSpec as load eqn:Hl. simpl. rewrite run_prog_bind.
  destruct (run (lib_of L) (load _) (w ++ [∅])) as [[o2 w2] t2] eqn:Hload. subst load.
  apply (event_loadSpec_model L _ data spec _ ∅) in Hload; try done.
  2: { simpl. by apply list_lookup_middle. }
  simpl in Hload. fold S in Hload. rewrite (right_id_L ∅ (∪)) in Hload. fold R in Hload.
  destruct o2 as [[v [e|]]|msg]; simpl; [done| |done].
  destruct Hload as (Hp & Ha & Hcomp & Hschemas & Hchannels & ->). split_and!; [done..| | |].
  - intros name. rewrite Hschemas, lookup_empty. by destruct (compiled_for _ _ _).
  - intros name. rewrite Hchannels, lookup_empty. by destruct (_ ≫= channel_info name).
  - simpl. unfold Compilers in *. rewrite insert_app_r_alt by done.
    by rewrite Nat.sub_diag.
Qed.

Lemma filter_schema_files_cons file files :
  filter (λ f, is_schema_file f = true) (file :: files) =
  if is_schema_file file then file :: filter (λ f, is_schema_file f = true) files
  else filter (λ f, is_schema_file f = true) files.
Proof.
  rewrite filter_cons. destruct (is_schema_file file).
  - by rewrite decide_True.
  - by rewrite decide_False.
Qed.

(** The first pass of the REST loader, against the registry model, when the
    schema files of the listing read and parse as [docs]. *)
Lemma addFiles_model (L : Library) c dir files : ∀ docs names (w : Compilers) R o w' t,
  range_complete L →
  Forall2 (reads_as L dir) (filter (λ f, is_schema_file f = true) files) docs →
  w !! c = Some R →
  run (lib_of L) (OpenAPI.addFiles c dir files names) w = (o, w', t) →
  match o with
  | Done (Ok names') =>
      Forall (translates openapi_ns) docs ∧ Forall (registers L openapi_ns) docs ∧
      (∃ more, names' = names ++ more ∧
         ∀ name, name ∈ more ↔
           Exists (λ doc, is_Some (doc !! name ≫= resource_of openapi_ns)) docs) ∧
      w' = <[c := registry_of_files openapi_ns R docs]> w
  | Done (Err e) =>
      ∃ doc name val d e0, doc ∈ docs ∧ doc !! name = Some val ∧
        resource_of openapi_ns val = Some d ∧
        lib_add_error L (schemaID openapi_ns name) d = Some e0 ∧
        e = "adding schema " +:+ name +:+ ": " +:+ e0
  | Panicked _ =>
      ∃ doc name val, doc ∈ docs ∧ doc !! name = Some val ∧
                      entry_panics openapi_ns val = true
  end.
Proof.
  induction files as [|file files IH]; intros docs names w R o w' t Hrange Hdocs Hc.
  { simpl. rewrite filter_nil in Hdocs. apply Forall2_nil_inv_l in Hdocs as ->.
    intros [= <- <- <-]. split_and!; try constructor.
    - exists []. split; [by rewrite app_nil_r|]. intros name. split.
      + intros Hin. by apply elem_of_nil in Hin.
      + intros Hex. by apply Exists_nil in Hex.
    - symmetry. by apply list_insert_id. }
  rewrite filter_schema_files_cons in Hdocs. simpl.
  destruct (IsDir file || negb (strings_HasSuffix (Name_ file) ".yaml")) eqn:Hskip.
  { assert (is_schema_file file = false) as Hsf
      by (unfold is_schema_file; by rewrite Hskip).
    rewrite Hsf in Hdocs. by apply IH. }
  destruct (decide (Name_ file = "_index.yaml")) as [Hidx|Hidx].
  { assert (is_schema_file file = false) as Hsf.
    { unfold is_schema_file. rewrite Hskip. simpl. by rewrite bool_decide_eq_true_2. }
    rewrite Hsf in Hdocs. by apply IH. }
  assert (is_schema_file file = true) as Hsf.
  { unfold is_schema_file. rewrite Hskip. simpl. by rewrite bool_decide_eq_false_2. }
  rewrite Hsf in Hdocs.
  apply Forall2_cons_inv_l in Hdocs as (doc & docs' & (data & Hread & Hyaml) & Hdocs & ->).
  simpl. rewrite Hread. simpl. rewrite Hyaml. simpl.
  rewrite run_prog_bind.
  destruct (run (lib_of L) (addResources openapi_ns c (lib_range L doc) names) w)
    as [[o1 w1] t1] eqn:Hrun1.
  apply (addResources_map_model L openapi_ns c doc _ _ _ R) in Hrun1; [|apply Hrange|done].
  destruct o1 as [[names1|e]|msg]; simpl.
  - destruct Hrun1 as (Hp & Ha & (more1 & -> & Hmore1) & ->).
    destruct (run (lib_of L) (OpenAPI.addFiles c dir files (names ++ more1)) _)
      as [[o2 w2] t2] eqn:Hrun2.
    intros [= <- <- <-].
    apply (IH docs' _ _ (registry openapi_ns doc ∪ R)) in Hrun2; [|done..|].
    2: { apply list_lookup_insert_eq. by eapply lookup_lt_Some. }
    destruct o2 as [[names2|e]|msg].
    + destruct Hrun2 as (Hps & Has & (more2 & -> & Hmore2) & ->). split_and!.
      * by constructor.
      * by constructor.
      * exists (more1 ++ more2). split; [by rewrite app_assoc|]. intros name.
        rewrite elem_of_app, Exists_cons, Hmore1, Hmore2. done.
      * apply list_insert_insert_eq.
    + destruct Hrun2 as (doc0 & name & val & d & e0 & Hin & ?).
      exists doc0, name, val, d, e0. split; [by right|done].
    + destruct Hrun2 as (doc0 & name & val & Hin & ?).
      exists doc0, name, val. split; [by right|done].
  - intros [= <- <- <-]. destruct Hrun1 as (name & val & d & e0 & ?).
    exists doc, name, val, d, e0. split; [by left|done].
  - intros [= <- <- <-]. destruct Hrun1 as (name & val & ?).
    exists doc, name, val. split; [by left|done].
Qed.

(** [NewOpenAPIValidator] against the registry model, when the root
    document reads and parses and the schema files of the directory read and
    parse as [docs]. *)
Lemma rest_validator_model (L : Library) (w : Compilers) specPath data spec files docs :
  range_complete L →
  lib_ReadFile L specPath = Ok data →
  lib_yaml L data = Ok spec →
  let dir := lib_Join L [lib_Dir L specPath; "components"; "schemas"] in
  lib_ReadDir L dir = Ok files →
  Forall2 (reads_as L dir) (filter (λ f, is_schema_file f = true) files) docs →
  let R := registry_of_files openapi_ns ∅ docs in
  let r := run (lib_of L) (OpenAPI.NewOpenAPIValidator specPath) w in
  match outcome r with
  | Done (Some v, None) =>
      Forall (translates openapi_ns) docs ∧ Forall (registers L openapi_ns) docs ∧
      Forall (λ doc, compiles L openapi_ns doc R) docs ∧
      (∀ name, OpenAPI.schemas v !! name = compiled_for_files openapi_ns docs name) ∧
      r.1.2 = w ++ [R]
  | Done (None, Some e) =>
      ∃ doc name val d e0, doc ∈ docs ∧ doc !! name = Some val ∧
        resource_of openapi_ns val = Some d ∧
        ((lib_add_error L (schemaID openapi_ns name) d = Some e0 ∧
          e = "adding schema " +:+ name +:+ ": " +:+ e0) ∨
         (Forall (translates openapi_ns) docs ∧ Forall (registers L openapi_ns) docs ∧
          lib_compile_error L R (schemaID openapi_ns name) = Some e0 ∧
          e = "compiling schema " +:+ name +:+ ": " +:+ e0))
  | Done _ => False
  | Panicked _ =>
      ∃ doc name val, doc ∈ docs ∧ doc !! name = Some val ∧
                      entry_panics openapi_ns val = true
  end.
Proof.
  intros Hrange Hread Hyaml dir Hdir Hdocs R.
  unfold OpenAPI.NewOpenAPIValidator, OpenAPI.loadSpec, OpenAPI.loadComponentSchemas, outcome.
  remember OpenAPI.addFiles as add eqn:Hadd.
  simpl. rewrite Hread. simpl. rewrite Hyaml. simpl. fold dir. rewrite Hdir. simpl.
  rewrite !run_prog_bind. subst add.
  destruct (run (lib_of L) (OpenAPI.addFiles (length w) dir files []) (w ++ [∅]))
    as [[o1 w1] t1] eqn:Hrun1.
  apply (addFiles_model L _ dir files docs _ _ ∅) in Hrun1; [|done..|].
  2: { by apply list_lookup_middle. }
  fold R in Hrun1.
  destruct o1 as [[schemaNames|e]|msg]; simpl.
  - destruct Hrun1 as (Hp & Ha & (more & -> & Hmore) & ->).
    rewrite run_prog_bind.
    destruct (run (lib_of L) (compileAll openapi_ns (length w) ([] ++ more) ∅) _)
      as [[o2 w2] t2] eqn:Hrun2.
    apply (compileAll_model L openapi_ns _ _ _ _ R) in Hrun2.
    2: { apply list_lookup_insert_eq. rewrite length_app. simpl. lia. }
    destruct Hrun2 as [-> Ho2].
    destruct o2 as [[compiled [e|]]|msg]; [| |done]; simpl.
    + destruct Ho2 as (name & e0 & Hin & Hcomp & ->).
      apply Hmore in Hin. apply Exists_exists in Hin as (doc & Hdoc & [d Hd]).
      destruct (doc !! name) as [val|] eqn:Hval; [|done].
      exists doc, name, val, d, e0. split_and!; [done..|]. by right.
    + destruct Ho2 as [Hall ->]. split_and!; [done..| | |].
      * apply Forall_forall. intros doc Hdoc name val d Hval Hres.
        rewrite Forall_forall in Hall. apply Hall. apply Hmore.
        apply Exists_exists. exists doc. split; [done|]. rewrite Hval. simpl. by rewrite Hres.
      * intros name. simpl. rewrite lookup_compiled_all, lookup_empty.
        unfold compiled_for_files.
        destruct (decide (name ∈ more)) as [Hin|Hnin].
        -- apply Hmore in Hin. by rewrite bool_decide_eq_true_2.
        -- rewrite bool_decide_eq_false_2; [done|]. by rewrite <-Hmore.
      * simpl. unfold Compilers in *. rewrite insert_app_r_alt by done.
        by rewrite Nat.sub_diag.
  - destruct Hrun1 as (doc & name & val & d & e0 & ? & ? & ? & ? & ->).
    exists doc, name, val, d, e0. split_and!; [done..|]. by left.
  - done.
Qed.

(** ** Further properties of the loaders *)

Lemma two_pass_order t :
  two_pass t →
  ∀ i j evi evj, t !! i = Some evi → t !! j = Some evj →
    is_Compile evi = true → is_AddResource evj = true → j < i.
Proof.
  intros (t1 & t2 & -> & H1 & H2) i j evi evj Hi Hj Hci Haj.
  rewrite Forall_forall in H1. rewrite Forall_forall in H2.
  apply lookup_app_Some in Hi as [Hi|[Hlen Hi]].
  { apply list_elem_of_lookup_2 in Hi. apply H1 in Hi. congruence. }
  apply lookup_app_Some in Hj as [Hj|[_ Hj]].
  { apply lookup_lt_Some in Hj. lia. }
  apply list_elem_of_lookup_2 in Hj. apply H2 in Hj.
  destruct evj as [T [c r]]. simpl in *. by destruct c.
Qed.

(** X1. Whatever the libraries answer (missing files, failing
    registrations, failing compilations), in a run of [NewAsyncAPIValidator]
    and in a run of [NewOpenAPIValidator] every call to [AddResource] comes
    before every call to [Compile]. *)
Theorem registration_precedes_compilation (L : Lib) (w : World L) (specPath : string) :
  (∀ i j evi evj,
     trace (run L (AsyncAPI.NewAsyncAPIValidator specPath) w) !! i = Some evi →
     trace (run L (AsyncAPI.NewAsyncAPIValidator specPath) w) !! j = Some evj →
     is_Compile evi = true → is_AddResource evj = true → j < i) ∧
  (∀ i j evi evj,
     trace (run L (OpenAPI.NewOpenAPIValidator specPath) w) !! i = Some evi →
     trace (run L (OpenAPI.NewOpenAPIValidator specPath) w) !! j = Some evj →
     is_Compile evi = true → is_AddResource evj = true → j < i).
Proof.
  split.
  - apply two_pass_order. apply (NewAsyncAPIValidator_run L specPath w).
  - apply two_pass_order. apply (NewOpenAPIValidator_run L specPath w).
Qed.


(** X3. For an event specification that reads and parses, under the
    registry model of the compiler and whatever order the runtime iterates
    in: [NewAsyncAPIValidator] returns a validator exactly when no named
    schema makes the translator panic, every registered document is accepted
    by [AddResource], and every registered name compiles against the registry
    that holds all the registered documents of the specification. So a
    schema that refers to one declared after it, or two schemas that refer
    to each other, are compiled with both registered. *)
Theorem event_load_succeeds_iff (L : Library) (w : Compilers) (specPath : string)
    (data : list byte) (spec : gmap string any) :
  range_complete L →
  lib_ReadFile L specPath = Ok data →
  lib_yaml L data = Ok spec →
  (∃ v, outcome (run (lib_of L) (AsyncAPI.NewAsyncAPIValidator specPath) w) =
        Done (Some v, None)) ↔
  translates asyncapi_ns (component_schemas spec) ∧
  registers L asyncapi_ns (component_schemas spec) ∧
  compiles L asyncapi_ns (component_schemas spec)
    (registry asyncapi_ns (component_schemas spec)).
Proof.
  intros Hrange Hread Hyaml.
  pose proof (event_validator_model L w specPath data spec Hrange Hread Hyaml) as Hmodel.
  cbv zeta in Hmodel. split.
  - intros [v Hv]. rewrite Hv in Hmodel. by destruct Hmodel as (? & ? & ? & _).
  - intros (Hp & Ha & Hc).
    destruct (outcome _) as [[[v|] [e|]]|msg]; try done.
    + by exists v.
    + destruct Hmodel as (name & val & d & e0 & Hval & Hres & [[Hadd _]|(_ & _ & Hcomp & _)]).
      * by rewrite (Ha name val d) in Hadd.
      * by rewrite (Hc name val d) in Hcomp.
    + destruct Hmodel as (name & val & Hval & Hpanic). by rewrite (Hp name val) in Hpanic.
Qed.

(** X4. After a successful load of an event specification (registry model),
    the validator holds a compiled schema exactly for the names whose value
    is a mapping with a serialisable translation. For any other name of the
    specification (a value that is not a mapping, or whose translation
    [json.Marshal] refuses) and for names it does not have, [ValidateMessage]
    answers "schema not found"; for a registered name it does not. *)
Theorem loaded_names_are_the_registered (L : Library) (w : Compilers) (specPath : string)
    (data : list byte) (spec : gmap string any) (v : AsyncAPI.AsyncAPIValidator)
    (name : string) (payload : list byte) :
  range_complete L →
  lib_ReadFile L specPath = Ok data →
  lib_yaml L data = Ok spec →
  outcome (run (lib_of L) (AsyncAPI.NewAsyncAPIValidator specPath) w) = Done (Some v, None) →
  AsyncAPI.schemas v !! name = compiled_for asyncapi_ns (component_schemas spec) name ∧
  (component_schemas spec !! name ≫= resource_of asyncapi_ns = None ↔
   ∀ w1, outcome (run (lib_of L) (AsyncAPI.ValidateMessage v name payload) w1) =
         Done (v, Some ("schema not found: " +:+ name))).
Proof.
  intros Hrange Hread Hyaml Hv.
  pose proof (event_validator_model L w specPath data spec Hrange Hread Hyaml) as Hmodel.
  cbv zeta in Hmodel. rewrite Hv in Hmodel.
  destruct Hmodel as (_ & _ & _ & Hschemas & _ & _).
  split; [done|]. unfold outcome. split.
  - intros Hnone w1. rewrite run_ValidateMessage, Hschemas. unfold compiled_for.
    by rewrite Hnone.
  - intros Hnot. specialize (Hnot []). rewrite run_ValidateMessage, Hschemas in Hnot.
    unfold compiled_for in Hnot.
    destruct (component_schemas spec !! name ≫= resource_of asyncapi_ns); [|done].
    exfalso. simpl in Hnot. destruct (lib_json L payload); simpl in Hnot.
    + destruct (lib_validate L _ _); simpl in Hnot; discriminate Hnot.
    + discriminate Hnot.
Qed.

(** X5. Under the registry model with a compiler that fails on a reference
    to an unregistered resource: if some registered schema of an event
    specification holds, at a position the translator rewrites, a reference
    whose target is not among the registered documents, then no validator is
    returned, whatever the order of iteration; and when nothing else goes
    wrong the error returned is that of the compile pass and names a
    schema. *)
Theorem event_load_missing_reference (L : Library) (w : Compilers) (specPath : string)
    (data : list byte) (spec : gmap string any) (name : string) (val d : any) :
  range_complete L →
  resolves_references L →
  lib_ReadFile L specPath = Ok data →
  lib_yaml L data = Ok spec →
  component_schemas spec !! name = Some val →
  resource_of asyncapi_ns val = Some d →
  dangling (registry asyncapi_ns (component_schemas spec)) d →
  (∀ v err, outcome (run (lib_of L) (AsyncAPI.NewAsyncAPIValidator specPath) w) ≠
            Done (Some v, err)) ∧
  (translates asyncapi_ns (component_schemas spec) →
   registers L asyncapi_ns (component_schemas spec) →
   ∃ name' e0, outcome (run (lib_of L) (AsyncAPI.NewAsyncAPIValidator specPath) w) =
               Done (None, Some ("compiling schema " +:+ name' +:+ ": " +:+ e0))).
Proof.
  intros Hrange Hresolve Hread Hyaml Hval Hres Hdangling.
  pose proof (event_validator_model L w specPath data spec Hrange Hread Hyaml) as Hmodel.
  cbv zeta in Hmodel.
  assert (is_Some (lib_compile_error L (registry asyncapi_ns (component_schemas spec))
                     (schemaID asyncapi_ns name))) as [e1 He1].
  { apply (Hresolve _ _ d); [|done]. apply lookup_registry. by exists name, val. }
  split.
  - intros v err Hv. rewrite Hv in Hmodel. destruct err; [done|].
    destruct Hmodel as (_ & _ & Hc & _). by rewrite (Hc name val d) in He1.
  - intros Hp Ha. destruct (outcome _) as [[[v|] [e|]]|msg]; try done.
    + destruct Hmodel as (_ & _ & Hc & _). by rewrite (Hc name val d) in He1.
    + destruct Hmodel as (name' & val' & d' & e0 & Hval' & Hres'
                          & [[Hadd _]|(_ & _ & Hcomp & ->)]).
      * by rewrite (Ha name' val' d') in Hadd.
      * by exists name', e0.
    + destruct Hmodel as (name' & val' & Hval' & Hpanic).
      by rewrite (Hp name' val') in Hpanic.
Qed.

Lemma registry_of_files_keeps ns docs : ∀ R k d,
  R !! k = Some d → Forall (λ doc, registry ns doc !! k = None) docs →
  registry_of_files ns R docs !! k = Some d.
Proof.
  induction docs as [|doc docs IH]; intros R k d HR Hnone; [done|].
  inversion_clear Hnone as [|?? Hdoc Hdocs].
  change (registry_of_files ns R (doc :: docs))
    with (registry_of_files ns (registry ns doc ∪ R) docs).
  apply IH; [|done]. by rewrite lookup_union_r.
Qed.

Lemma registry_of_files_last ns docs1 doc docs2 R k d :
  registry ns doc !! k = Some d →
  Forall (λ doc', registry ns doc' !! k = None) docs2 →
  registry_of_files ns R (docs1 ++ doc :: docs2) !! k = Some d.
Proof.
  intros Hdoc Hnone. unfold registry_of_files. rewrite foldl_app. simpl.
  apply registry_of_files_keeps; [|done]. by apply lookup_union_Some_l.
Qed.

(** X6. For the REST loader under the registry model, when the root
    document reads and parses and the schema files of the directory read
    and parse: [NewOpenAPIValidator] returns a validator exactly when no
    schema of any file makes the translator panic, every registered document
    is accepted by [AddResource], and every registered name compiles against
    the registry left by all the files. No condition says that names differ
    from file to file, and the content of the root document plays no part. *)
Theorem rest_load_succeeds_iff (L : Library) (w : Compilers) (specPath : string)
    (data : list byte) (spec : gmap string any) (files : list DirEntry)
    (docs : list (gmap string any)) :
  range_complete L →
  lib_ReadFile L specPath = Ok data →
  lib_yaml L data = Ok spec →
  lib_ReadDir L (lib_Join L [lib_Dir L specPath; "components"; "schemas"]) = Ok files →
  Forall2 (reads_as L (lib_Join L [lib_Dir L specPath; "components"; "schemas"]))
    (filter (λ f, is_schema_file f = true) files) docs →
  (∃ v, outcome (run (lib_of L) (OpenAPI.NewOpenAPIValidator specPath) w) =
        Done (Some v, None)) ↔
  Forall (translates openapi_ns) docs ∧ Forall (registers L openapi_ns) docs ∧
  Forall (λ doc, compiles L openapi_ns doc (registry_of_files openapi_ns ∅ docs)) docs.
Proof.
  intros Hrange Hread Hyaml Hdir Hdocs.
  pose proof (rest_validator_model L w specPath data spec files docs
                Hrange Hread Hyaml Hdir Hdocs) as Hmodel.
  cbv zeta in Hmodel. split.
  - intros [v Hv]. rewrite Hv in Hmodel. by destruct Hmodel as (? & ? & ? & _).
  - intros (Hp & Ha & Hc).
    rewrite Forall_forall in Hp. rewrite Forall_forall in Ha. rewrite Forall_forall in Hc.
    destruct (outcome _) as [[[v|] [e|]]|msg]; try done.
    + by exists v.
    + destruct Hmodel as (doc & name & val & d & e0 & Hdoc & Hval & Hres
                          & [[Hadd _]|(_ & _ & Hcomp & _)]).
      * by rewrite (Ha doc Hdoc name val d) in Hadd.
      * by rewrite (Hc doc Hdoc name val d) in Hcomp.
    + destruct Hmodel as (doc & name & val & Hdoc & Hval & Hpanic).
      by rewrite (Hp doc Hdoc name val) in Hpanic.
Qed.

(** X7. When the REST loader succeeds (registry model), a name defined in
    several schema files is not reported: the validator holds one compiled
    schema for it, and the compiler it created holds, under the name's
    identifier, the document of the last file (in directory order) that
    registers the name. *)
Theorem rest_duplicate_name_last_wins (L : Library) (w : Compilers) (specPath : string)
    (data : list byte) (spec : gmap string any) (files : list DirEntry)
    (docs1 docs2 : list (gmap string any)) (doc : gmap string any)
    (v : OpenAPI.OpenAPIValidator) (name : string) (val d : any) :
  range_complete L →
  lib_ReadFile L specPath = Ok data →
  lib_yaml L data = Ok spec →
  lib_ReadDir L (lib_Join L [lib_Dir L specPath; "components"; "schemas"]) = Ok files →
  Forall2 (reads_as L (lib_Join L [lib_Dir L specPath; "components"; "schemas"]))
    (filter (λ f, is_schema_file f = true) files) (docs1 ++ doc :: docs2) →
  outcome (run (lib_of L) (OpenAPI.NewOpenAPIValidator specPath) w) = Done (Some v, None) →
  doc !! name = Some val →
  resource_of openapi_ns val = Some d →
  Forall (λ doc', doc' !! name ≫= resource_of openapi_ns = None) docs2 →
  OpenAPI.schemas v !! name = Some {| Location := schemaID openapi_ns name |} ∧
  ∃ R, (run (lib_of L) (OpenAPI.NewOpenAPIValidator specPath) w).1.2 = w ++ [R] ∧
       R !! schemaID openapi_ns name = Some d.
Proof.
  intros Hrange Hread Hyaml Hdir Hdocs Hv Hval Hres Hlater.
  pose proof (rest_validator_model L w specPath data spec files _
                Hrange Hread Hyaml Hdir Hdocs) as Hmodel.
  cbv zeta in Hmodel. rewrite Hv in Hmodel.
  destruct Hmodel as (_ & _ & _ & Hschemas & Hworld). split.
  - rewrite Hschemas. unfold compiled_for_files. rewrite bool_decide_eq_true_2; [done|].
    apply Exists_app. right. apply Exists_cons_hd. rewrite Hval. simpl. by rewrite Hres.
  - eexists. split; [exact Hworld|].
    apply registry_of_files_last.
    + apply lookup_registry. by exists name, val.
    + eapply Forall_impl; [exact Hlater|]. intros doc' Hnone. simpl in Hnone.
      apply eq_None_not_Some. intros [d' Hd'].
      apply lookup_registry in Hd' as (name' & val' & Heq & Hval' & Hres').
      apply (inj (schemaID openapi_ns)) in Heq as <-.
      rewrite Hval' in Hnone. simpl in Hnone. congruence.
Qed.

(** ** The small library instance satisfies the assumptions *)

Lemma range_complete_stub files dir payloads :
  range_complete (Stub.library files dir payloads map_to_list).
Proof. by intros m. Qed.

Lemma range_complete_stub_reversed files dir payloads :
  range_complete (Stub.library files dir payloads (λ m, reverse (map_to_list m))).
Proof. intros m. simpl. apply reverse_Permutation. Qed.

Lemma reached_todo fuel R todo u : u ∈ todo → u ∈ Stub.reached fuel R todo.
Proof. destruct fuel; simpl; [done|]. intros. apply elem_of_app. by left. Qed.

Lemma resolves_references_stub files dir payloads range :
  resolves_references (Stub.library files dir payloads range).
Proof.
  intros R url doc Hurl (r & Hr & _ & Hnone). simpl. unfold Stub.compile_error.
  destruct (find _ _) as [u|] eqn:Hfind; [by eexists|]. exfalso.
  assert (ref_resource r ∈ Stub.reached (S (size R)) R [url]) as Hin.
  { simpl. apply elem_of_cons. right. apply reached_todo. rewrite Hurl, app_nil_r.
    by apply list_elem_of_fmap_2. }
  apply list_elem_of_In in Hin. eapply find_none in Hfind; [|exact Hin].
  simpl in Hfind. by rewrite bool_decide_eq_true_2 in Hfind.
Qed.

Lemma registration_precedes_compilation_witness : 6 < 7 ∧ 16 < 17.
Proof.
  split.
  - eapply (proj1 (registration_precedes_compilation (lib_of Samples.event_library) []
                     "asyncapi.yaml") 7 6); reflexivity.
  - eapply (proj2 (registration_precedes_compilation (lib_of Samples.rest_library) []
                     "openapi.yaml") 17 16); reflexivity.
Defined.

Lemma event_load_succeeds_iff_witness :
  (translates asyncapi_ns (component_schemas Samples.event_spec) ∧
   registers Samples.event_library asyncapi_ns (component_schemas Samples.event_spec) ∧
   compiles Samples.event_library asyncapi_ns (component_schemas Samples.event_spec)
     (registry asyncapi_ns (component_schemas Samples.event_spec))) ∧
  (translates asyncapi_ns (component_schemas Samples.event_spec) ∧
   registers Samples.event_library_reversed asyncapi_ns
     (component_schemas Samples.event_spec) ∧
   compiles Samples.event_library_reversed asyncapi_ns (component_schemas Samples.event_spec)
     (registry asyncapi_ns (component_schemas Samples.event_spec))).
Proof.
  split.
  - apply (proj1 (event_load_succeeds_iff Samples.event_library [] "asyncapi.yaml"
                    (Stub.content 0) Samples.event_spec
                    (range_complete_stub _ _ _) eq_refl eq_refl)).
    exists Samples.event_validator. vm_compute. reflexivity.
  - apply (proj1 (event_load_succeeds_iff Samples.event_library_reversed [] "asyncapi.yaml"
                    (Stub.content 0) Samples.event_spec
                    (range_complete_stub_reversed _ _ _) eq_refl eq_refl)).
    exists Samples.event_validator. vm_compute. reflexivity.
Defined.

Lemma loaded_names_are_the_registered_witness :
  AsyncAPI.schemas Samples.event_validator !! "bad" =
    compiled_for asyncapi_ns (component_schemas Samples.event_spec) "bad" ∧
  (component_schemas Samples.event_spec !! "bad" ≫= resource_of asyncapi_ns = None ↔
   ∀ w1, outcome (run (lib_of Samples.event_library)
                    (AsyncAPI.ValidateMessage Samples.event_validator "bad"
                       (Examples.bytes "{}")) w1) =
         Done (Samples.event_validator, Some ("schema not found: " +:+ "bad"))).
Proof.
  apply (loaded_names_are_the_registered Samples.event_library [] "asyncapi.yaml"
           (Stub.content 0) Samples.event_spec Samples.event_validator "bad"
           (Examples.bytes "{}") (range_complete_stub _ _ _) eq_refl eq_refl).
  vm_compute. reflexivity.
Defined.

Lemma event_load_missing_reference_witness :
  ∃ name' e0,
    outcome (run (lib_of Samples.broken_library)
               (AsyncAPI.NewAsyncAPIValidator "asyncapi.yaml") []) =
    Done (None, Some ("compiling schema " +:+ name' +:+ ": " +:+ e0)).
Proof.
  refine (proj2 (event_load_missing_reference Samples.broken_library [] "asyncapi.yaml"
                   (Stub.content 0) Samples.broken_spec "A" (Samples.ref_to "Missing")
                   (VMap {["$schema" := VString draft_2020_12;
                           "$ref" := VString "synapse://asyncapi/Missing"]})
                   (range_complete_stub _ _ _) (resolves_references_stub _ _ _ _)
                   eq_refl eq_refl _ _ _) _ _).
  - vm_compute. reflexivity.
  - vm_compute. reflexivity.
  - exists "synapse://asyncapi/Missing". split_and!.
    + vm_compute. apply list_elem_of_here.
    + vm_compute. reflexivity.
    + vm_compute. reflexivity.
  - intros name val Hval. unfold component_schemas, Samples.broken_spec in Hval.
    simpl in Hval. apply lookup_singleton_Some in Hval as [<- <-]. vm_compute. reflexivity.
  - intros name val d Hval Hres. reflexivity.
Defined.

Lemma rest_files_read :
  Forall2 (reads_as Samples.rest_library
             (lib_Join Samples.rest_library
                [lib_Dir Samples.rest_library "openapi.yaml"; "components"; "schemas"]))
    (filter (λ f, is_schema_file f = true) Samples.listing)
    ([Samples.file_a] ++ Samples.file_b :: []).
Proof.
  repeat constructor.
  - exists (Stub.content 1). split; vm_compute; reflexivity.
  - exists (Stub.content 2). split; vm_compute; reflexivity.
Defined.

Lemma rest_load_succeeds_iff_witness :
  Forall (translates openapi_ns) [Samples.file_a; Samples.file_b] ∧
  Forall (registers Samples.rest_library openapi_ns) [Samples.file_a; Samples.file_b] ∧
  Forall (λ doc, compiles Samples.rest_library openapi_ns doc
                   (registry_of_files openapi_ns ∅ [Samples.file_a; Samples.file_b]))
    [Samples.file_a; Samples.file_b].
Proof.
  apply (proj1 (rest_load_succeeds_iff Samples.rest_library [] "openapi.yaml"
                  (Stub.content 0) ∅ Samples.listing [Samples.file_a; Samples.file_b]
                  (range_complete_stub _ _ _) eq_refl eq_refl eq_refl rest_files_read)).
  exists Samples.rest_validator. vm_compute. reflexivity.
Defined.

Lemma rest_duplicate_name_last_wins_witness :
  OpenAPI.schemas Samples.rest_validator !! "Dup" =
    Some {| Location := schemaID openapi_ns "Dup" |} ∧
  ∃ R, (run (lib_of Samples.rest_library) (OpenAPI.NewOpenAPIValidator "openapi.yaml") []).1.2
       = [] ++ [R] ∧
       R !! schemaID openapi_ns "Dup" =
         Some (VMap {["$schema" := VString draft_2020_12; "type" := VString "integer"]}).
Proof.
  apply (rest_duplicate_name_last_wins Samples.rest_library [] "openapi.yaml"
           (Stub.content 0) ∅ Samples.listing [Samples.file_a] [] Samples.file_b
           Samples.rest_validator "Dup" (VMap {["type" := VString "integer"]})
           (VMap {["$schema" := VString draft_2020_12; "type" := VString "integer"]})
           (range_complete_stub _ _ _) eq_refl eq_refl eq_refl rest_files_read).
  - vm_compute. reflexivity.
  - vm_compute. reflexivity.
  - vm_compute. reflexivity.
  - constructor.
Defined.

(** ** When the translator returns *)

Lemma depth_seq_elem l x : x ∈ l → depth x < depth (VSeq l).
Proof.
  simpl. induction 1 as [x l|x y l Hin IH]; simpl; lia.
Qed.

Lemma depth_map_elem m k x : m !! k = Some x → depth x < depth (VMap m).
Proof.
  intros Hk. simpl. rewrite map_fold_foldr.
  apply elem_of_map_to_list in Hk. revert Hk.
  generalize (map_to_list m) as l.
  induction l as [|[k' y] l IH]; intros Hin; [by apply elem_of_nil in Hin|].
  apply elem_of_cons in Hin as [[= <- <-]|Hin]; simpl; [lia|].
  specialize (IH Hin). lia.
Qed.

Lemma returns_go_bind {A B} (x : Go A) (f : A → Go B) (b : bool) :
  (∀ a, returns (f a) = b) → returns (go_bind x f) = returns x && b.
Proof. intros Hf. destruct x as [a|]; simpl; [apply Hf|done]. Qed.

Lemma returns_rewrite_ref ns val :
  returns (rewrite_ref ns val) = match val with VString _ => true | _ => false end.
Proof.
  destruct val; try done. unfold rewrite_ref. simpl.
  destruct (last_part_segment s) as (name & -> & _). done.
Qed.

Lemma returns_convertProperties ns (check : any → bool) props :
  (∀ k p, props !! k = Some p → returns (toJSONSchema_node ns p) = check p) →
  (∀ p, (∀ m, p ≠ VMap m) → check p = true) →
  returns (convertProperties_with (toJSONSchema_node ns) props) =
  map_fold (λ _ p ok, check p && ok) true props.
Proof.
  intros Hsub Hother. unfold convertProperties_with. rewrite !map_fold_foldr.
  assert (∀ kp, kp ∈ map_to_list props →
            returns (toJSONSchema_node ns kp.2) = check kp.2) as Hl.
  { intros [k p] Hin. apply elem_of_map_to_list in Hin. by eapply Hsub. }
  revert Hl. generalize (map_to_list props) as l.
  induction l as [|[k p] l IH]; intros Hl; [done|]. simpl.
  rewrite (returns_go_bind _ _ (check p)).
  - rewrite IH; [apply andb_comm|]. intros kp Hin. apply Hl. by right.
  - intros result. specialize (Hl (k, p) ltac:(by left)). simpl in Hl.
    destruct p; try (simpl; symmetry; by apply Hother).
    rewrite <-Hl. by destruct (toJSONSchema_node ns (VMap m)).
Qed.

Lemma returns_convertAllOf ns (check : any → bool) allOf :
  (∀ p, p ∈ allOf → returns (toJSONSchema_node ns p) = check p) →
  (∀ p, (∀ m, p ≠ VMap m) → check p = true) →
  returns (convertAllOf_with (toJSONSchema_node ns) allOf) = forallb check allOf.
Proof.
  intros Hsub Hother. induction allOf as [|p allOf IH]; [done|]. simpl.
  rewrite (returns_go_bind _ _ (forallb check allOf)).
  - f_equal. specialize (Hsub p ltac:(by left)).
    destruct p; try (simpl; symmetry; by apply Hother).
    rewrite <-Hsub. by destruct (toJSONSchema_node ns (VMap m)).
  - intros c. rewrite (returns_go_bind _ _ true); [|done].
    rewrite andb_true_r. apply IH. intros q Hq. apply Hsub. by right.
Qed.

Lemma returns_translate_key ns k val result :
  (∀ p, depth p < depth val → returns (toJSONSchema_node ns p) = refs_are_strings p) →
  returns (toJSONSchema_node ns val) = refs_are_strings val →
  returns (translate_key ns (toJSONSchema_node ns) k val result) =
  ref_check refs_are_strings k val.
Proof.
  intros IH IHval. unfold translate_key, ref_check.
  assert (∀ p, (∀ m, p ≠ VMap m) → refs_are_strings p = true) as Hother.
  { intros p Hp. destruct p; try done. by destruct (Hp m). }
  repeat case_decide.
  - rewrite (returns_go_bind _ _ true); [|done]. rewrite andb_true_r.
    apply returns_rewrite_ref.
  - destruct val; try done.
    rewrite (returns_go_bind _ _ true); [|done]. rewrite andb_true_r.
    apply returns_convertProperties; [|done].
    intros k0 p Hp. apply IH. by eapply depth_map_elem.
  - destruct val; try done.
    rewrite (returns_go_bind _ _ true); [|done]. rewrite andb_true_r. done.
  - destruct val; try done.
    rewrite (returns_go_bind _ _ true); [|done]. rewrite andb_true_r.
    apply returns_convertAllOf; [|done].
    intros p Hp. apply IH. by apply depth_seq_elem.
  - done.
Qed.

Lemma returns_toJSONSchema_node ns : ∀ n node,
  depth node < n → returns (toJSONSchema_node ns node) = refs_are_strings node.
Proof.
  induction n as [|n IH]; intros node Hn; [lia|].
  destruct node as [| | | | | |m|]; try done.
  simpl toJSONSchema_node. simpl refs_are_strings. rewrite !map_fold_foldr.
  assert (∀ kv, kv ∈ map_to_list m → depth kv.2 < n) as Hl.
  { intros [k x] Hin. apply elem_of_map_to_list in Hin.
    apply depth_map_elem in Hin. simpl in *. lia. }
  revert Hl. generalize (map_to_list m) as l.
  induction l as [|[k x] l IHl]; intros Hl; [done|]. simpl.
  rewrite (returns_go_bind _ _ (ref_check refs_are_strings k x)).
  - rewrite IHl; [apply andb_comm|]. intros kv Hin. apply Hl. by right.
  - intros result. specialize (Hl (k, x) ltac:(by left)). simpl in Hl.
    apply returns_translate_key.
    + intros p Hp. apply IH. lia.
    + by apply IH.
Qed.

(** X8. The translator returns a node exactly when every [$ref] it reaches
    (the node's own, and those of the nodes under [properties], [items] and
    [allOf], recursively) holds a string; otherwise it panics. Values of
    unexpected shapes under the other keywords never make it panic. *)
Theorem translator_returns_iff_refs_are_strings (ns : string) (schema : gmap string any) :
  returns (toJSONSchema ns schema) = refs_are_strings (VMap schema).
Proof. apply (returns_toJSONSchema_node ns (S (depth (VMap schema)))). lia. Qed.

(** C2. For every node in which each [$ref] the translator reaches holds
    a string, [toJSONSchema] returns a node [result], and in it: the [$ref]
    is replaced by the namespace prefix followed by the last piece of the
    reference split at "/" (the text after its last "/", or the whole
    reference when it has none); [properties] holds the translation of each
    property that is a mapping, under the same name; [items] holds the
    translation of the item node; [allOf] holds, position by position and in
    the same order, the translations of its elements; every other keyword of
    the node is stored with its value unchanged; and nothing is added but
    the dialect marker. The nested translations return as well. *)
Theorem translator_keywords (ns : string) (schema : gmap string any) :
  refs_are_strings (VMap schema) = true →
  ∃ result, toJSONSchema ns schema = Returns result ∧
  (∀ ref, schema !! "$ref" = Some (VString ref) →
     ∃ name, result !! "$ref" = Some (VString (ns +:+ name)) ∧
             last (strings_Split_slash ref) = Some name ∧ has_slash name = false ∧
             (ref = name ∨ ∃ before, ref = before +:+ "/" +:+ name)) ∧
  (∀ props, schema !! "properties" = Some (VMap props) →
     ∃ props', result !! "properties" = Some (VMap props') ∧
       ∀ name, match props !! name with
               | Some (VMap p) => ∃ r, toJSONSchema ns p = Returns r ∧
                                       props' !! name = Some (VMap r)
               | _ => props' !! name = None
               end) ∧
  (∀ items, schema !! "items" = Some (VMap items) →
     ∃ r, toJSONSchema ns items = Returns r ∧ result !! "items" = Some (VMap r)) ∧
  (∀ allOf, schema !! "allOf" = Some (VSeq allOf) →
     ∃ converted, result !! "allOf" = Some (VSeq converted) ∧
       length converted = length allOf ∧
       ∀ i p, allOf !! i = Some (VMap p) →
         ∃ r, toJSONSchema ns p = Returns r ∧ converted !! i = Some (VMap r)) ∧
  (∀ k val, k ∉ ["$ref"; "properties"; "items"; "allOf"] →
     schema !! k = Some val → result !! k = Some val) ∧
  (∀ k, schema !! k = None → k ≠ "$schema" → result !! k = None).
Proof.
  intros Hrefs.
  assert (returns (toJSONSchema ns schema) = true) as Hreturns.
  { unfold toJSONSchema.
    by rewrite (returns_toJSONSchema_node ns (S (depth (VMap schema)))) by lia. }
  destruct (toJSONSchema ns schema) as [result|msg] eqn:Hres; [|done].
  exists result. split; [done|].
  pose proof (toJSONSchema_lookup ns schema result Hres) as Hlook.
  split_and!.
  - intros ref Href. specialize (Hlook "$ref"). rewrite Href in Hlook.
    destruct Hlook as (o & Ho & ->). unfold translated_value in Ho. simpl in Ho.
    destruct (last_part_segment ref) as (name & Hlast & Hname & Hseg).
    unfold rewrite_ref in Ho. simpl in Ho. rewrite Hlast in Ho. injection Ho as <-.
    exists name. split; [done|]. split; [|done].
    unfold last_part in Hlast. by destruct (last _); simplify_eq.
  - intros props Hprops. specialize (Hlook "properties"). rewrite Hprops in Hlook.
    destruct Hlook as (o & Ho & ->). unfold translated_value in Ho. simpl in Ho.
    apply go_bind_Returns in Ho as (props' & Hconv & [= <-]).
    exists props'. split; [done|]. by apply convertProperties_lookup.
  - intros items Hitems. specialize (Hlook "items"). rewrite Hitems in Hlook.
    destruct Hlook as (o & Ho & ->). unfold translated_value in Ho. simpl in Ho.
    apply go_bind_Returns in Ho as (r & Hr & [= <-]). by exists r.
  - intros allOf HallOf. specialize (Hlook "allOf"). rewrite HallOf in Hlook.
    destruct Hlook as (o & Ho & ->). unfold translated_value in Ho. simpl in Ho.
    apply go_bind_Returns in Ho as (converted & Hconv & [= <-]).
    exists converted. split; [done|].
    destruct (convertAllOf_lookup ns allOf converted Hconv) as [Hlen Hall].
    split; [done|]. intros i p Hi. apply (Hall i (VMap p) Hi).
  - intros k val Hk Hval. specialize (Hlook k). rewrite Hval in Hlook.
    destruct Hlook as (o & Ho & ->). unfold translated_value in Ho.
    rewrite !not_elem_of_cons in Hk. destruct Hk as (? & ? & ? & ? & _).
    repeat case_decide; try done. by injection Ho as <-.
  - intros k Hk Hne. specialize (Hlook k). rewrite Hk in Hlook.
    rewrite Hlook. by apply lookup_singleton_ne.
Qed.

Lemma translator_keywords_witness :
  ∃ result, toJSONSchema asyncapi_ns Examples.order_node = Returns result ∧
    (∃ props', result !! "properties" = Some (VMap props') ∧
       props' !! "note" = None ∧
       ∃ r, toJSONSchema asyncapi_ns
              {["type" := VString "array"; "items" := VMap Examples.item_ref]} = Returns r ∧
            props' !! "items" = Some (VMap r)) ∧
    (∃ converted, result !! "allOf" = Some (VSeq converted) ∧ length converted = 2 ∧
       ∃ r, toJSONSchema asyncapi_ns Examples.item_ref = Returns r ∧
            converted !! 0 = Some (VMap r)) ∧
    result !! "type" = Some (VString "object").
Proof.
  destruct (translator_keywords asyncapi_ns Examples.order_node)
    as (result & Hres & _ & Hprops & _ & HallOf & Hother & _).
  { vm_compute. reflexivity. }
  exists result. split; [done|]. split_and!.
  - destruct (Hprops {["items" := VMap {["type" := VString "array";
                                         "items" := VMap Examples.item_ref]};
                       "note" := VInt 7]}) as (props' & Hp & Hall).
    { vm_compute. reflexivity. }
    exists props'. split; [done|]. split.
    + exact (Hall "note").
    + exact (Hall "items").
  - destruct (HallOf [VMap Examples.item_ref; VBool true]) as (converted & Hc & Hlen & Hall).
    { vm_compute. reflexivity. }
    exists converted. split; [done|]. split; [done|].
    apply (Hall 0 Examples.item_ref). reflexivity.
  - apply Hother; [|vm_compute; reflexivity].
    intros Hin. repeat (apply elem_of_cons in Hin as [Hin|Hin]; [discriminate Hin|]).
    by apply elem_of_nil in Hin.
Defined.

(** X9. Every translated node carries the key [$schema]: the 2020-12
    dialect marker, unless the source node has a [$schema] key of its own,
    whose value then replaces the marker. *)
Theorem translated_node_marker (ns : string) (schema result : gmap string any) :
  toJSONSchema ns schema = Returns result →
  result !! "$schema" = Some (default (VString draft_2020_12) (schema !! "$schema")).
Proof.
  intros Hres. pose proof (toJSONSchema_lookup ns schema result Hres "$schema") as Hlook.
  destruct (schema !! "$schema") as [val|]; simpl.
  - destruct Hlook as (o & Ho & ->). unfold translated_value in Ho. simpl in Ho.
    by injection Ho as <-.
  - by rewrite Hlook, lookup_singleton_eq.
Qed.

Lemma translated_node_marker_witness :
  Examples.item_ref_translated !! "$schema" =
  Some (default (VString draft_2020_12) (Examples.item_ref !! "$schema")).
Proof.
  apply (translated_node_marker asyncapi_ns Examples.item_ref Examples.item_ref_translated).
  vm_compute. reflexivity.
Defined.

Lemma strings_Split_slash_app before rest :
  ∃ pieces, pieces ≠ [] ∧
    strings_Split_slash (before +:+ "/" +:+ rest) = pieces ++ strings_Split_slash rest.
Proof.
  induction before as [|c before (pieces & Hne & IH)].
  - exists [""]. done.
  - change (String c before +:+ "/" +:+ rest) with (String c (before +:+ "/" +:+ rest)).
    simpl. rewrite IH. destruct (Ascii.eqb c "/").
    + exists ("" :: pieces). done.
    + destruct pieces as [|p pieces]; [done|]. simpl. by exists (String c p :: pieces).
Qed.

Lemma strings_Split_slash_plain name :
  has_slash name = false → strings_Split_slash name = [name].
Proof.
  induction name as [|c name IH]; [done|]. simpl.
  destruct (Ascii.eqb c "/"); [done|]. simpl. intros Hname. by rewrite IH.
Qed.

(** X10. Only the text after the last "/" of a reference survives the
    rewriting: references that end in the same segment, whatever document
    or path comes before it, are rewritten to one and the same resource
    identifier, namespace + segment. *)
Theorem references_collide_on_last_segment (ns : string) (schema result : gmap string any)
    (before name : string) :
  has_slash name = false →
  toJSONSchema ns schema = Returns result →
  schema !! "$ref" = Some (VString (before +:+ "/" +:+ name)) ∨
    schema !! "$ref" = Some (VString name) →
  result !! "$ref" = Some (VString (schemaID ns name)).
Proof.
  intros Hname Hres Href.
  pose proof (toJSONSchema_lookup ns schema result Hres "$ref") as Hlook.
  assert (∀ ref, schema !! "$ref" = Some (VString ref) →
            last (strings_Split_slash ref) = Some name →
            result !! "$ref" = Some (VString (schemaID ns name))) as Hlast.
  { intros ref Hr Hl. rewrite Hr in Hlook. destruct Hlook as (o & Ho & ->).
    unfold translated_value, rewrite_ref, last_part in Ho. simpl in Ho.
    rewrite Hl in Ho. simpl in Ho. by injection Ho as <-. }
  destruct Href as [Href|Href]; apply (Hlast _ Href).
  - destruct (strings_Split_slash_app before name) as (pieces & _ & ->).
    rewrite strings_Split_slash_plain by done. by rewrite last_snoc.
  - by rewrite strings_Split_slash_plain.
Qed.

Lemma references_collide_on_last_segment_witness :
  Examples.item_ref_translated !! "$ref" = Some (VString (schemaID asyncapi_ns "OrderItem")).
Proof.
  apply (references_collide_on_last_segment asyncapi_ns Examples.item_ref
           Examples.item_ref_translated "#/components/schemas" "OrderItem").
  - reflexivity.
  - vm_compute. reflexivity.
  - left. vm_compute. reflexivity.
Defined.

(** ** Further properties of the test suites *)

(** X11. When the request is sent and the status is the expected one,
    [RunTest] validates nothing if the response body is empty or the schema
    name is the empty string: the test passes on the status alone, with no
    call to the JSON decoder or to a compiled schema, even for a schema
    name the validator does not know. *)
Theorem RunTest_passes_without_validation (L : Lib) (w w1 w2 w3 w4 : World L)
    (s : OpenAPI.ContractTestSuite) (ctx : Context) (client : Client)
    (baseURL method path : string) (body : option (list byte)) (expectedStatus : Z)
    (responseSchema : string) (req : Request) (resp : Response) (respBody : list byte)
    (rerr cerr : option error) :
  handle L (http_NewRequestWithContext ctx method (baseURL +:+ path) body) w = (Ok req, w1) →
  handle L (Client_Do client (Header_Set req "Content-Type" "application/json")) w1
    = (Ok resp, w2) →
  handle L (io_ReadAll (Body resp)) w2 = ((respBody, rerr), w3) →
  handle L (Body_Close (Body resp)) w3 = (cerr, w4) →
  StatusCode resp = expectedStatus →
  responseSchema = "" ∨ respBody = [] →
  ∃ t, run L (OpenAPI.RunTest s ctx client baseURL method path body expectedStatus
                responseSchema) w =
       (Done (OpenAPI.record (OpenAPI.validator s) (OpenAPI.results s)
                (OpenAPI.set_Passed
                   (OpenAPI.set_Response (blank_result method path body responseSchema)
                      (String.string_of_list_byte respBody)) true)), w4, t) ∧
       Forall (λ ev, is_parse_or_validate ev = false) t.
Proof.
  intros Hreq Hdo Hread Hclose Hstatus Hskip.
  unfold OpenAPI.RunTest. simpl. rewrite Hreq. simpl. rewrite Hdo. simpl.
  rewrite Hread. simpl.
  rewrite decide_False by (intros Hne; by apply Hne).
  rewrite decide_False.
  2: { intros [Hschema Hlen]. destruct Hskip as [->| ->]; [done|simpl in Hlen; lia]. }
  simpl. rewrite Hclose. simpl. eexists. split; [reflexivity|]. by repeat constructor.
Qed.

Lemma RunTest_passes_without_validation_witness :
  ∃ t, run (lib_of Samples.rest_library)
         (OpenAPI.RunTest {| OpenAPI.validator := Samples.rest_validator;
                             OpenAPI.results := [] |}
            0 0 "http://localhost" "GET" "/health" None 200 "NoSuchSchema") [] =
       (Done (OpenAPI.record Samples.rest_validator []
                (OpenAPI.set_Passed
                   (OpenAPI.set_Response (blank_result "GET" "/health" None "NoSuchSchema")
                      (String.string_of_list_byte [])) true)), [], t) ∧
       Forall (λ ev, is_parse_or_validate ev = false) t.
Proof.
  apply (RunTest_passes_without_validation (lib_of Samples.rest_library) [] [] [] [] []
           {| OpenAPI.validator := Samples.rest_validator; OpenAPI.results := [] |}
           0 0 "http://localhost" "GET" "/health" None 200 "NoSuchSchema"
           {| req_Method := "GET"; req_URL := "http://localhost/health"; req_Body := None;
              req_Header := [] |}
           {| StatusCode := 200; Body := 0 |} [] None None).
  - vm_compute. reflexivity.
  - vm_compute. reflexivity.
  - vm_compute. reflexivity.
  - vm_compute. reflexivity.
  - reflexivity.
  - by right.
Defined.

(** X12. A response whose status differs from the expected one fails the
    test before any validation: the error is "expected status <expected>, got
    <actual>", the response body is still recorded, the body is closed, and
    neither the JSON decoder nor a compiled schema is called. *)
Theorem RunTest_status_mismatch (L : Lib) (w w1 w2 w3 w4 : World L)
    (s : OpenAPI.ContractTestSuite) (ctx : Context) (client : Client)
    (baseURL method path : string) (body : option (list byte)) (expectedStatus : Z)
    (responseSchema : string) (req : Request) (resp : Response) (respBody : list byte)
    (rerr cerr : option error) :
  handle L (http_NewRequestWithContext ctx method (baseURL +:+ path) body) w = (Ok req, w1) →
  handle L (Client_Do client (Header_Set req "Content-Type" "application/json")) w1
    = (Ok resp, w2) →
  handle L (io_ReadAll (Body resp)) w2 = ((respBody, rerr), w3) →
  handle L (Body_Close (Body resp)) w3 = (cerr, w4) →
  StatusCode resp ≠ expectedStatus →
  ∃ t, run L (OpenAPI.RunTest s ctx client baseURL method path body expectedStatus
                responseSchema) w =
       (Done (OpenAPI.record (OpenAPI.validator s) (OpenAPI.results s)
                (OpenAPI.set_Error
                   (OpenAPI.set_Response (blank_result method path body responseSchema)
                      (String.string_of_list_byte respBody))
                   ("expected status " +:+ pretty expectedStatus +:+ ", got " +:+
                    pretty (StatusCode resp)))), w4, t) ∧
       Forall (λ ev, is_parse_or_validate ev = false) t ∧ count is_Close t = 1.
Proof.
  intros Hreq Hdo Hread Hclose Hstatus.
  unfold OpenAPI.RunTest. simpl. rewrite Hreq. simpl. rewrite Hdo. simpl.
  rewrite Hread. simpl. rewrite decide_True by done.
  simpl. rewrite Hclose. simpl. eexists. split; [reflexivity|].
  split; [by repeat constructor|reflexivity].
Qed.

Lemma RunTest_status_mismatch_witness :
  ∃ t, run (lib_of Samples.rest_library)
         (OpenAPI.RunTest {| OpenAPI.validator := Samples.rest_validator;
                             OpenAPI.results := [] |}
            0 0 "http://localhost" "GET" "/orders" None 201 "Dup") [] =
       (Done (OpenAPI.record Samples.rest_validator []
                (OpenAPI.set_Error
                   (OpenAPI.set_Response (blank_result "GET" "/orders" None "Dup")
                      (String.string_of_list_byte []))
                   ("expected status " +:+ pretty 201%Z +:+ ", got " +:+ pretty 200%Z))),
        [], t) ∧
       Forall (λ ev, is_parse_or_validate ev = false) t ∧ count is_Close t = 1.
Proof.
  apply (RunTest_status_mismatch (lib_of Samples.rest_library) [] [] [] [] []
           {| OpenAPI.validator := Samples.rest_validator; OpenAPI.results := [] |}
           0 0 "http://localhost" "GET" "/orders" None 201 "Dup"
           {| req_Method := "GET"; req_URL := "http://localhost/orders"; req_Body := None;
              req_Header := [] |}
           {| StatusCode := 200; Body := 0 |} [] None None).
  - vm_compute. reflexivity.
  - vm_compute. reflexivity.
  - vm_compute. reflexivity.
  - vm_compute. reflexivity.
  - simpl. lia.
Defined.

(** X13. On every path of [RunTest], whatever the libraries answer, at
    most one request is sent with [client.Do], whether it is answered or
    fails; and the response body is closed exactly once if [client.Do]
    returned a response and is not touched otherwise. *)
Theorem RunTest_closes_body_once (L : Lib) (w : World L) (s : OpenAPI.ContractTestSuite)
    (ctx : Context) (client : Client) (baseURL method path : string)
    (body : option (list byte)) (expectedStatus : Z) (responseSchema : string) :
  count is_Close (trace (run L (OpenAPI.RunTest s ctx client baseURL method path body
                                  expectedStatus responseSchema) w)) =
  count is_response (trace (run L (OpenAPI.RunTest s ctx client baseURL method path body
                                     expectedStatus responseSchema) w)) ∧
  count is_request (trace (run L (OpenAPI.RunTest s ctx client baseURL method path body
                                    expectedStatus responseSchema) w)) ≤ 1 ∧
  count is_response (trace (run L (OpenAPI.RunTest s ctx client baseURL method path body
                                     expectedStatus responseSchema) w)) ≤
  count is_request (trace (run L (OpenAPI.RunTest s ctx client baseURL method path body
                                    expectedStatus responseSchema) w)).
Proof.
  unfold OpenAPI.RunTest, trace. simpl.
  destruct (handle L (http_NewRequestWithContext _ _ _ _) w) as [[req|e] w1]; simpl;
    [|split_and!; [reflexivity|by compute; lia..]].
  destruct (handle L (Client_Do _ _) w1) as [[resp|e] w2]; simpl;
    [|split_and!; [reflexivity|by compute; lia..]].
  destruct (handle L (io_ReadAll _) w2) as [[respBody ?] w3]; simpl.
  destruct (decide (StatusCode resp ≠ expectedStatus)); simpl.
  { destruct (handle L (Body_Close _) w3) as [? w4]. simpl.
    split_and!; [reflexivity|by compute; lia..]. }
  destruct (decide (responseSchema ≠ "" ∧ 0 < length respBody)); simpl.
  2: { destruct (handle L (Body_Close _) w3) as [? w4]. simpl.
       split_and!; [reflexivity|by compute; lia..]. }
  rewrite run_prog_bind, run_ValidateResponse.
  destruct (OpenAPI.schemas (OpenAPI.validator s) !! responseSchema) as [schema|]; simpl.
  - destruct (handle L (json_Unmarshal respBody) w3) as [[data|e] w4]; simpl.
    + destruct (handle L (Schema_Validate schema data) w4) as [[e|] w5]; simpl;
        destruct (handle L (Body_Close _) w5) as [? w6]; simpl;
        (split_and!; [reflexivity|by compute; lia..]).
    + destruct (handle L (Body_Close _) w4) as [? w5]. simpl.
      split_and!; [reflexivity|by compute; lia..].
  - destruct (handle L (Body_Close _) w3) as [? w4]. simpl.
    split_and!; [reflexivity|by compute; lia..].
Qed.

(** X14. A request that cannot be built is not sent: the result carries
    "creating request: ..." and the only call made is the one that failed. A
    request that fails in transit yields "executing request: ...", and
    nothing is read, validated or closed. Both results are recorded as
    failed. *)
Theorem RunTest_transport_errors (L : Lib) (w w1 : World L) (s : OpenAPI.ContractTestSuite)
    (ctx : Context) (client : Client) (baseURL method path : string)
    (body : option (list byte)) (expectedStatus : Z) (responseSchema : string) (e : error) :
  (handle L (http_NewRequestWithContext ctx method (baseURL +:+ path) body) w = (Err e, w1) →
   run L (OpenAPI.RunTest s ctx client baseURL method path body expectedStatus
            responseSchema) w =
   (Done (OpenAPI.record (OpenAPI.validator s) (OpenAPI.results s)
            (OpenAPI.set_Error (blank_result method path body responseSchema)
               ("creating request: " +:+ e))), w1,
    [event (http_NewRequestWithContext ctx method (baseURL +:+ path) body) (Err e)])) ∧
  (∀ req w2,
     handle L (http_NewRequestWithContext ctx method (baseURL +:+ path) body) w = (Ok req, w1) →
     handle L (Client_Do client (Header_Set req "Content-Type" "application/json")) w1
       = (Err e, w2) →
     run L (OpenAPI.RunTest s ctx client baseURL method path body expectedStatus
              responseSchema) w =
     (Done (OpenAPI.record (OpenAPI.validator s) (OpenAPI.results s)
              (OpenAPI.set_Error (blank_result method path body responseSchema)
                 ("executing request: " +:+ e))), w2,
      [event (http_NewRequestWithContext ctx method (baseURL +:+ path) body) (Ok req);
       event (Client_Do client (Header_Set req "Content-Type" "application/json"))
         (Err e)])).
Proof.
  split.
  - intros Hreq. unfold OpenAPI.RunTest. simpl. by rewrite Hreq.
  - intros req w2 Hreq Hdo. unfold OpenAPI.RunTest. simpl. rewrite Hreq. simpl.
    by rewrite Hdo.
Qed.

Lemma RunTest_transport_errors_witness :
  run (lib_of Samples.rest_library)
    (OpenAPI.RunTest {| OpenAPI.validator := Samples.rest_validator; OpenAPI.results := [] |}
       0 0 "http://localhost" "" "/orders" None 200 "Dup") [] =
  (Done (OpenAPI.record Samples.rest_validator []
           (OpenAPI.set_Error (blank_result "" "/orders" None "Dup")
              ("creating request: " +:+ "net/http: invalid method"))), [],
   [event (http_NewRequestWithContext 0 "" ("http://localhost" +:+ "/orders") None)
      (Err "net/http: invalid method")]).
Proof.
  apply (proj1 (RunTest_transport_errors (lib_of Samples.rest_library) [] []
                  {| OpenAPI.validator := Samples.rest_validator; OpenAPI.results := [] |}
                  0 0 "http://localhost" "" "/orders" None 200 "Dup"
                  "net/http: invalid method")).
  vm_compute. reflexivity.
Defined.

Lemma Summary_filter {A} (passed : A → bool) (rs : list A) : ∀ p f,
  foldl (λ '(passed_, failed_) r,
      if passed r then (S passed_, failed_) else (passed_, S failed_)) (p, f) rs =
  (p + length (filter (λ r, passed r = true) rs),
   f + length (filter (λ r, passed r = false) rs)).
Proof.
  induction rs as [|r rs IH]; intros p f; simpl.
  { f_equal; lia. }
  rewrite !filter_cons. destruct (passed r) eqn:Hr; rewrite IH.
  - rewrite decide_True, decide_False by done. simpl. f_equal; lia.
  - rewrite decide_False, decide_True by done. simpl. f_equal; lia.
Qed.

(** X15. [Summary] counts: its first component is the number of recorded
    results with [Passed] set and its second the number of those without,
    for both suites; for a suite without results it is (0, 0). *)
Theorem Summary_counts_results (s : AsyncAPI.EventContractTestSuite)
    (s' : OpenAPI.ContractTestSuite) :
  AsyncAPI.Summary s =
    (length (filter (λ r, AsyncAPI.Passed r = true) (AsyncAPI.results s)),
     length (filter (λ r, AsyncAPI.Passed r = false) (AsyncAPI.results s))) ∧
  OpenAPI.Summary s' =
    (length (filter (λ r, OpenAPI.Passed r = true) (OpenAPI.results s')),
     length (filter (λ r, OpenAPI.Passed r = false) (OpenAPI.results s'))).
Proof.
  split.
  - unfold AsyncAPI.Summary. by rewrite (Summary_filter AsyncAPI.Passed).
  - unfold OpenAPI.Summary. by rewrite (Summary_filter OpenAPI.Passed).
Qed.

(** X16. A suite constructor makes the calls of the validator constructor
    and nothing else. When that returns a validator, the suite holds it with
    an empty result list (so [Summary] is (0, 0)); when it returns an error,
    the same error is returned and no suite; a panic of the loader is the
    only way the suite constructor panics. *)
Theorem suite_constructors (L : Lib) (w : World L) (specPath : string) :
  (trace (run L (AsyncAPI.NewEventContractTestSuite specPath) w) =
     trace (run L (AsyncAPI.NewAsyncAPIValidator specPath) w) ∧
   match outcome (run L (AsyncAPI.NewAsyncAPIValidator specPath) w) with
   | Done (Some v, None) =>
       outcome (run L (AsyncAPI.NewEventContractTestSuite specPath) w) =
       Done (Some {| AsyncAPI.validator := v; AsyncAPI.results := [] |}, None) ∧
       AsyncAPI.Summary {| AsyncAPI.validator := v; AsyncAPI.results := [] |} = (0, 0)
   | Done (None, Some e) =>
       outcome (run L (AsyncAPI.NewEventContractTestSuite specPath) w) = Done (None, Some e)
   | Done _ => False
   | Panicked msg =>
       outcome (run L (AsyncAPI.NewEventContractTestSuite specPath) w) = Panicked msg
   end) ∧
  (trace (run L (OpenAPI.NewContractTestSuite specPath) w) =
     trace (run L (OpenAPI.NewOpenAPIValidator specPath) w) ∧
   match outcome (run L (OpenAPI.NewOpenAPIValidator specPath) w) with
   | Done (Some v, None) =>
       outcome (run L (OpenAPI.NewContractTestSuite specPath) w) =
       Done (Some {| OpenAPI.validator := v; OpenAPI.results := [] |}, None) ∧
       OpenAPI.Summary {| OpenAPI.validator := v; OpenAPI.results := [] |} = (0, 0)
   | Done (None, Some e) =>
       outcome (run L (OpenAPI.NewContractTestSuite specPath) w) = Done (None, Some e)
   | Done _ => False
   | Panicked msg =>
       outcome (run L (OpenAPI.NewContractTestSuite specPath) w) = Panicked msg
   end).
Proof.
  split.
  - pose proof (NewAsyncAPIValidator_run L specPath w) as [_ Hshape].
    unfold AsyncAPI.NewEventContractTestSuite, trace, outcome in *. rewrite run_bind.
    destruct (run L (AsyncAPI.NewAsyncAPIValidator specPath) w) as [[o w1] t1].
    simpl in *. destruct o as [[[v|] [e|]]|msg]; simpl; try done.
    + by rewrite app_nil_r.
    + by rewrite app_nil_r.
  - pose proof (NewOpenAPIValidator_run L specPath w) as [_ Hshape].
    unfold OpenAPI.NewContractTestSuite, trace, outcome in *. rewrite run_bind.
    destruct (run L (OpenAPI.NewOpenAPIValidator specPath) w) as [[o w1] t1].
    simpl in *. destruct o as [[[v|] [e|]]|msg]; simpl; try done.
    + by rewrite app_nil_r.
    + by rewrite app_nil_r.
Qed.

(** X17. After a successful load of an event specification, [Channels]
    holds an entry exactly for the channels whose definition is a mapping,
    whatever the order of iteration: the entry carries the channel's name,
    its [address] and [description] when these are strings and the empty
    string otherwise, and an empty message name. *)
Theorem loaded_channels (L : Library) (w : Compilers) (specPath : string)
    (data : list byte) (spec : gmap string any) (v : AsyncAPI.AsyncAPIValidator)
    (name : string) :
  range_complete L →
  lib_ReadFile L specPath = Ok data →
  lib_yaml L data = Ok spec →
  outcome (run (lib_of L) (AsyncAPI.NewAsyncAPIValidator specPath) w) = Done (Some v, None) →
  AsyncAPI.Channels v !! name = channel_entries spec !! name ≫= channel_info name.
Proof.
  intros Hrange Hread Hyaml Hv.
  pose proof (event_validator_model L w specPath data spec Hrange Hread Hyaml) as Hmodel.
  cbv zeta in Hmodel. rewrite Hv in Hmodel.
  destruct Hmodel as (_ & _ & _ & _ & Hchannels & _). apply Hchannels.
Qed.

Lemma loaded_channels_witness :
  AsyncAPI.Channels Samples.event_validator !! "orders" =
    channel_entries Samples.event_spec !! "orders" ≫= channel_info "orders" ∧
  AsyncAPI.Channels Samples.event_validator !! "draft" =
    channel_entries Samples.event_spec !! "draft" ≫= channel_info "draft".
Proof.
  split.
  - apply (loaded_channels Samples.event_library_reversed [] "asyncapi.yaml" (Stub.content 0)
             Samples.event_spec Samples.event_validator "orders"
             (range_complete_stub_reversed _ _ _) eq_refl eq_refl).
    vm_compute. reflexivity.
  - apply (loaded_channels Samples.event_library [] "asyncapi.yaml" (Stub.content 0)
             Samples.event_spec Samples.event_validator "draft"
             (range_complete_stub _ _ _) eq_refl eq_refl).
    vm_compute. reflexivity.
Defined.

Lemma read_path_AddResource t :
  Forall (λ ev, is_AddResource ev = true) t → Forall (λ ev, read_path ev = None) t.
Proof.
  intros Ht. eapply Forall_impl; [exact Ht|].
  intros [T [c r]]; simpl. by destruct c.
Qed.

Lemma read_path_Compile t :
  Forall (λ ev, is_Compile ev = true) t → Forall (λ ev, read_path ev = None) t.
Proof.
  intros Ht. eapply Forall_impl; [exact Ht|].
  intros [T [c r]]; simpl. by destruct c.
Qed.

Lemma addFiles_reads (L : Library) c dir files : ∀ names (w : Compilers) o w' t,
  run (lib_of L) (OpenAPI.addFiles c dir files names) w = (o, w', t) →
  Forall (λ ev, ∀ p, read_path ev = Some p →
            ∃ file, file ∈ files ∧ is_schema_file file = true ∧
                    p = lib_Join L [dir; Name_ file]) t.
Proof.
  induction files as [|file files IH]; intros names w o w' t; simpl.
  { intros [= <- <- <-]. constructor. }
  assert (∀ names w o w' t,
    run (lib_of L) (OpenAPI.addFiles c dir files names) w = (o, w', t) →
    Forall (λ ev, ∀ p, read_path ev = Some p →
              ∃ file0, file0 ∈ file :: files ∧ is_schema_file file0 = true ∧
                       p = lib_Join L [dir; Name_ file0]) t) as IH'.
  { intros names0 w0 o0 w0' t0 Hrun. eapply Forall_impl; [by eapply IH|]. simpl.
    intros ev Hev p Hp. destruct (Hev p Hp) as (file0 & ? & ? & ?).
    exists file0. split; [by right|done]. }
  destruct (IsDir file || negb (strings_HasSuffix (Name_ file) ".yaml")) eqn:Hskip;
    [apply IH'|].
  destruct (decide (Name_ file = "_index.yaml")) as [Hidx|Hidx]; [apply IH'|].
  assert (is_schema_file file = true) as Hsf.
  { unfold is_schema_file. rewrite Hskip. simpl. by rewrite bool_decide_eq_false_2. }
  assert (∀ r, ∀ p, read_path (event (os_ReadFile (lib_Join L [dir; Name_ file])) r) = Some p →
            ∃ file0, file0 ∈ file :: files ∧ is_schema_file file0 = true ∧
                     p = lib_Join L [dir; Name_ file0]) as Hthis.
  { intros r p [= <-]. exists file. split; [by left|done]. }
  simpl.
  destruct (lib_ReadFile L (lib_Join L [dir; Name_ file])) as [data|e]; simpl.
  2: { intros [= <- <- <-]. constructor; [done|]. constructor; [apply Hthis|constructor]. }
  destruct (lib_yaml L data) as [schemas|e]; simpl.
  2: { intros [= <- <- <-]. constructor; [done|]. constructor; [apply Hthis|].
       by repeat constructor. }
  rewrite run_prog_bind.
  destruct (run (lib_of L) (addResources openapi_ns c (lib_range L schemas) names) w)
    as [[o1 w1] t1] eqn:Hrun1.
  apply addResources_run in Hrun1 as [Hadd _]. apply read_path_AddResource in Hadd.
  assert (Forall (λ ev, ∀ p, read_path ev = Some p →
              ∃ file0, file0 ∈ file :: files ∧ is_schema_file file0 = true ∧
                       p = lib_Join L [dir; Name_ file0]) t1) as Ht1.
  { eapply Forall_impl; [exact Hadd|]. simpl. intros ev Hnone p Hp. congruence. }
  destruct o1 as [[names1|e]|msg]; simpl.
  - destruct (run (lib_of L) (OpenAPI.addFiles c dir files names1) w1)
      as [[o2 w2] t2] eqn:Hrun2.
    intros [= <- <- <-]. apply IH' in Hrun2.
    constructor; [done|]. constructor; [apply Hthis|].
    constructor; [done|]. constructor; [done|]. by apply Forall_app_2.
  - intros [= <- <- <-]. rewrite app_nil_r.
    constructor; [done|]. constructor; [apply Hthis|].
    constructor; [done|]. by constructor.
  - intros [= <- <- <-].
    constructor; [done|]. constructor; [apply Hthis|].
    constructor; [done|]. by constructor.
Qed.

(** X18. The REST loader opens the root document and, of the entries of
    [components/schemas], only the regular files with the suffix [.yaml]
    other than [_index.yaml]: every [os.ReadFile] of a run names the
    specification path or such a file of the directory listing. *)
Theorem rest_loader_reads_schema_files_only (L : Library) (w : Compilers) (specPath : string)
    (ev : Event) (p : string) :
  ev ∈ trace (run (lib_of L) (OpenAPI.NewOpenAPIValidator specPath) w) →
  read_path ev = Some p →
  p = specPath ∨
  ∃ files file,
    lib_ReadDir L (lib_Join L [lib_Dir L specPath; "components"; "schemas"]) = Ok files ∧
    file ∈ files ∧ is_schema_file file = true ∧
    p = lib_Join L [lib_Join L [lib_Dir L specPath; "components"; "schemas"]; Name_ file].
Proof.
  unfold OpenAPI.NewOpenAPIValidator, OpenAPI.loadSpec, OpenAPI.loadComponentSchemas, trace.
  remember OpenAPI.addFiles as add eqn:Hadd. simpl.
  assert (∀ t0 : list Event, ev ∈ t0 → read_path ev = Some p →
            Forall (λ ev0, read_path ev0 = None) t0 → False) as Hnot.
  { intros t0 Hin0 Hp0 Hall. rewrite Forall_forall in Hall. apply Hall in Hin0. congruence. }
  destruct (lib_ReadFile L specPath) as [data|e]; simpl.
  2: { intros Hin Hp. apply elem_of_cons in Hin as [->|Hin]; [done|].
       apply elem_of_cons in Hin as [->|Hin]; [|by apply elem_of_nil in Hin].
       injection Hp as <-. by left. }
  destruct (lib_yaml L data) as [spec|e]; simpl.
  2: { intros Hin Hp. apply elem_of_cons in Hin as [->|Hin]; [done|].
       apply elem_of_cons in Hin as [->|Hin]; [injection Hp as <-; by left|].
       apply elem_of_cons in Hin as [->|Hin]; [done|by apply elem_of_nil in Hin]. }
  destruct (lib_ReadDir L _) as [files|e] eqn:Hdir; simpl.
  2: { intros Hin Hp. apply elem_of_cons in Hin as [->|Hin]; [done|].
       apply elem_of_cons in Hin as [->|Hin]; [injection Hp as <-; by left|].
       exfalso. apply (Hnot _ Hin Hp). by repeat constructor. }
  rewrite !run_prog_bind. subst add.
  destruct (run (lib_of L) (OpenAPI.addFiles _ _ files []) _) as [[o1 w1] t1] eqn:Hrun1.
  apply addFiles_reads in Hrun1 as Hreads. rewrite Forall_forall in Hreads.
  assert (ev ∈ t1 → read_path ev = Some p → ∃ files0 file,
            Ok files = Ok files0 ∧ file ∈ files0 ∧ is_schema_file file = true ∧
            p = lib_Join L [lib_Join L [lib_Dir L specPath; "components"; "schemas"];
                            Name_ file]) as Hfrom.
  { intros Hev Hp. destruct (Hreads ev Hev p Hp) as (file & ? & ? & ?). by exists files, file. }
  assert (∀ t2 : list Event, Forall (λ ev0, read_path ev0 = None) t2 →
            ev ∈ event jsonschema_NewCompiler (length w)
                 :: event (os_ReadFile specPath) (Ok data)
                 :: event (yaml_Unmarshal data) (Ok spec)
                 :: event (filepath_Dir specPath) (lib_Dir L specPath)
                 :: event (filepath_Join [lib_Dir L specPath; "components"; "schemas"])
                      (lib_Join L [lib_Dir L specPath; "components"; "schemas"])
                 :: event (os_ReadDir (lib_Join L [lib_Dir L specPath; "components";
                                                   "schemas"])) (Ok files)
                 :: t1 ++ t2 →
            read_path ev = Some p →
            p = specPath ∨ ∃ files0 file,
              Ok files = Ok files0 ∧ file ∈ files0 ∧ is_schema_file file = true ∧
              p = lib_Join L [lib_Join L [lib_Dir L specPath; "components"; "schemas"];
                              Name_ file]) as Hcases.
  { intros t2 Ht2 Hin Hp.
    apply elem_of_cons in Hin as [->|Hin]; [done|].
    apply elem_of_cons in Hin as [->|Hin]; [injection Hp as <-; by left|].
    apply elem_of_cons in Hin as [->|Hin]; [done|].
    apply elem_of_cons in Hin as [->|Hin]; [done|].
    apply elem_of_cons in Hin as [->|Hin]; [done|].
    apply elem_of_cons in Hin as [->|Hin]; [done|].
    apply elem_of_app in Hin as [Hin|Hin]; [right; by apply Hfrom|].
    exfalso. by apply (Hnot _ Hin Hp). }
  destruct o1 as [[schemaNames|e]|msg]; simpl.
  - rewrite run_prog_bind.
    destruct (run (lib_of L) (compileAll openapi_ns _ schemaNames _) w1)
      as [[o2 w2] t2] eqn:Hrun2.
    apply compileAll_run in Hrun2 as [Hcomp _]. apply read_path_Compile in Hcomp.
    destruct o2 as [[compiled [e|]]|msg]; simpl.
    + rewrite !app_nil_r. by apply Hcases.
    + rewrite !app_nil_r. by apply Hcases.
    + by apply Hcases.
  - rewrite !app_nil_r. intros Hin. apply (Hcases []); [constructor|by rewrite app_nil_r].
  - intros Hin. apply (Hcases []); [constructor|by rewrite app_nil_r].
Qed.

Lemma rest_loader_reads_schema_files_only_witness :
  "spec/components/schemas/b.yaml" = "openapi.yaml" ∨
  ∃ files file,
    lib_ReadDir Samples.rest_library
      (lib_Join Samples.rest_library
         [lib_Dir Samples.rest_library "openapi.yaml"; "components"; "schemas"]) = Ok files ∧
    file ∈ files ∧ is_schema_file file = true ∧
    "spec/components/schemas/b.yaml" =
    lib_Join Samples.rest_library
      [lib_Join Samples.rest_library
         [lib_Dir Samples.rest_library "openapi.yaml"; "components"; "schemas"];
       Name_ file].
Proof.
  apply (rest_loader_reads_schema_files_only Samples.rest_library [] "openapi.yaml"
           (event (os_ReadFile "spec/components/schemas/b.yaml") (Ok (Stub.content 2)))).
  - apply (list_elem_of_lookup_2 _ 13). vm_compute. reflexivity.
  - reflexivity.
Defined.

(** X19. A validation call returns a nil error only after the payload was
    decoded and the compiled schema registered under the name was run on the
    decoded value and accepted it; these are then the only two calls it
    made. *)
Theorem pass_requires_validation (L : Lib) (w : World L) (name : string)
    (payload : list byte) :
  (∀ v v1 w2 t,
     run L (AsyncAPI.ValidateMessage v name payload) w = (Done (v1, None), w2, t) →
     ∃ schema data w1,
       AsyncAPI.schemas v !! name = Some schema ∧
       handle L (json_Unmarshal payload) w = (Ok data, w1) ∧
       handle L (Schema_Validate schema data) w1 = (None, w2) ∧
       t = [event (json_Unmarshal payload) (Ok data);
            event (Schema_Validate schema data) None]) ∧
  (∀ v v1 w2 t,
     run L (OpenAPI.ValidateResponse v name payload) w = (Done (v1, None), w2, t) →
     ∃ schema data w1,
       OpenAPI.schemas v !! name = Some schema ∧
       handle L (json_Unmarshal payload) w = (Ok data, w1) ∧
       handle L (Schema_Validate schema data) w1 = (None, w2) ∧
       t = [event (json_Unmarshal payload) (Ok data);
            event (Schema_Validate schema data) None]).
Proof.
  split; intros v v1 w2 t.
  - rewrite run_ValidateMessage.
    destruct (AsyncAPI.schemas v !! name) as [schema|]; [|done].
    destruct (handle L (json_Unmarshal payload) w) as [[data|e] w1]; [|done].
    destruct (handle L (Schema_Validate schema data) w1) as [[e|] w3] eqn:Hval; [done|].
    intros [= <- <- <-]. by exists schema, data, w1.
  - rewrite run_ValidateResponse.
    destruct (OpenAPI.schemas v !! name) as [schema|]; [|done].
    destruct (handle L (json_Unmarshal payload) w) as [[data|e] w1]; [|done].
    destruct (handle L (Schema_Validate schema data) w1) as [[e|] w3] eqn:Hval; [done|].
    intros [= <- <- <-]. by exists schema, data, w1.
Qed.

Lemma pass_requires_validation_witness :
  ∃ schema data w1,
    AsyncAPI.schemas Samples.event_validator !! "A" = Some schema ∧
    handle (lib_of Samples.event_library) (json_Unmarshal (Examples.bytes "{}")) []
      = (Ok data, w1) ∧
    handle (lib_of Samples.event_library) (Schema_Validate schema data) w1 = (None, []) ∧
    [event (json_Unmarshal (Examples.bytes "{}")) (Ok (VMap ∅));
     event (Schema_Validate {| Location := "synapse://asyncapi/A" |} (VMap ∅)) None] =
    [event (json_Unmarshal (Examples.bytes "{}")) (Ok data);
     event (Schema_Validate schema data) None].
Proof.
  apply (proj1 (pass_requires_validation (lib_of Samples.event_library) [] "A"
                  (Examples.bytes "{}")) Samples.event_validator Samples.event_validator).
  vm_compute. reflexivity.
Defined.

(** X20. When the request is sent and its response read, [RunTest] records
    a pass exactly when the status is the expected one and either the schema
    name is empty, or the body is empty, or [ValidateResponse] returns a nil
    error for the body. *)
Theorem RunTest_pass_iff (L : Lib) (w w1 w2 w3 : World L)
    (s : OpenAPI.ContractTestSuite) (ctx : Context) (client : Client)
    (baseURL method path : string) (body : option (list byte)) (expectedStatus : Z)
    (responseSchema : string) (req : Request) (resp : Response) (respBody : list byte)
    (rerr : option error) (r : OpenAPI.ContractTestResult) (s' : OpenAPI.ContractTestSuite)
    (w' : World L) (t : list Event) :
  handle L (http_NewRequestWithContext ctx method (baseURL +:+ path) body) w = (Ok req, w1) →
  handle L (Client_Do client (Header_Set req "Content-Type" "application/json")) w1
    = (Ok resp, w2) →
  handle L (io_ReadAll (Body resp)) w2 = ((respBody, rerr), w3) →
  run L (OpenAPI.RunTest s ctx client baseURL method path body expectedStatus
           responseSchema) w = (Done (r, s'), w', t) →
  OpenAPI.Passed r = true ↔
  StatusCode resp = expectedStatus ∧
  (responseSchema = "" ∨ respBody = [] ∨
   outcome (run L (OpenAPI.ValidateResponse (OpenAPI.validator s) responseSchema respBody) w3)
     = Done (OpenAPI.validator s, None)).
Proof.
  intros Hreq Hdo Hread. unfold OpenAPI.RunTest, outcome. simpl.
  rewrite Hreq. simpl. rewrite Hdo. simpl. rewrite Hread. simpl.
  destruct (decide (StatusCode resp ≠ expectedStatus)) as [Hne|Heq]; simpl.
  { destruct (handle L (Body_Close _) w3) as [? w4]. simpl. intros [= <- <- <- <-]. simpl.
    split; [done|]. by intros [? _]. }
  apply dec_stable in Heq.
  destruct (decide (responseSchema ≠ "" ∧ 0 < length respBody)) as [[Hs Hb]|Hskip]; simpl.
  - rewrite run_prog_bind.
    destruct (ValidateResponse_run L w3 (OpenAPI.validator s) responseSchema respBody)
      as (err & w4 & t4 & -> & _).
    destruct err as [e|]; simpl;
      destruct (handle L (Body_Close _) w4) as [? w5]; simpl; intros [= <- <- <- <-]; simpl.
    + split; [done|]. intros [_ [?|[->|?]]]; [done|simpl in Hb; lia|done].
    + split; [|done]. intros _. split; [done|]. by right; right.
  - destruct (handle L (Body_Close _) w3) as [? w4]. simpl. intros [= <- <- <- <-]. simpl.
    split; [|done]. intros _. split; [done|].
    destruct (decide (responseSchema = "")) as [?|Hs]; [by left|]. right. left.
    destruct respBody; [done|]. destruct Hskip. split; [done|simpl; lia].
Qed.

Lemma RunTest_pass_iff_witness :
  true = true ↔
  200%Z = 200%Z ∧
  ("Dup" = "" ∨ ([] : list byte) = [] ∨
   outcome (run (lib_of Samples.rest_library)
              (OpenAPI.ValidateResponse Samples.rest_validator "Dup" []) [])
     = Done (Samples.rest_validator, None)).
Proof.
  apply (RunTest_pass_iff (lib_of Samples.rest_library) [] [] [] []
           {| OpenAPI.validator := Samples.rest_validator; OpenAPI.results := [] |}
           0 0 "http://localhost" "GET" "/orders" None 200 "Dup"
           {| req_Method := "GET"; req_URL := "http://localhost/orders"; req_Body := None;
              req_Header := [] |}
           {| StatusCode := 200; Body := 0 |} [] None
           (OpenAPI.set_Passed
              (OpenAPI.set_Response (blank_result "GET" "/orders" None "Dup")
                 (String.string_of_list_byte [])) true)
           {| OpenAPI.validator := Samples.rest_validator;
              OpenAPI.results :=
                [OpenAPI.set_Passed
                   (OpenAPI.set_Response (blank_result "GET" "/orders" None "Dup")
                      (String.string_of_list_byte [])) true] |}
           []
           [event (http_NewRequestWithContext 0 "GET" "http://localhost/orders" None)
              (Ok {| req_Method := "GET"; req_URL := "http://localhost/orders";
                     req_Body := None; req_Header := [] |});
            event (Client_Do 0 {| req_Method := "GET"; req_URL := "http://localhost/orders";
                                  req_Body := None;
                                  req_Header := [("Content-Type", "application/json")] |})
              (Ok {| StatusCode := 200; Body := 0 |});
            event (io_ReadAll 0) ([], None);
            event (Body_Close 0) None]).
  - vm_compute. reflexivity.
  - vm_compute. reflexivity.
  - vm_compute. reflexivity.
  - vm_compute. reflexivity.
Defined.

(** ** Translating a translated node *)

Lemma map_fold_andb_true {A} (f : string → A → bool) (m : gmap string A) :
  (∀ k v, m !! k = Some v → f k v = true) →
  map_fold (λ k v ok, f k v && ok) true m = true.
Proof.
  apply (map_fold_weak_ind (λ b m, (∀ k v, m !! k = Some v → f k v = true) → b = true)).
  - done.
  - intros i x m0 b Hi IH Hall. rewrite (Hall i x) by apply lookup_insert_eq. simpl.
    apply IH. intros k v Hk. apply Hall. rewrite lookup_insert_ne; [done|].
    intros <-. congruence.
Qed.

Lemma rewrite_ref_fixed ns before name :
  ns = before +:+ "/" → has_slash name = false →
  rewrite_ref ns (VString (ns +:+ name)) = Returns (VString (ns +:+ name)).
Proof.
  intros -> Hname. unfold rewrite_ref, last_part. simpl.
  rewrite string_append_assoc.
  destruct (strings_Split_slash_app before name) as (pieces & _ & ->).
  rewrite strings_Split_slash_plain by done. rewrite last_snoc. simpl.
  unfold schemaID. by rewrite string_append_assoc.
Qed.

(** The shape of the values a translation holds under the four keywords. *)
Lemma translated_shape ns schema r k val :
  toJSONSchema ns schema = Returns r → r !! k = Some val →
  (k = "$ref" → ∃ name, val = VString (ns +:+ name) ∧ has_slash name = false) ∧
  (k = "properties" → ∃ props props',
     schema !! k = Some (VMap props) ∧ val = VMap props' ∧
     convertProperties ns props = Returns props') ∧
  (k = "items" → ∃ items t,
     schema !! k = Some (VMap items) ∧ val = VMap t ∧ toJSONSchema ns items = Returns t) ∧
  (k = "allOf" → ∃ allOf converted,
     schema !! k = Some (VSeq allOf) ∧ val = VSeq converted ∧
     convertAllOf_with (toJSONSchema_node ns) allOf = Returns converted).
Proof.
  intros Hres Hval. pose proof (toJSONSchema_lookup ns schema r Hres k) as Hlook.
  destruct (schema !! k) as [sval|] eqn:Hs.
  2: { rewrite Hval in Hlook. symmetry in Hlook.
       apply lookup_singleton_Some in Hlook as [<- _]. by split_and!. }
  destruct Hlook as (o & Ho & Hr). rewrite Hval in Hr. subst o.
  unfold translated_value in Ho. split_and!; intros ->; simpl in Ho.
  - apply go_bind_Returns in Ho as (x & Hx & [= <-]). unfold rewrite_ref in Hx.
    apply go_bind_Returns in Hx as (ref & Href & Hx).
    destruct (last_part_segment ref) as (name & Hlast & Hname & _).
    rewrite Hlast in Hx. injection Hx as <-. by exists name.
  - destruct sval; try done. apply go_bind_Returns in Ho as (props' & ? & [= <-]).
    by exists m, props'.
  - destruct sval; try done. apply go_bind_Returns in Ho as (t & ? & [= <-]).
    by exists m, t.
  - destruct sval; try done. apply go_bind_Returns in Ho as (converted & ? & [= <-]).
    by exists l, converted.
Qed.

Lemma returns_true {A} (x : Go A) : returns x = true → ∃ a, x = Returns a.
Proof. destruct x; [by eexists|done]. Qed.

Lemma convertAllOf_elements ns allOf converted c :
  convertAllOf_with (toJSONSchema_node ns) allOf = Returns converted →
  c ∈ converted →
  c = VNil ∨ ∃ p t, VMap p ∈ allOf ∧ toJSONSchema ns p = Returns t ∧ c = VMap t.
Proof.
  intros Hconv Hc. destruct (convertAllOf_lookup ns allOf converted Hconv) as [Hlen Hall].
  apply list_elem_of_lookup in Hc as [i Hi].
  assert (is_Some (allOf !! i)) as [item Hitem].
  { apply lookup_lt_is_Some. rewrite <-Hlen. by eapply lookup_lt_Some. }
  specialize (Hall i item Hitem). destruct item; try (left; congruence).
  destruct Hall as (t & Ht & Hti). right. exists m, t. split_and!; [|done|congruence].
  by eapply list_elem_of_lookup_2.
Qed.

Lemma refs_of_returns ns p t :
  toJSONSchema ns p = Returns t → refs_are_strings (VMap p) = true.
Proof.
  intros Ht. rewrite <-(returns_toJSONSchema_node ns (S (depth (VMap p)))) by lia.
  unfold toJSONSchema in Ht. by rewrite Ht.
Qed.

Lemma translated_has_marker ns schema r :
  toJSONSchema ns schema = Returns r → is_Some (r !! "$schema").
Proof.
  intros Hres. pose proof (toJSONSchema_lookup ns schema r Hres "$schema") as Hlook.
  destruct (schema !! "$schema") as [val|].
  - destruct Hlook as (o & Ho & ->). unfold translated_value in Ho. simpl in Ho.
    injection Ho as <-. by eexists.
  - rewrite Hlook, lookup_singleton_eq. by eexists.
Qed.

Lemma retranslate ns before :
  ns = before +:+ "/" →
  ∀ n schema r, depth (VMap schema) < n →
    toJSONSchema ns schema = Returns r → toJSONSchema ns r = Returns r.
Proof.
  intros Hns. induction n as [|n IH]; intros schema r Hd Hres; [lia|].
  assert (∀ k p t, schema !! k = Some (VMap p) →
            toJSONSchema ns p = Returns t → toJSONSchema ns t = Returns t) as IHmap.
  { intros k p t Hk. apply IH. apply depth_map_elem in Hk. lia. }
  assert (∀ k props name p t, schema !! k = Some (VMap props) →
            props !! name = Some (VMap p) →
            toJSONSchema ns p = Returns t → toJSONSchema ns t = Returns t) as IHprops.
  { intros k props name p t Hk Hname. apply IH.
    apply depth_map_elem in Hk. apply depth_map_elem in Hname. lia. }
  assert (∀ k allOf p t, schema !! k = Some (VSeq allOf) → VMap p ∈ allOf →
            toJSONSchema ns p = Returns t → toJSONSchema ns t = Returns t) as IHseq.
  { intros k allOf p t Hk Hin. apply IH.
    apply depth_map_elem in Hk. apply depth_seq_elem in Hin. lia. }
  assert (returns (toJSONSchema ns r) = true) as Hreturns.
  { unfold toJSONSchema.
    rewrite (returns_toJSONSchema_node ns (S (depth (VMap r)))) by lia.
    simpl refs_are_strings. apply map_fold_andb_true. intros k val Hval.
    destruct (translated_shape ns schema r k val Hres Hval)
      as (Href & Hprops & Hitems & HallOf).
    unfold ref_check. repeat case_decide; [| | | |done].
    - by destruct (Href ltac:(done)) as (name & -> & _).
    - destruct (Hprops ltac:(done)) as (props & props' & Hs & -> & Hconv).
      apply (map_fold_andb_true (λ _ p, refs_are_strings p)). intros name p' Hp'.
      pose proof (convertProperties_lookup ns props props' Hconv name) as Hlook.
      rewrite Hp' in Hlook. destruct (props !! name) as [[]|] eqn:Hname; try done.
      destruct Hlook as (t & Ht & [= ->]).
      apply (refs_of_returns ns t t). by eapply IHprops.
    - destruct (Hitems ltac:(done)) as (items & t & Hs & -> & Ht).
      apply (refs_of_returns ns t t). by eapply IHmap.
    - destruct (HallOf ltac:(done)) as (allOf & converted & Hs & -> & Hconv).
      apply forallb_forall. intros c Hc. apply list_elem_of_In in Hc.
      destruct (convertAllOf_elements ns allOf converted c Hconv Hc)
        as [->|(p & t & Hp & Ht & ->)]; [done|].
      apply (refs_of_returns ns t t). by eapply IHseq. }
  apply returns_true in Hreturns as [r2 Hr2]. rewrite Hr2. f_equal.
  apply map_eq. intros k.
  pose proof (toJSONSchema_lookup ns r r2 Hr2 k) as Hlook.
  destruct (r !! k) as [val|] eqn:Hval.
  2: { rewrite Hlook. apply lookup_singleton_ne. intros <-.
       destruct (translated_has_marker ns schema r Hres) as [x Hx]. congruence. }
  destruct Hlook as (o & Ho & ->).
  destruct (translated_shape ns schema r k val Hres Hval)
    as (Href & Hprops & Hitems & HallOf).
  unfold translated_value in Ho. repeat case_decide.
  - destruct (Href ltac:(done)) as (name & -> & Hname).
    rewrite (rewrite_ref_fixed ns before name Hns Hname) in Ho. simpl in Ho. congruence.
  - destruct (Hprops ltac:(done)) as (props & props' & Hs & -> & Hconv).
    apply go_bind_Returns in Ho as (props2 & Hconv2 & [= <-]). do 2 f_equal.
    apply map_eq. intros name.
    pose proof (convertProperties_lookup ns props props' Hconv name) as Hfirst.
    pose proof (convertProperties_lookup ns props' props2 Hconv2 name) as Hsecond.
    destruct (props !! name) as [[]|] eqn:Hname;
      try (rewrite Hfirst in Hsecond; by rewrite Hsecond, Hfirst).
    destruct Hfirst as (t & Ht & Hfirst). rewrite Hfirst in Hsecond.
    destruct Hsecond as (t2 & Ht2 & ->). rewrite Hfirst. do 2 f_equal.
    pose proof (IHprops k props name _ t Hs Hname Ht) as Hfix. congruence.
  - destruct (Hitems ltac:(done)) as (items & t & Hs & -> & Ht).
    rewrite (IHmap k items t Hs Ht) in Ho. simpl in Ho. congruence.
  - destruct (HallOf ltac:(done)) as (allOf & converted & Hs & -> & Hconv).
    apply go_bind_Returns in Ho as (converted2 & Hconv2 & [= <-]). do 2 f_equal.
    destruct (convertAllOf_lookup ns converted converted2 Hconv2) as [Hlen Hall].
    apply list_eq. intros i. destruct (converted !! i) as [c|] eqn:Hc.
    + specialize (Hall i c Hc).
      destruct (convertAllOf_elements ns allOf converted c Hconv)
        as [->|(p & t & Hp & Ht & ->)]; [by eapply list_elem_of_lookup_2|done|].
      destruct Hall as (t2 & Ht2 & ->). do 2 f_equal.
      pose proof (IHseq k allOf p t Hs Hp Ht) as Hfix. congruence.
    + apply lookup_ge_None. rewrite Hlen. by apply lookup_ge_None.
  - congruence.
Qed.

(** X21. Translating is idempotent: a node that a translator returned is
    translated to itself by the same translator. The rewritten references
    end in the schema name after the last "/" of the namespace, the nested
    nodes are translated already, and the other keys are copied. This holds
    for both translators, whose namespaces end in "/". *)
Theorem translation_is_idempotent (schema result : gmap string any) :
  (AsyncAPI.toJSONSchema schema = Returns result →
   AsyncAPI.toJSONSchema result = Returns result) ∧
  (OpenAPI.toJSONSchema schema = Returns result →
   OpenAPI.toJSONSchema result = Returns result).
Proof.
  split.
  - apply (retranslate asyncapi_ns "synapse://asyncapi" eq_refl (S (depth (VMap schema)))).
    lia.
  - apply (retranslate openapi_ns "synapse://schemas" eq_refl (S (depth (VMap schema)))).
    lia.
Qed.

Lemma translation_is_idempotent_witness :
  AsyncAPI.toJSONSchema Examples.order_node_translated =
  Returns Examples.order_node_translated.
Proof.
  apply (proj1 (translation_is_idempotent Examples.order_node Examples.order_node_translated)).
  vm_compute. reflexivity.
Defined.

(** ** The names and the references of the component files *)

Lemma lookup_registry_of_files ns docs : ∀ R k d,
  registry_of_files ns R docs !! k = Some d →
  R !! k = Some d ∨ ∃ doc, doc ∈ docs ∧ registry ns doc !! k = Some d.
Proof.
  induction docs as [|doc docs IH]; intros R k d Hk; [by left|].
  change (registry_of_files ns R (doc :: docs))
    with (registry_of_files ns (registry ns doc ∪ R) docs) in Hk.
  destruct (IH _ _ _ Hk) as [Hhere|(doc' & Hin & Hdoc')].
  - apply lookup_union_Some_raw in Hhere as [Hdoc|[_ HR]]; [|by left].
    right. exists doc. split; [apply list_elem_of_here|done].
  - right. exists doc'. split; [by apply list_elem_of_further|done].
Qed.

(** X22. After a successful load by the REST loader (registry model), the
    validator holds a compiled schema exactly for the names that some schema
    file defines by a mapping with a serialisable translation. An entry of
    another shape, or one whose translation [json.Marshal] refuses, is
    passed over without an error, and [ValidateResponse] answers "schema not
    found" exactly for the names that no file registers. *)
Theorem rest_loaded_names (L : Library) (w : Compilers) (specPath : string)
    (data : list byte) (spec : gmap string any) (files : list DirEntry)
    (docs : list (gmap string any)) (v : OpenAPI.OpenAPIValidator)
    (name : string) (body : list byte) :
  range_complete L →
  lib_ReadFile L specPath = Ok data →
  lib_yaml L data = Ok spec →
  lib_ReadDir L (lib_Join L [lib_Dir L specPath; "components"; "schemas"]) = Ok files →
  Forall2 (reads_as L (lib_Join L [lib_Dir L specPath; "components"; "schemas"]))
    (filter (λ f, is_schema_file f = true) files) docs →
  outcome (run (lib_of L) (OpenAPI.NewOpenAPIValidator specPath) w) = Done (Some v, None) →
  OpenAPI.schemas v !! name = compiled_for_files openapi_ns docs name ∧
  (Forall (λ doc, doc !! name ≫= resource_of openapi_ns = None) docs ↔
   ∀ w1, outcome (run (lib_of L) (OpenAPI.ValidateResponse v name body) w1) =
         Done (v, Some ("schema not found: " +:+ name))).
Proof.
  intros Hrange Hread Hyaml Hdir Hdocs Hv.
  pose proof (rest_validator_model L w specPath data spec files docs
                Hrange Hread Hyaml Hdir Hdocs) as Hmodel.
  cbv zeta in Hmodel. rewrite Hv in Hmodel.
  destruct Hmodel as (_ & _ & _ & Hschemas & _).
  split; [done|]. unfold outcome. split.
  - intros Hnone w1. rewrite run_ValidateResponse, Hschemas. unfold compiled_for_files.
    rewrite bool_decide_eq_false_2; [done|]. intros Hex.
    apply Exists_exists in Hex as (doc & Hdoc & [d Hd]).
    rewrite Forall_forall in Hnone. specialize (Hnone doc Hdoc). simpl in Hnone. congruence.
  - intros Hnot. specialize (Hnot []). rewrite run_ValidateResponse, Hschemas in Hnot.
    unfold compiled_for_files in Hnot. case_bool_decide as Hex.
    + exfalso. simpl in Hnot. destruct (lib_json L body); simpl in Hnot.
      * destruct (lib_validate L _ _); simpl in Hnot; discriminate Hnot.
      * discriminate Hnot.
    + apply Forall_forall. intros doc Hdoc. apply eq_None_not_Some. intros Hsome.
      apply Hex. apply Exists_exists. by exists doc.
Qed.

Lemma rest_loaded_names_witness :
  OpenAPI.schemas Samples.rest_validator !! "OnlyB" =
    compiled_for_files openapi_ns ([Samples.file_a] ++ Samples.file_b :: []) "OnlyB" ∧
  (Forall (λ doc, doc !! "OnlyB" ≫= resource_of openapi_ns = None)
     ([Samples.file_a] ++ Samples.file_b :: []) ↔
   ∀ w1, outcome (run (lib_of Samples.rest_library)
                    (OpenAPI.ValidateResponse Samples.rest_validator "OnlyB" []) w1) =
         Done (Samples.rest_validator, Some ("schema not found: " +:+ "OnlyB"))).
Proof.
  apply (rest_loaded_names Samples.rest_library [] "openapi.yaml"
           (Stub.content 0) ∅ Samples.listing _ Samples.rest_validator "OnlyB" []
           (range_complete_stub _ _ _) eq_refl eq_refl eq_refl rest_files_read).
  vm_compute. reflexivity.
Defined.

(** X23. Under the registry model with a compiler that fails on a reference
    to an unregistered resource: if a document that the registry holds after
    all the schema files holds, at a position the translator rewrites, a
    reference whose target no file registers, then [NewOpenAPIValidator]
    returns no validator; and when nothing else goes wrong the error returned
    is that of the compile pass and names a schema. A document that a later
    file replaced is not in that registry and plays no part. *)
Theorem rest_load_missing_reference (L : Library) (w : Compilers) (specPath : string)
    (data : list byte) (spec : gmap string any) (files : list DirEntry)
    (docs : list (gmap string any)) (url : string) (d : any) :
  range_complete L →
  resolves_references L →
  lib_ReadFile L specPath = Ok data →
  lib_yaml L data = Ok spec →
  lib_ReadDir L (lib_Join L [lib_Dir L specPath; "components"; "schemas"]) = Ok files →
  Forall2 (reads_as L (lib_Join L [lib_Dir L specPath; "components"; "schemas"]))
    (filter (λ f, is_schema_file f = true) files) docs →
  registry_of_files openapi_ns ∅ docs !! url = Some d →
  dangling (registry_of_files openapi_ns ∅ docs) d →
  (∀ v err, outcome (run (lib_of L) (OpenAPI.NewOpenAPIValidator specPath) w) ≠
            Done (Some v, err)) ∧
  (Forall (translates openapi_ns) docs → Forall (registers L openapi_ns) docs →
   ∃ name' e0, outcome (run (lib_of L) (OpenAPI.NewOpenAPIValidator specPath) w) =
               Done (None, Some ("compiling schema " +:+ name' +:+ ": " +:+ e0))).
Proof.
  intros Hrange Hresolve Hread Hyaml Hdir Hdocs Hurl Hdangling.
  pose proof (rest_validator_model L w specPath data spec files docs
                Hrange Hread Hyaml Hdir Hdocs) as Hmodel.
  cbv zeta in Hmodel.
  destruct (Hresolve _ _ _ Hurl Hdangling) as [e1 He1].
  destruct (lookup_registry_of_files _ _ _ _ _ Hurl) as [Hempty|(doc & Hdoc & Hreg)];
    [by rewrite lookup_empty in Hempty|].
  apply lookup_registry in Hreg as (name & val & -> & Hval & Hres).
  assert (Forall (λ doc, compiles L openapi_ns doc (registry_of_files openapi_ns ∅ docs)) docs
          → False) as Hnot.
  { intros Hc. rewrite Forall_forall in Hc. by rewrite (Hc doc Hdoc name val d) in He1. }
  split.
  - intros v err Hv. rewrite Hv in Hmodel. destruct err; [done|].
    destruct Hmodel as (_ & _ & Hc & _). by apply Hnot.
  - intros Hp Ha. rewrite Forall_forall in Hp. rewrite Forall_forall in Ha.
    destruct (outcome _) as [[[v|] [e|]]|msg]; try done.
    + destruct Hmodel as (_ & _ & Hc & _). by destruct (Hnot Hc).
    + destruct Hmodel as (doc' & name' & val' & d' & e0 & Hdoc' & Hval' & Hres'
                          & [[Hadd _]|(_ & _ & Hcomp & ->)]).
      * by rewrite (Ha doc' Hdoc' name' val' d') in Hadd.
      * by exists name', e0.
    + destruct Hmodel as (doc' & name' & val' & Hdoc' & Hval' & Hpanic).
      by rewrite (Hp doc' Hdoc' name' val') in Hpanic.
Qed.

Lemma rest_load_missing_reference_witness :
  ∃ name' e0,
    outcome (run (lib_of broken_rest_library) (OpenAPI.NewOpenAPIValidator "openapi.yaml") []) =
    Done (None, Some ("compiling schema " +:+ name' +:+ ": " +:+ e0)).
Proof.
  refine (proj2 (rest_load_missing_reference broken_rest_library [] "openapi.yaml"
                   (Stub.content 0) ∅ [{| Name_ := "order.yaml"; IsDir := false |}]
                   [dangling_file] "synapse://schemas/Order"
                   (VMap {["$schema" := VString draft_2020_12;
                           "$ref" := VString "synapse://schemas/Customer"]})
                   (range_complete_stub _ _ _) (resolves_references_stub _ _ _ _)
                   eq_refl eq_refl eq_refl _ _ _) _ _).
  - repeat constructor. exists (Stub.content 1). split; vm_compute; reflexivity.
  - vm_compute. reflexivity.
  - exists "synapse://schemas/Customer". split_and!.
    + vm_compute. apply list_elem_of_here.
    + vm_compute. reflexivity.
    + vm_compute. reflexivity.
  - constructor; [|constructor]. intros name val Hval. unfold dangling_file in Hval.
    apply lookup_singleton_Some in Hval as [<- <-]. vm_compute. reflexivity.
  - constructor; [|constructor]. intros name val d Hval Hres. reflexivity.
Defined.

(** ** The two passes and the order of declaration *)



(** ** References to names that are not registered *)



(** ** Names defined more than once *)

(** C5, counterexample. The schema files [a.yaml] and [b.yaml] both define
    [Dup], with different documents. [NewOpenAPIValidator] returns a
    validator and no error; the compiler holds the document of [b.yaml]
    under the identifier of [Dup]. *)
Lemma name_collision_is_not_reported :
  Samples.file_a !! "Dup" ≫= resource_of openapi_ns =
    Some (VMap {["$schema" := VString draft_2020_12; "type" := VString "string"]}) ∧
  Samples.file_b !! "Dup" ≫= resource_of openapi_ns =
    Some (VMap {["$schema" := VString draft_2020_12; "type" := VString "integer"]}) ∧
  outcome (run (lib_of Samples.rest_library) (OpenAPI.NewOpenAPIValidator "openapi.yaml") []) =
    Done (Some Samples.rest_validator, None) ∧
  ∃ R, (run (lib_of Samples.rest_library) (OpenAPI.NewOpenAPIValidator "openapi.yaml") []).1.2
       = [R] ∧
       R !! schemaID openapi_ns "Dup" =
         Some (VMap {["$schema" := VString draft_2020_12; "type" := VString "integer"]}).
Proof.
  split_and!; try (vm_compute; reflexivity).
  eexists. split; vm_compute; reflexivity.
Qed.

(** C5, as amended. The REST loader reports no collision of its own: when
    every schema of every file translates, is accepted by [AddResource] and
    compiles against the registry left by all the files, it returns a
    validator, whether or not names are defined more than once. A name
    defined in several files has one compiled schema, and the registry
    holds, under its identifier, the document of the last file that
    registers it. *)
Theorem duplicate_names_are_overwritten (L : Library) (w : Compilers) (specPath : string)
    (data : list byte) (spec : gmap string any) (files : list DirEntry)
    (docs : list (gmap string any)) :
  range_complete L →
  lib_ReadFile L specPath = Ok data →
  lib_yaml L data = Ok spec →
  lib_ReadDir L (lib_Join L [lib_Dir L specPath; "components"; "schemas"]) = Ok files →
  Forall2 (reads_as L (lib_Join L [lib_Dir L specPath; "components"; "schemas"]))
    (filter (λ f, is_schema_file f = true) files) docs →
  Forall (translates openapi_ns) docs →
  Forall (registers L openapi_ns) docs →
  Forall (λ doc, compiles L openapi_ns doc (registry_of_files openapi_ns ∅ docs)) docs →
  ∃ v, outcome (run (lib_of L) (OpenAPI.NewOpenAPIValidator specPath) w) = Done (Some v, None) ∧
       (run (lib_of L) (OpenAPI.NewOpenAPIValidator specPath) w).1.2 =
       w ++ [registry_of_files openapi_ns ∅ docs] ∧
       ∀ docs1 doc docs2 name val d,
         docs = docs1 ++ doc :: docs2 →
         doc !! name = Some val →
         resource_of openapi_ns val = Some d →
         Forall (λ doc', doc' !! name ≫= resource_of openapi_ns = None) docs2 →
         OpenAPI.schemas v !! name = Some {| Location := schemaID openapi_ns name |} ∧
         registry_of_files openapi_ns ∅ docs !! schemaID openapi_ns name = Some d.
Proof.
  intros Hrange Hread Hyaml Hdir Hdocs Hp Ha Hc.
  pose proof (rest_validator_model L w specPath data spec files docs
                Hrange Hread Hyaml Hdir Hdocs) as Hmodel.
  cbv zeta in Hmodel.
  rewrite Forall_forall in Hp. rewrite Forall_forall in Ha. rewrite Forall_forall in Hc.
  destruct (outcome _) as [[[v|] [e|]]|msg]; try done.
  - destruct Hmodel as (_ & _ & _ & Hschemas & Hworld).
    exists v. split; [done|]. split; [done|].
    intros docs1 doc docs2 name val d -> Hval Hres Hlater. split.
    + rewrite Hschemas. unfold compiled_for_files. rewrite bool_decide_eq_true_2; [done|].
      apply Exists_app. right. apply Exists_cons_hd. rewrite Hval. simpl. by rewrite Hres.
    + apply registry_of_files_last.
      * apply lookup_registry. by exists name, val.
      * eapply Forall_impl; [exact Hlater|]. intros doc' Hnone. simpl in Hnone.
        apply eq_None_not_Some. intros [d' Hd'].
        apply lookup_registry in Hd' as (name' & val' & Heq & Hval' & Hres').
        apply (inj (schemaID openapi_ns)) in Heq as <-.
        rewrite Hval' in Hnone. simpl in Hnone. congruence.
  - destruct Hmodel as (doc & name & val & d & e0 & Hdoc & Hval & Hres
                        & [[Hadd _]|(_ & _ & Hcomp & _)]).
    + by rewrite (Ha doc Hdoc name val d) in Hadd.
    + by rewrite (Hc doc Hdoc name val d) in Hcomp.
  - destruct Hmodel as (doc & name & val & Hdoc & Hval & Hpanic).
    by rewrite (Hp doc Hdoc name val) in Hpanic.
Qed.

Lemma duplicate_names_are_overwritten_witness :
  ∃ v, outcome (run (lib_of Samples.rest_library) (OpenAPI.NewOpenAPIValidator "openapi.yaml") [])
       = Done (Some v, None) ∧
       (run (lib_of Samples.rest_library) (OpenAPI.NewOpenAPIValidator "openapi.yaml") []).1.2 =
       [] ++ [registry_of_files openapi_ns ∅ ([Samples.file_a] ++ Samples.file_b :: [])] ∧
       ∀ docs1 doc docs2 name val d,
         [Samples.file_a] ++ Samples.file_b :: [] = docs1 ++ doc :: docs2 →
         doc !! name = Some val →
         resource_of openapi_ns val = Some d →
         Forall (λ doc', doc' !! name ≫= resource_of openapi_ns = None) docs2 →
         OpenAPI.schemas v !! name = Some {| Location := schemaID openapi_ns name |} ∧
         registry_of_files openapi_ns ∅ ([Samples.file_a] ++ Samples.file_b :: [])
           !! schemaID openapi_ns name = Some d.
Proof.
  assert (∀ doc, doc ∈ [Samples.file_a; Samples.file_b] →
            ∀ name val, doc !! name = Some val →
              (name, val) ∈ map_to_list Samples.file_a ∨
              (name, val) ∈ map_to_list Samples.file_b) as Hentries.
  { intros doc Hdoc name val Hval.
    apply elem_of_cons in Hdoc as [->|Hdoc]; [left; by apply elem_of_map_to_list|].
    apply elem_of_cons in Hdoc as [->|Hdoc]; [right; by apply elem_of_map_to_list|].
    by apply elem_of_nil in Hdoc. }
  apply (duplicate_names_are_overwritten Samples.rest_library [] "openapi.yaml"
           (Stub.content 0) ∅ Samples.listing _
           (range_complete_stub _ _ _) eq_refl eq_refl eq_refl rest_files_read).
  - apply Forall_forall. intros doc Hdoc name val Hval.
    destruct (Hentries doc Hdoc name val Hval) as [Hin|Hin]; vm_compute in Hin;
      repeat (apply elem_of_cons in Hin as [Hin|Hin];
              [injection Hin as -> ->; vm_compute; reflexivity|]);
      by apply elem_of_nil in Hin.
  - apply Forall_forall. intros doc Hdoc name val d Hval Hres. reflexivity.
  - apply Forall_forall. intros doc Hdoc name val d Hval Hres.
    destruct (Hentries doc Hdoc name val Hval) as [Hin|Hin]; vm_compute in Hin;
      repeat (apply elem_of_cons in Hin as [Hin|Hin];
              [injection Hin as -> ->; vm_compute in Hres; try discriminate Hres;
               vm_compute; reflexivity|]);
      by apply elem_of_nil in Hin.
Defined.

(** ** Entries that are passed over *)

Lemma skipped_resource_of ns val :
  skipped ns val → resource_of ns val = None ∧ entry_panics ns val = false.
Proof.
  destruct val; try done. simpl. intros (jsonSchema & -> & Hmarshal).
  by destruct (json_Marshal _).
Qed.

Lemma entry_cases ns val :
  entry_panics ns val = false → skipped ns val ∨ is_Some (resource_of ns val).
Proof.
  destruct val; try by left. simpl.
  destruct (toJSONSchema ns m) as [jsonSchema|msg]; [|done]. intros _.
  destruct (json_Marshal (VMap jsonSchema)) as [bytes|e] eqn:Hmarshal.
  - right. by eexists.
  - left. exists jsonSchema. by rewrite Hmarshal.
Qed.

(** The three conditions of a load, entry by entry. *)
Lemma loads_entry_by_entry (L : Library) ns (S R : gmap string any) :
  translates ns S ∧ registers L ns S ∧ compiles L ns S R ↔
  ∀ name val, S !! name = Some val → skipped ns val ∨ entry_loads L ns R name val.
Proof.
  split.
  - intros (Hp & Ha & Hc) name val Hval.
    destruct (entry_cases ns val (Hp name val Hval)) as [?|[d Hd]]; [by left|].
    right. exists d. split; [done|]. split; [by eapply Ha|by eapply Hc].
  - intros Hall. split_and!.
    + intros name val Hval. destruct (Hall name val Hval) as [Hs|(d & Hd & _)].
      * by apply skipped_resource_of.
      * destruct val; try done. simpl in *. by destruct (toJSONSchema ns m).
    + intros name val d Hval Hd. destruct (Hall name val Hval) as [Hs|(d' & Hd' & Hadd & _)].
      * apply skipped_resource_of in Hs as [Hs _]. congruence.
      * congruence.
    + intros name val d Hval Hd. destruct (Hall name val Hval) as [Hs|(d' & Hd' & _ & Hcomp)].
      * apply skipped_resource_of in Hs as [Hs _]. congruence.
      * done.
Qed.

(** C10. Under the registry model, for a specification that reads and
    parses: a named entry whose value is not a mapping, or whose translation
    [json.Marshal] refuses, is passed over. Construction succeeds exactly
    when every entry is either passed over or loads (it is registered,
    accepted by [AddResource] and compiles), so an entry that is passed over
    never fails the load; after a successful load no resource is registered
    under the name of such an entry, and a validation call against the name
    returns "schema not found". For the REST loader the name must be passed
    over in every schema file that has it. *)
Theorem skipped_entries_do_not_fail_the_load (L : Library) (w : Compilers)
    (specPath : string) (data : list byte) (spec : gmap string any) :
  range_complete L →
  lib_ReadFile L specPath = Ok data →
  lib_yaml L data = Ok spec →
  (((∃ v, outcome (run (lib_of L) (AsyncAPI.NewAsyncAPIValidator specPath) w) =
          Done (Some v, None)) ↔
    ∀ name val, component_schemas spec !! name = Some val →
      skipped asyncapi_ns val ∨
      entry_loads L asyncapi_ns (registry asyncapi_ns (component_schemas spec)) name val) ∧
   (∀ v name val payload w1,
      outcome (run (lib_of L) (AsyncAPI.NewAsyncAPIValidator specPath) w) =
        Done (Some v, None) →
      component_schemas spec !! name = Some val →
      skipped asyncapi_ns val →
      (∃ R, (run (lib_of L) (AsyncAPI.NewAsyncAPIValidator specPath) w).1.2 = w ++ [R] ∧
            R !! schemaID asyncapi_ns name = None) ∧
      outcome (run (lib_of L) (AsyncAPI.ValidateMessage v name payload) w1) =
        Done (v, Some ("schema not found: " +:+ name)))) ∧
  (∀ files docs,
     lib_ReadDir L (lib_Join L [lib_Dir L specPath; "components"; "schemas"]) = Ok files →
     Forall2 (reads_as L (lib_Join L [lib_Dir L specPath; "components"; "schemas"]))
       (filter (λ f, is_schema_file f = true) files) docs →
     ((∃ v, outcome (run (lib_of L) (OpenAPI.NewOpenAPIValidator specPath) w) =
            Done (Some v, None)) ↔
      ∀ doc name val, doc ∈ docs → doc !! name = Some val →
        skipped openapi_ns val ∨
        entry_loads L openapi_ns (registry_of_files openapi_ns ∅ docs) name val) ∧
     (∀ v name body w1,
        outcome (run (lib_of L) (OpenAPI.NewOpenAPIValidator specPath) w) =
          Done (Some v, None) →
        (∀ doc val, doc ∈ docs → doc !! name = Some val → skipped openapi_ns val) →
        (∃ R, (run (lib_of L) (OpenAPI.NewOpenAPIValidator specPath) w).1.2 = w ++ [R] ∧
              R !! schemaID openapi_ns name = None) ∧
        outcome (run (lib_of L) (OpenAPI.ValidateResponse v name body) w1) =
          Done (v, Some ("schema not found: " +:+ name)))).
Proof.
  intros Hrange Hread Hyaml. split.
  - pose proof (event_validator_model L w specPath data spec Hrange Hread Hyaml) as Hmodel.
    cbv zeta in Hmodel. split.
    + rewrite <-loads_entry_by_entry. split.
      * intros [v Hv]. rewrite Hv in Hmodel. by destruct Hmodel as (? & ? & ? & _).
      * intros (Hp & Ha & Hc).
        destruct (outcome _) as [[[v|] [e|]]|msg]; try done.
        -- by exists v.
        -- destruct Hmodel as (name & val & d & e0 & Hval & Hres
                               & [[Hadd _]|(_ & _ & Hcomp & _)]).
           ++ by rewrite (Ha name val d) in Hadd.
           ++ by rewrite (Hc name val d) in Hcomp.
        -- destruct Hmodel as (name & val & Hval & Hpanic).
           by rewrite (Hp name val) in Hpanic.
    + intros v name val payload w1 Hv Hval Hskip. rewrite Hv in Hmodel.
      destruct Hmodel as (_ & _ & _ & Hschemas & _ & Hworld).
      apply skipped_resource_of in Hskip as [Hnone _]. split.
      * eexists. split; [exact Hworld|]. apply eq_None_not_Some. intros [d Hd].
        apply lookup_registry in Hd as (name' & val' & Heq & Hval' & Hres').
        apply (inj (schemaID asyncapi_ns)) in Heq as <-. congruence.
      * unfold outcome. rewrite run_ValidateMessage, Hschemas. unfold compiled_for.
        rewrite Hval. simpl. by rewrite Hnone.
  - intros files docs Hdir Hdocs.
    pose proof (rest_validator_model L w specPath data spec files docs
                  Hrange Hread Hyaml Hdir Hdocs) as Hmodel.
    cbv zeta in Hmodel. split.
    + assert ((∀ doc name val, doc ∈ docs → doc !! name = Some val →
                 skipped openapi_ns val ∨
                 entry_loads L openapi_ns (registry_of_files openapi_ns ∅ docs) name val) ↔
              Forall (translates openapi_ns) docs ∧ Forall (registers L openapi_ns) docs ∧
              Forall (λ doc, compiles L openapi_ns doc (registry_of_files openapi_ns ∅ docs))
                docs) as ->.
      { rewrite <-!Forall_and, Forall_forall. split.
        - intros Hall doc Hdoc. apply loads_entry_by_entry. intros name val. by apply Hall.
        - intros Hall doc name val Hdoc. by apply loads_entry_by_entry, Hall. }
      split.
      * intros [v Hv]. rewrite Hv in Hmodel. by destruct Hmodel as (? & ? & ? & _).
      * intros (Hp & Ha & Hc).
        rewrite Forall_forall in Hp. rewrite Forall_forall in Ha. rewrite Forall_forall in Hc.
        destruct (outcome _) as [[[v|] [e|]]|msg]; try done.
        -- by exists v.
        -- destruct Hmodel as (doc & name & val & d & e0 & Hdoc & Hval & Hres
                               & [[Hadd _]|(_ & _ & Hcomp & _)]).
           ++ by rewrite (Ha doc Hdoc name val d) in Hadd.
           ++ by rewrite (Hc doc Hdoc name val d) in Hcomp.
        -- destruct Hmodel as (doc & name & val & Hdoc & Hval & Hpanic).
           by rewrite (Hp doc Hdoc name val) in Hpanic.
    + intros v name body w1 Hv Hskip. rewrite Hv in Hmodel.
      destruct Hmodel as (_ & _ & _ & Hschemas & Hworld).
      assert (∀ doc, doc ∈ docs → doc !! name ≫= resource_of openapi_ns = None) as Hnone.
      { intros doc Hdoc. destruct (doc !! name) as [val|] eqn:Hval; [|done]. simpl.
        by apply (skipped_resource_of openapi_ns val), (Hskip doc). }
      split.
      * eexists. split; [exact Hworld|]. apply eq_None_not_Some. intros [d Hd].
        apply lookup_registry_of_files in Hd as [Hd|(doc & Hdoc & Hd)];
          [by rewrite lookup_empty in Hd|].
        apply lookup_registry in Hd as (name' & val' & Heq & Hval' & Hres').
        apply (inj (schemaID openapi_ns)) in Heq as <-.
        specialize (Hnone doc Hdoc). rewrite Hval' in Hnone. simpl in Hnone. congruence.
      * unfold outcome. rewrite run_ValidateResponse, Hschemas. unfold compiled_for_files.
        rewrite bool_decide_eq_false_2; [done|]. intros Hex.
        apply Exists_exists in Hex as (doc & Hdoc & [d Hd]).
        rewrite (Hnone doc Hdoc) in Hd. discriminate Hd.
Qed.

Lemma skipped_entries_do_not_fail_the_load_witness :
  (∃ R, (run (lib_of Samples.event_library)
           (AsyncAPI.NewAsyncAPIValidator "asyncapi.yaml") []).1.2 = [] ++ [R] ∧
        R !! schemaID asyncapi_ns "bad" = None) ∧
  outcome (run (lib_of Samples.event_library)
             (AsyncAPI.ValidateMessage Samples.event_validator "bad" (Examples.bytes "{}")) [])
  = Done (Samples.event_validator, Some ("schema not found: " +:+ "bad")).
Proof.
  apply (proj2 (proj1 (skipped_entries_do_not_fail_the_load Samples.event_library []
                         "asyncapi.yaml" (Stub.content 0) Samples.event_spec
                         (range_complete_stub _ _ _) eq_refl eq_refl))
           Samples.event_validator "bad" (VMap {["default" := VFloat FNaN]})
           (Examples.bytes "{}") []).
  - vm_compute. reflexivity.
  - vm_compute. reflexivity.
  - simpl. eexists. split; vm_compute; reflexivity.
Defined.
